(** * Document conversion pipeline with rotation and staging

    A shallow embedding of [docling-inputs2outputs.py] and the properties
    its specification states about it.

    Python values are modelled as follows.
    - [str] is [string]; characters are 8-bit, [lower] acts on the ASCII
      letters, and comparison is the code-point order [String.leb].
    - a path handed to [os] is the list of its components, looked up in a
      tree of files and directories rooted at the working directory; its
      printed form joins the components with ["/"].
    - an exception is a value of [exn]; a function that may raise returns
      an [outcome], and the world it mutates is threaded explicitly.
    - what the operating system or the conversion library decides (whether
      a call fails, what a conversion returns) is read from an oracle; a
      call that fails changes nothing, except a write, which may leave a
      part of its content.
    - the numbers behind [float] are rationals, and their formatting is
      left to the oracle.
    - of the log, the warnings, the errors and the retry notices are kept
      as events; the other [info] and [debug] lines, which nothing reads,
      are left out. *)

From Stdlib Require Import List String Ascii Bool Arith ZArith QArith Qround.
From Stdlib Require Import Lia Lqa.
From Stdlib Require Import Permutation Sorted.
Import ListNotations.
Local Open Scope string_scope.
Local Open Scope list_scope.

Set Implicit Arguments.
Local Set Warnings "-register-all".

(* ====================================================================== *)
(** * Definitions *)
(* ====================================================================== *)

(** ** Strings *)

Module PyStr.

(** [c in s] for a one-character [c]. *)
Fixpoint has_char (c : ascii) (s : string) : bool :=
  match s with
  | EmptyString => false
  | String d s' => Ascii.eqb c d || has_char c s'
  end.

(** [c.lower()] on one character: the ASCII capitals are shifted. *)
Definition lower_char (c : ascii) : ascii :=
  let n := nat_of_ascii c in
  if (65 <=? n)%nat && (n <=? 90)%nat then ascii_of_nat (n + 32) else c.

(** [s.lower()] *)
Fixpoint lower (s : string) : string :=
  match s with
  | EmptyString => EmptyString
  | String c s' => String (lower_char c) (lower s')
  end.

(** [s.lstrip('.')] *)
Fixpoint lstrip_dot (s : string) : string :=
  match s with
  | String "." s' => lstrip_dot s'
  | _ => s
  end.

(** Every character of [s] is a dot. *)
Fixpoint all_dots (s : string) : bool :=
  match s with
  | EmptyString => true
  | String c s' => Ascii.eqb c "." && all_dots s'
  end.

(** [s] cut at its last dot, which goes to the second part. *)
Fixpoint rsplit_dot (s : string) : option (string * string) :=
  match s with
  | EmptyString => None
  | String c s' =>
      match rsplit_dot s' with
      | Some (b, e) => Some (String c b, e)
      | None =>
          if Ascii.eqb c "." then Some (EmptyString, s) else None
      end
  end.

(** [os.path.splitext(name)] for a name without separator: the
    extension starts at the last dot, unless only dots come before
    it. *)
Definition splitext (name : string) : string * string :=
  match rsplit_dot name with
  | Some (b, e) => if all_dots b then (name, EmptyString) else (b, e)
  | None => (name, EmptyString)
  end.

(** ["\n"] *)
Definition newline : string := String (ascii_of_nat 10) EmptyString.

(** [bool(s)] *)
Definition nonempty (s : string) : bool :=
  match s with EmptyString => false | String _ _ => true end.

(** [x in l] for strings. *)
Definition mem (x : string) (l : list string) : bool :=
  existsb (String.eqb x) l.

End PyStr.

(** ** Exceptions *)

Inductive exn_kind : Type :=
| OSError | FileExistsError | FileNotFoundError | NotADirectoryError
| IsADirectoryError | ShutilError | TypeError | ValueError | RuntimeError.

(** An exception: its class and [str(e)]. *)
Record exn : Type := Exn { exn_kind_of : exn_kind; exn_str : string }.

(** ** The file system *)

Module FS.

Inductive node : Type :=
| File (data : string)
| Dir (entries : list (string * node)).

(** A path, as its components below the working directory. *)
Definition path : Type := list string.

(** The printed form of a path. *)
Definition path_str (p : path) : string := String.concat "/" p.

Definition names (es : list (string * node)) : list string := map fst es.

Fixpoint assoc (x : string) (es : list (string * node)) : option node :=
  match es with
  | [] => None
  | (y, n) :: es' => if String.eqb x y then Some n else assoc x es'
  end.

Fixpoint del_entry (x : string) (es : list (string * node))
  : list (string * node) :=
  match es with
  | [] => []
  | (y, n) :: es' =>
      if String.eqb x y then del_entry x es' else (y, n) :: del_entry x es'
  end.

Fixpoint put_entry (x : string) (v : node) (es : list (string * node))
  : list (string * node) :=
  match es with
  | [] => [(x, v)]
  | (y, n) :: es' =>
      if String.eqb x y then (y, v) :: es' else (y, n) :: put_entry x v es'
  end.

Fixpoint get (p : path) (n : node) : option node :=
  match p with
  | [] => Some n
  | x :: p' =>
      match n with
      | File _ => None
      | Dir es =>
          match assoc x es with
          | Some c => get p' c
          | None => None
          end
      end
  end.

(** [put p v n]: [n] with [v] at [p]; directories missing on the way are
    created. *)
Fixpoint put (p : path) (v : node) (n : node) : node :=
  match p with
  | [] => v
  | x :: p' =>
      let es := match n with Dir es => es | File _ => [] end in
      let c := match assoc x es with Some c => c | None => Dir [] end in
      Dir (put_entry x (put p' v c) es)
  end.

(** [del p n]: [n] without what is at [p]. *)
Fixpoint del (p : path) (n : node) : node :=
  match p with
  | [] => n
  | x :: p' =>
      match n with
      | File _ => n
      | Dir es =>
          match p' with
          | [] => Dir (del_entry x es)
          | _ :: _ =>
              match assoc x es with
              | Some c => Dir (put_entry x (del p' c) es)
              | None => n
              end
          end
      end
  end.

Definition exists_ (p : path) (n : node) : bool :=
  match get p n with Some _ => true | None => false end.

Definition is_dir (p : path) (n : node) : bool :=
  match get p n with Some (Dir _) => true | _ => false end.

Definition is_file (p : path) (n : node) : bool :=
  match get p n with Some (File _) => true | _ => false end.

(** No file stands where [p] needs a directory: every proper prefix of
    [p] that exists is a directory. *)
Fixpoint no_file_on_way (p : path) (n : node) : bool :=
  match p with
  | [] => true
  | x :: p' =>
      match n with
      | File _ => false
      | Dir es =>
          match assoc x es with
          | Some c => no_file_on_way p' c
          | None => true
          end
      end
  end.

Fixpoint prefixb (p q : path) : bool :=
  match p, q with
  | [], _ => true
  | _ :: _, [] => false
  | x :: p', y :: q' => String.eqb x y && prefixb p' q'
  end.

(** Neither path lies at or below the other. *)
Definition unrelated (p q : path) : bool :=
  negb (prefixb p q) && negb (prefixb q p).

Definition parent (p : path) : path := removelast p.
Definition basename (p : path) : string := last p "".

Definition path_eqb (p q : path) : bool := prefixb p q && prefixb q p.

(** The working directory itself. *)
Definition is_root (p : path) : bool :=
  match p with [] => true | _ :: _ => false end.

(** No element occurs twice. *)
Fixpoint nodupb (l : list string) : bool :=
  match l with
  | [] => true
  | x :: l' => negb (existsb (String.eqb x) l') && nodupb l'
  end.

(** A name of an entry: not empty, and without the separator. *)
Definition valid_name (x : string) : bool :=
  PyStr.nonempty x && negb (PyStr.has_char "/" x).

(** A well-formed tree: in every directory the names are valid and
    unique. *)
Fixpoint wf (n : node) : bool :=
  match n with
  | File _ => true
  | Dir es =>
      forallb valid_name (names es)
      && nodupb (names es)
      && (fix all (es : list (string * node)) : bool :=
            match es with
            | [] => true
            | (_, c) :: es' => wf c && all es'
            end) es
  end.

End FS.
Import FS.

(** ** The world, and what is outside the program *)

Inductive log_level : Type := DEBUG | INFO | WARNING | ERROR.

(** What [f.write] is given: a [str], a [bytes], a [bytearray], or an
    object of another type. *)
Inductive content : Type :=
| Str (s : string)
| Bytes (b : string)
| ByteArray (b : string)
| Obj (repr : string).

(** What the program does to the outside, besides the file system. *)
Inductive event : Type :=
| EvLog (lvl : log_level) (msg : string)   (* logger.<lvl>(msg) *)
| EvSleep (seconds : Q)                    (* time.sleep(seconds) *)
| EvConvert (input_path : path)            (* converter.convert(input_path) *)
| EvExport (method : string).              (* doc.<method>() *)

(** The calls that may fail for reasons the program does not control. *)
Inductive syscall : Type :=
| SysMove (src dst : path)        (* shutil.move *)
| SysRmtree (p : path)            (* shutil.rmtree *)
| SysRemove (p : path)            (* os.remove *)
| SysMakedirs (p : path)          (* os.makedirs *)
| SysListdir (p : path)           (* os.listdir *)
| SysCopytree (src dst : path)    (* shutil.copytree *)
| SysCopy2 (src dst : path)       (* shutil.copy2 *)
| SysOpen (p : path)              (* open(p, mode) *)
| SysWrite (p : path)             (* f.write, and the close that follows *)
| SysReplace (src dst : path)     (* os.replace *)
| SysGetsize (p : path)           (* os.path.getsize *)
| SysInitConverter.               (* DocumentConverter() *)

(** What [export_method()] gives. *)
Inductive export_result : Type :=
| ExportRaises (e : exn)
| ExportNone
| ExportContent (c : content).

(** [result.document]: [doc_dir] is [dir(doc)]; [doc_method name] is
    [getattr(doc, name, None)] when it is callable, as the result of the
    call. *)
Record document : Type := Document {
  doc_dir : list string;
  doc_method : string -> option export_result
}.

(** What [converter.convert(path)] gives. *)
Inductive convert_result : Type :=
| ConvertRaises (e : exn)
| ConvertResult (doc : option document).

(** The world: the tree below the working directory, the number of calls
    made to the outside so far, and the events so far, newest first. *)
Record world : Type := World {
  fs : node;
  clock : nat;
  events : list event
}.

(** What the outside decides.  [fault c s]: the call [s] made at clock [c]
    raises, and changes nothing, except a write, of which the first
    [write_cut c] characters reach the file. *)
Record oracle : Type := Oracle {
  fault : nat -> syscall -> option exn;
  write_cut : nat -> nat;
  converter_convert : nat -> path -> convert_result;
  now_stamp_at : nat -> string;  (* strftime("%Y%m%d_%H%M%S_%f")[:-3] *)
  now_str_at : nat -> string;    (* strftime('%Y-%m-%d %H:%M:%S') *)
  time_at : nat -> Q;            (* time.time() *)
  fmt_1f : Q -> string;          (* f"{x:.1f}" *)
  str_num : Q -> string;         (* str(x) of a number *)
  repr_list : list string -> string  (* repr of a list of str *)
}.

(** ** Computations that change the world and may raise *)

Inductive outcome (A : Type) : Type :=
| Ret (a : A)
| Raise (e : exn).
Arguments Ret {A} a.
Arguments Raise {A} e.

Definition M (A : Type) : Type := world -> outcome A * world.

Definition ret {A : Type} (a : A) : M A := fun w => (Ret a, w).

Definition raise {A : Type} (e : exn) : M A := fun w => (Raise e, w).

Definition bind {A B : Type} (c : M A) (k : A -> M B) : M B :=
  fun w =>
    match c w with
    | (Ret a, w') => k a w'
    | (Raise e, w') => (Raise e, w')
    end.

(** [try: c except Exception as e: h e] *)
Definition try_except {A : Type} (c : M A) (h : exn -> M A) : M A :=
  fun w =>
    match c w with
    | (Ret a, w') => (Ret a, w')
    | (Raise e, w') => h e w'
    end.

Declare Scope M_scope.
Delimit Scope M_scope with M.
Notation "x <- c ;; k" := (bind c (fun x => k))
  (at level 100, c at next level, right associativity) : M_scope.
Notation "c ;; k" := (bind c (fun _ => k))
  (at level 100, right associativity) : M_scope.
Local Open Scope M_scope.

Definition set_fs (t : node) (w : world) : world :=
  World t (clock w) (events w).

Definition tick (w : world) : world :=
  World (fs w) (S (clock w)) (events w).

Definition emit (e : event) : M unit :=
  fun w => (Ret tt, World (fs w) (clock w) (e :: events w)).

Definition logger (lvl : log_level) (msg : string) : M unit :=
  emit (EvLog lvl msg).

(** The errors among the events. *)
Definition is_error (e : event) : bool :=
  match e with
  | EvLog ERROR _ => true
  | _ => false
  end.

Definition no_errors (l : list event) : bool :=
  forallb (fun e => negb (is_error e)) l.

(** A computation only adds to the events. *)
Definition grows {A : Type} (c : M A) : Prop :=
  forall w, exists l, events (snd (c w)) = l ++ events w.

(** A computation adds nothing to the events. *)
Definition silent {A : Type} (c : M A) : Prop :=
  forall w, events (snd (c w)) = events w.

(** A computation does not read the events: run after other events, it
    does the same and adds the same. *)
Definition forgets {A : Type} (c : M A) : Prop :=
  forall t k evs,
    c (World t k evs)
    = (fst (c (World t k [])),
       World (fs (snd (c (World t k [])))) (clock (snd (c (World t k []))))
         (events (snd (c (World t k []))) ++ evs)).

(** A computation returns only values of one kind. *)
Definition returns_only {A : Type} (P : A -> Prop) (c : M A) : Prop :=
  forall w a w', c w = (Ret a, w') -> P a.

(** A computation leaves what is at [q] in the tree. *)
Definition keeps (q : path) {A : Type} (c : M A) : Prop :=
  forall w, get q (fs (snd (c w))) = get q (fs w).

(** A computation adds to the events only events of one kind. *)
Definition adds_only (P : event -> Prop) {A : Type} (c : M A) : Prop :=
  forall w, exists l, events (snd (c w)) = l ++ events w /\ Forall P l.

(** An event that is not a conversion of the file at [p]. *)
Definition not_convert_of (p : path) (e : event) : Prop :=
  e <> EvConvert p.

(** Reading the tree. *)
Definition os_path_exists (p : path) : M bool :=
  fun w => (Ret (exists_ p (fs w)), w).

Definition os_path_isdir (p : path) : M bool :=
  fun w => (Ret (is_dir p (fs w)), w).

(** The tree holds no symbolic links. *)
Definition os_path_islink (p : path) : M bool := ret false.

(** ** Calls to the operating system *)

Section OS.

Variable O : oracle.

Definition err (k : exn_kind) (p : path) : exn := Exn k (path_str p).

(** A call that the outside may fail.  Otherwise [body] gives its result
    and the tree it leaves. *)
Definition sys {A : Type} (s : syscall) (body : node -> outcome A * node)
  : M A :=
  fun w =>
    match fault O (clock w) s with
    | Some e => (Raise e, tick w)
    | None =>
        let '(r, t) := body (fs w) in
        (r, World t (S (clock w)) (events w))
    end.

(** [os.remove(p)] *)
Definition os_remove (p : path) : M unit :=
  sys (SysRemove p) (fun t =>
    match get p t with
    | Some (File _) => (Ret tt, del p t)
    | Some (Dir _) => (Raise (err IsADirectoryError p), t)
    | None => (Raise (err FileNotFoundError p), t)
    end).

(** [shutil.rmtree(p)] *)
Definition shutil_rmtree (p : path) : M unit :=
  sys (SysRmtree p) (fun t =>
    match get p t with
    | Some (Dir _) =>
        if is_root p then (Raise (err OSError p), t) else (Ret tt, del p t)
    | Some (File _) => (Raise (err NotADirectoryError p), t)
    | None => (Raise (err FileNotFoundError p), t)
    end).

(** [os.makedirs(p, exist_ok=True)] *)
Definition os_makedirs (p : path) : M unit :=
  sys (SysMakedirs p) (fun t =>
    if is_dir p t then (Ret tt, t)
    else if exists_ p t then (Raise (err FileExistsError p), t)
    else if no_file_on_way p t then (Ret tt, put p (Dir []) t)
    else (Raise (err NotADirectoryError p), t)).

(** [os.listdir(p)] *)
Definition os_listdir (p : path) : M (list string) :=
  sys (SysListdir p) (fun t =>
    match get p t with
    | Some (Dir es) => (Ret (names es), t)
    | Some (File _) => (Raise (err NotADirectoryError p), t)
    | None => (Raise (err FileNotFoundError p), t)
    end).

(** [shutil.copytree(src, dst, copy_function=shutil.copy2)] *)
Definition shutil_copytree (src dst : path) : M unit :=
  sys (SysCopytree src dst) (fun t =>
    match get src t with
    | Some (Dir es) =>
        if exists_ dst t then (Raise (err FileExistsError dst), t)
        else if no_file_on_way dst t then (Ret tt, put dst (Dir es) t)
        else (Raise (err NotADirectoryError dst), t)
    | Some (File _) => (Raise (err NotADirectoryError src), t)
    | None => (Raise (err FileNotFoundError src), t)
    end).

(** [shutil.copy2(src, dst)] *)
Definition shutil_copy2 (src dst : path) : M unit :=
  sys (SysCopy2 src dst) (fun t =>
    match get src t with
    | Some (File d) =>
        let real_dst :=
          if is_dir dst t then dst ++ [basename src] else dst in
        if is_dir real_dst t then (Raise (err IsADirectoryError real_dst), t)
        else if is_dir (parent real_dst) t
             then (Ret tt, put real_dst (File d) t)
             else (Raise (err FileNotFoundError real_dst), t)
    | Some (Dir _) => (Raise (err IsADirectoryError src), t)
    | None => (Raise (err FileNotFoundError src), t)
    end).

(** [shutil.move(src, dst)], which gives the path moved to: into [dst]
    when that is a directory, else onto [dst], by a rename or, where the
    rename is refused, by a copy and a removal. *)
Definition shutil_move (src dst : path) : M path :=
  sys (SysMove src dst) (fun t =>
    match get src t with
    | None => (Raise (err FileNotFoundError src), t)
    | Some n =>
        if path_eqb src dst then (Ret dst, t)
        else
          let real_dst :=
            if is_dir dst t then dst ++ [basename src] else dst in
          if is_dir dst t && exists_ real_dst t
          then (Raise (err ShutilError real_dst), t)
          else if prefixb src real_dst
          then (Raise (err ShutilError src), t)
          else
            match n with
            | Dir _ =>
                if exists_ real_dst t
                then (Raise (err FileExistsError real_dst), t)
                else if no_file_on_way real_dst t
                then (Ret real_dst, put real_dst n (del src t))
                else (Raise (err NotADirectoryError real_dst), t)
            | File _ =>
                if is_dir (parent real_dst) t
                then (Ret real_dst, put real_dst n (del src t))
                else (Raise (err FileNotFoundError real_dst), t)
            end
    end).

(** [os.replace(src, dst)]: one step, all or nothing. *)
Definition os_replace (src dst : path) : M unit :=
  sys (SysReplace src dst) (fun t =>
    match get src t with
    | None => (Raise (err FileNotFoundError src), t)
    | Some n =>
        if path_eqb src dst then (Ret tt, t)
        else if negb (is_dir (parent dst) t)
        then (Raise (err FileNotFoundError dst), t)
        else
          match n, get dst t with
          | File _, Some (Dir _) => (Raise (err IsADirectoryError dst), t)
          | Dir _, Some (File _) => (Raise (err NotADirectoryError dst), t)
          | Dir _, Some (Dir (_ :: _)) => (Raise (err OSError dst), t)
          | _, _ =>
              if prefixb src dst then (Raise (err OSError dst), t)
              else (Ret tt, put dst n (del src t))
          end
    end).

(** [open(p, mode)] for writing: the file is created, or emptied. *)
Definition open_write (p : path) : M unit :=
  sys (SysOpen p) (fun t =>
    if is_dir p t then (Raise (err IsADirectoryError p), t)
    else if is_dir (parent p) t then (Ret tt, put p (File "") t)
    else (Raise (err FileNotFoundError p), t)).

(** What [f.write(c)] sends to a file opened in [mode], if it accepts
    [c] at all. *)
Definition payload (binary : bool) (c : content) : option string :=
  match c, binary with
  | Str s, false => Some s
  | Bytes b, true | ByteArray b, true => Some b
  | _, _ => None
  end.

(** [f.write(c)] and the close at the end of the [with] block.  When it
    fails, a part of [c] may have reached the file. *)
Definition file_write (p : path) (binary : bool) (c : content) : M unit :=
  fun w =>
    match payload binary c with
    | None => (Raise (Exn TypeError "write() argument"), w)
    | Some data =>
        match fault O (clock w) (SysWrite p) with
        | Some e =>
            let part := substring 0 (write_cut O (clock w)) data in
            (Raise e,
             World (put p (File part) (fs w)) (S (clock w)) (events w))
        | None =>
            (Ret tt,
             World (put p (File data) (fs w)) (S (clock w)) (events w))
        end
    end.

(** [datetime.now()] formatted by [now_stamp]. *)
Definition now_stamp : M string :=
  fun w => (Ret (now_stamp_at O (clock w)), tick w).

(** [ensure_dir] *)
Definition ensure_dir (p : path) : M unit := os_makedirs p.

End OS.

(** ** Directory operations *)

Section Directories.

Variable O : oracle.

(** One turn of the loop of [move_contents]; [true] when the entry was
    moved and counted. *)
Definition move_entry (src_dir dst_dir : path)
    (overwrite preserve_metadata : bool) (entry : string) : M bool :=
  let src_path := src_dir ++ [entry] in
  let dst_path := dst_dir ++ [entry] in
  try_except
    (dst_exists <- os_path_exists dst_path ;;
     if dst_exists && negb overwrite then ret false
     else
       (if dst_exists then
          isd <- os_path_isdir dst_path ;;
          isl <- os_path_islink dst_path ;;
          if isd && negb isl then shutil_rmtree O dst_path
          else os_remove O dst_path
        else ret tt) ;;
       (if preserve_metadata then
          isd <- os_path_isdir src_path ;;
          if isd then
            shutil_copytree O src_path dst_path ;;
            shutil_rmtree O src_path
          else
            shutil_copy2 O src_path dst_path ;;
            os_remove O src_path
        else
          _ <- shutil_move O src_path dst_path ;; ret tt) ;;
       ret true)
    (fun e =>
       logger ERROR ("Failed to move " ++ path_str src_path ++ " to "
                     ++ path_str dst_path ++ ": " ++ exn_str e) ;;
       ret false).

(** The loop of [move_contents] over the listing taken at its start. *)
Fixpoint move_entries (src_dir dst_dir : path)
    (overwrite preserve_metadata : bool) (entries : list string)
    (moved_count : Z) : M Z :=
  match entries with
  | [] => ret moved_count
  | entry :: rest =>
      moved <- move_entry src_dir dst_dir overwrite preserve_metadata entry ;;
      move_entries src_dir dst_dir overwrite preserve_metadata rest
        (if moved then moved_count + 1 else moved_count)%Z
  end.

(** [move_contents] *)
Definition move_contents (src_dir dst_dir : path)
    (overwrite preserve_metadata : bool) : M Z :=
  src_exists <- os_path_exists src_dir ;;
  if negb src_exists then ret 0%Z
  else
    ensure_dir O dst_dir ;;
    entries <- os_listdir O src_dir ;;
    move_entries src_dir dst_dir overwrite preserve_metadata entries 0%Z.

(** The temporary sibling of [p]: [.<basename>.tmp] in its directory. *)
Definition tmp_path_of (p : path) : path :=
  parent p ++ ["." ++ basename p ++ ".tmp"]%string.

(** The mode of the write: the one given, [true] for ["wb"] and [false]
    for ["w"], else ["wb"] for [bytes] and [bytearray] and ["w"] for
    anything else. *)
Definition binary_mode (mode : option bool) (c : content) : bool :=
  match mode with
  | Some b => b
  | None =>
      match c with Bytes _ | ByteArray _ => true | _ => false end
  end.

(** The [try] block of [atomic_write]. *)
Definition atomic_write_try (p : path) (c : content) (mode : option bool)
  : M unit :=
  open_write O (tmp_path_of p) ;;
  file_write O (tmp_path_of p) (binary_mode mode c) c ;;
  os_replace O (tmp_path_of p) p.

(** The [except] block of [atomic_write]: "Clean up temp file on
    failure". *)
Definition atomic_write_cleanup (p : path) (e : exn) : M unit :=
  tmp_exists <- os_path_exists (tmp_path_of p) ;;
  (if tmp_exists
   then try_except (os_remove O (tmp_path_of p)) (fun _ => ret tt)
   else ret tt) ;;
  raise e.

(** [atomic_write] *)
Definition atomic_write (p : path) (c : content) (mode : option bool)
  : M unit :=
  try_except (atomic_write_try p c mode) (atomic_write_cleanup p).

(** The [try] block of [atomic_write] cut short after none, one, two or
    all three of its calls: where a kill can leave the writer. *)
Definition atomic_write_prefixes (p : path) (c : content)
    (mode : option bool) : list (M unit) :=
  [ ret tt;
    open_write O (tmp_path_of p);
    (open_write O (tmp_path_of p) ;;
     file_write O (tmp_path_of p) (binary_mode mode c) c);
    atomic_write_try p c mode ].

(** [snapshot_directory]; the snapshot goes to [./<prefix>_<stamp>]. *)
Definition snapshot_directory (src_dir : path) (prefix : string)
  : M path :=
  stamp <- now_stamp O ;;
  let dest_dir := [prefix ++ "_" ++ stamp]%string in
  try_except
    (src_exists <- os_path_exists src_dir ;;
     (if src_exists then shutil_copytree O src_dir dest_dir
      else os_makedirs O dest_dir) ;;
     ret dest_dir)
    (fun e =>
       match exn_kind_of e with
       | FileExistsError =>
           let alt := [prefix ++ "_" ++ stamp ++ "_1"]%string in
           shutil_copytree O src_dir alt ;;
           logger WARNING ("Snapshot destination existed; used "
                           ++ path_str alt ++ " instead") ;;
           ret alt
       | _ => raise e
       end).

(** Where step 1 of the rotation sends the old inputs. *)
Definition old_inputs_path_of (stamp : string) : path :=
  ["inputs_old_" ++ stamp]%string.

(** In step 1, what follows a failed move: "Best effort: try to
    clear". *)
Definition rotate_clear (inputs_dir : path) : M unit :=
  isd <- os_path_isdir inputs_dir ;;
  if isd
  then try_except (shutil_rmtree O inputs_dir) (fun _ => ret tt)
  else ret tt.

(** Step 1 of [rotate_inputs]: rotate the old inputs away. *)
Definition rotate_step1 (inputs_dir : path) (stamp : string) : M string :=
  inputs_exists <- os_path_exists inputs_dir ;;
  if inputs_exists then
    let old_inputs_path := old_inputs_path_of stamp in
    try_except
      (_ <- shutil_move O inputs_dir old_inputs_path ;; ret tt)
      (fun e =>
         logger ERROR ("Failed to rotate " ++ path_str inputs_dir ++ " to "
                       ++ path_str old_inputs_path ++ ": " ++ exn_str e) ;;
         rotate_clear inputs_dir) ;;
    ret ("./" ++ path_str old_inputs_path)%string
  else ret ""%string.

(** Step 2 of [rotate_inputs]: have an [inputs] directory again. *)
Definition rotate_step2 (inputs_dir : path) : M unit :=
  ensure_dir O inputs_dir ;;
  isd <- os_path_isdir inputs_dir ;;
  if negb isd then
    inputs_exists <- os_path_exists inputs_dir ;;
    (if inputs_exists then os_remove O inputs_dir else ret tt) ;;
    ensure_dir O inputs_dir
  else ret tt.

(** The first half of [rotate_inputs]: steps 1 and 2. *)
Definition rotate_steps12 (inputs_dir : path) : M string :=
  stamp <- now_stamp O ;;
  old_inputs_path <- rotate_step1 inputs_dir stamp ;;
  rotate_step2 inputs_dir ;;
  ret old_inputs_path.

(** [rotate_inputs]: steps 1 and 2, then queue to staging (step 3) and
    staging to inputs (step 4). *)
Definition rotate_inputs
    (inputs_dir inputs_queue_dir inputs_staging_dir : path)
  : M (string * Z * Z) :=
  old_inputs_path <- rotate_steps12 inputs_dir ;;
  queue_count <-
    move_contents inputs_queue_dir inputs_staging_dir true true ;;
  staging_count <-
    move_contents inputs_staging_dir inputs_dir true true ;;
  ret (old_inputs_path, queue_count, staging_count).

End Directories.

(** The directory of [output_path] is there and its temporary sibling is
    not. *)
Definition write_blocked (output_path : path) (w : world) : Prop :=
  is_dir (parent output_path) (fs w) = true
  /\ get (tmp_path_of output_path) (fs w) = None.

(** The per-entry errors of [move_contents] among the events. *)
Definition is_move_error (e : event) : bool :=
  match e with
  | EvLog ERROR msg => String.prefix "Failed to move " msg
  | _ => false
  end.

Definition no_move_errors (l : list event) : bool :=
  forallb (fun e => negb (is_move_error e)) l.

(** The calls to the converter, and the sleeps, among the events. *)
Definition is_convert (e : event) : bool :=
  match e with EvConvert _ => true | _ => false end.

Definition is_sleep (e : event) : bool :=
  match e with EvSleep _ => true | _ => false end.

Definition count_converts (l : list event) : nat :=
  List.length (filter is_convert l).

Definition count_sleeps (l : list event) : nat :=
  List.length (filter is_sleep l).

(** A computation adds at most [nc] conversions and [ns] sleeps to the
    events. *)
Definition costs (nc ns : nat) {A : Type} (c : M A) : Prop :=
  forall w, exists l,
    events (snd (c w)) = l ++ events w
    /\ (count_converts l <= nc)%nat /\ (count_sleeps l <= ns)%nat.

(** No path of the list lies at or below another. *)
Fixpoint pairwise_unrelated (l : list path) : bool :=
  match l with
  | [] => true
  | p :: l' => forallb (unrelated p) l' && pairwise_unrelated l'
  end.

(** ** Sample oracles *)

(** An outside where the calls listed by [failing] fail, whenever they are
      made, and all others go through. *)
Definition oracle_failing (failing : syscall -> bool)
    (convert : nat -> path -> convert_result) : oracle :=
  {| fault := fun _ s =>
       if failing s then Some (Exn OSError "Permission denied") else None;
     write_cut := fun _ => 2%nat;
     converter_convert := convert;
     now_stamp_at := fun _ => "20240101_120000_000";
     now_str_at := fun _ => "2024-01-01 12:00:00";
     time_at := fun c => inject_Z (Z.of_nat c);
     fmt_1f := fun _ => "0.0";
     str_num := fun _ => "0";
     repr_list := String.concat ", " |}.

(** An outside where nothing fails. *)
Definition oracle_quiet : oracle :=
  oracle_failing (fun _ => false) (fun _ _ => ConvertResult None).

(** An outside where no move (rename) goes through. *)
Definition oracle_no_rename : oracle :=
  oracle_failing
    (fun s => match s with SysMove _ _ => true | _ => false end)
    (fun _ _ => ConvertResult None).

(** An outside where no move (rename) goes through and [inputs] cannot be
    deleted either. *)
Definition oracle_no_rename_no_delete : oracle :=
  oracle_failing
    (fun s =>
       match s with
       | SysMove _ _ => true
       | SysRmtree p => path_eqb p ["inputs"]
       | _ => false
       end)
    (fun _ _ => ConvertResult None).

(** A working directory before a run: one old input, two queued entries,
    one entry left in staging. *)
Definition sample_tree : node :=
  Dir [ ("inputs", Dir [("old.pdf", File "old")]);
        ("inputs_queue",
         Dir [("a.pdf", File "aa"); ("sub", Dir [("b.pdf", File "bbb")])]);
        ("inputs_staging", Dir [("c.pdf", File "c")]) ].

Definition sample_world : world := World sample_tree 0 [].

(** An outside where a write stops short and no file can be removed. *)
Definition oracle_short_write_no_remove : oracle :=
  oracle_failing
    (fun s =>
       match s with
       | SysWrite _ => true
       | SysRemove _ => true
       | _ => false
       end)
    (fun _ _ => ConvertResult None).

(** ** File discovery *)

(** [name] has the extension [ext]: [ext] follows the last dot, and what
    precedes that dot is not made of dots only. *)
Definition has_extension (name ext : string) : Prop :=
  exists stem,
    name = (stem ++ "." ++ ext)%string
    /\ PyStr.has_char "." ext = false
    /\ PyStr.all_dots stem = false.

(** The extension of [name], case set aside, is one of [allowed_types]. *)
Definition qualifies (allowed_types : list string) (name : string) : Prop :=
  exists ext,
    has_extension name ext
    /\ In (PyStr.lower ext) (map PyStr.lower allowed_types).

(** The text after the first component of a printed path. *)
Definition path_tail_str (p : path) : string :=
  match p with
  | [] => EmptyString
  | _ :: _ => String "/" (path_str p)
  end.

(** The order of the sort: the keys are in the order of [str]. *)
Definition key_le {A : Type} (key : A -> string) (x y : A) : Prop :=
  String.leb (key x) (key y) = true.

(** What discovery is to return from the tree [t]: the pairs of the
    absolute and the relative path of the files below [input_dir] whose
    name qualifies. *)
Definition is_discovered (input_dir : path) (allowed_types : list string)
    (t : node) (x : path * path) : Prop :=
  snd x <> []
  /\ fst x = input_dir ++ snd x
  /\ is_file (fst x) t = true
  /\ qualifies allowed_types (basename (snd x)).

(** The key of the sort: the printed relative path. *)
Definition rel_key (x : path * path) : string := path_str (snd x).


(** [sorted(l, key=key)]: a stable sort for the order of [str]. *)
Fixpoint insert_by {A : Type} (key : A -> string) (x : A) (l : list A)
  : list A :=
  match l with
  | [] => [x]
  | y :: l' =>
      if String.leb (key x) (key y) then x :: l else y :: insert_by key x l'
  end.

Fixpoint sorted_by {A : Type} (key : A -> string) (l : list A) : list A :=
  match l with
  | [] => []
  | x :: l' => insert_by key x (sorted_by key l')
  end.

(** The names of the entries that are files, in listing order. *)
Fixpoint filenames (es : list (string * node)) : list string :=
  match es with
  | [] => []
  | (x, File _) :: es' => x :: filenames es'
  | (_, Dir _) :: es' => filenames es'
  end.

(** [os.walk(root)], top down, of which the program reads the roots and
    the file names: first the directory itself, then, in listing order,
    each of its subdirectories. *)
Fixpoint os_walk (root : path) (n : node) {struct n}
  : list (path * list string) :=
  match n with
  | File _ => []
  | Dir es =>
      (root, filenames es)
      :: (fix walk_entries (es : list (string * node))
            : list (path * list string) :=
            match es with
            | [] => []
            | (x, c) :: es' => os_walk (root ++ [x]) c ++ walk_entries es'
            end) es
  end.

(** The test of [list_input_files] on one file name. *)
Definition allowed_name (allowed : list string) (name : string) : bool :=
  let ext := snd (PyStr.splitext name) in
  if PyStr.nonempty ext
  then PyStr.mem (PyStr.lstrip_dot (PyStr.lower ext)) allowed
  else false.

(** [abs_path_obj.relative_to(input_root)] *)
Definition relative_to (abs_path input_root : path) : path :=
  skipn (List.length input_root) abs_path.

(** The two loops of [list_input_files] over the walk. *)
Definition collect_files (input_dir : path) (allowed : list string)
    (walk : list (path * list string)) : list (path * path) :=
  flat_map
    (fun '(root, names) =>
       flat_map
         (fun name =>
            let full_path := root ++ [name] in
            if allowed_name allowed name
            then [(full_path, relative_to full_path input_dir)]
            else [])
         names)
    walk.

(** [list_input_files]: the pairs of the absolute path and the path
    relative to [input_dir], sorted by the printed relative path. *)
Definition list_input_files (input_dir : path) (allowed_types : list string)
  : M (list (path * path)) :=
  fun w =>
    match get input_dir (fs w) with
    | None =>
        (Ret [],
         World (fs w) (clock w)
           (EvLog WARNING
              ("Input directory does not exist: " ++ path_str input_dir)
            :: events w))
    | Some n =>
        let allowed := map PyStr.lower allowed_types in
        let files := collect_files input_dir allowed (os_walk input_dir n) in
        (Ret (sorted_by rel_key files), w)
    end.

(** A document that exports as markdown only. *)
Definition sample_document : document :=
  {| doc_dir := ["export_to_markdown"; "name"];
     doc_method := fun name =>
       if String.eqb name "export_to_markdown"
       then Some (ExportContent (Str "# Title"))
       else None |}.

(** An outside where every conversion goes through and no file can be
    opened for writing. *)
Definition oracle_no_open : oracle :=
  oracle_failing
    (fun s => match s with SysOpen _ => true | _ => false end)
    (fun _ _ => ConvertResult (Some sample_document)).

(** An outside where every conversion goes through and no temporary
    file can be put in the place of its destination. *)
Definition oracle_no_replace : oracle :=
  oracle_failing
    (fun s => match s with SysReplace _ _ => true | _ => false end)
    (fun _ _ => ConvertResult (Some sample_document)).

(** An outside where every conversion goes through and no size can be
    read. *)
Definition oracle_no_getsize : oracle :=
  oracle_failing
    (fun s => match s with SysGetsize _ => true | _ => false end)
    (fun _ _ => ConvertResult (Some sample_document)).

(** An outside where every conversion and every call go through. *)
Definition oracle_converting : oracle :=
  oracle_failing (fun _ => false)
    (fun _ _ => ConvertResult (Some sample_document)).

(** A working directory in the middle of a run: one input, no output
    yet. *)
Definition sample_world_converting : world :=
  World (Dir [ ("inputs", Dir [("a.pdf", File "aa")]); ("outputs", Dir []) ])
    0 [].

(** ** Configuration and constants *)

(** [EXPORT_METHODS]: the registry of output formats, in source order. *)
Definition EXPORT_METHODS : list (string * string) :=
  [ ("pdf", "export_to_pdf");
    ("docx", "export_to_docx");
    ("txt", "export_to_text");
    ("md", "export_to_markdown");
    ("html", "export_to_html") ].

(** [d.get(k)] on a dict given by its items. *)
Fixpoint dict_get (k : string) (d : list (string * string)) : option string :=
  match d with
  | [] => None
  | (k', v) :: d' => if String.eqb k k' then Some v else dict_get k d'
  end.

(** [EXPORT_METHODS.keys()] *)
Definition EXPORT_METHODS_keys : list string := map fst EXPORT_METHODS.

(** The resolved configuration: [DEFAULT_CONFIG] merged with the file and
    the command line. *)
Record config : Type := Config {
  input_types : list string;
  output_types : list string;
  max_file_size_mb : Q;
  retry_attempts : Z;
  retry_delay_seconds : Q;
  dir_inputs : path;
  dir_outputs : path;
  dir_inputs_queue : path;
  dir_inputs_staging : path
}.

Definition DEFAULT_CONFIG : config :=
  {| input_types := ["pdf"];
     output_types := ["md"];
     max_file_size_mb := 100;
     retry_attempts := 2;
     retry_delay_seconds := 1;
     dir_inputs := ["inputs"];
     dir_outputs := ["outputs"];
     dir_inputs_queue := ["inputs_queue"];
     dir_inputs_staging := ["inputs_staging"] |}.

(** [set(l1) == set(l2)] *)
Definition set_eqb (l1 l2 : list string) : bool :=
  forallb (fun x => PyStr.mem x l2) l1 && forallb (fun x => PyStr.mem x l1) l2.

(** [set(l1) - set(l2)], as the list of the elements left. *)
Definition set_diff (l1 l2 : list string) : list string :=
  filter (fun x => negb (PyStr.mem x l2)) l1.

(** [validate_config] *)
Definition validate_config (cfg : config) : M unit :=
  match input_types cfg, output_types cfg with
  | [], _ | _, [] =>
      raise (Exn ValueError "Input and output types must not be empty.")
  | _, _ =>
      if set_eqb (input_types cfg) (output_types cfg)
      then raise (Exn ValueError
                    "Input types cannot be identical to output types.")
      else
        match set_diff (input_types cfg) EXPORT_METHODS_keys,
              set_diff (output_types cfg) EXPORT_METHODS_keys with
        | _ :: _, _ => raise (Exn ValueError "Unsupported input types")
        | [], _ :: _ => raise (Exn ValueError "Unsupported output types")
        | [], [] =>
            if Qle_bool (max_file_size_mb cfg) 0
            then raise (Exn ValueError "max_file_size_mb must be positive")
            else ret tt
        end
  end.

(** ** Document conversion: output naming *)

(** [generate_output_filename]:
    [f"{input_filename}_from_{input_ext}.{output_ext}"]. *)
Definition generate_output_filename
    (input_filename input_ext output_ext : string) : string :=
  (input_filename ++ "_from_" ++ input_ext ++ "." ++ output_ext)%string.

(** ** Sizes and durations *)

Section Pipeline.

Variable O : oracle.

(** [s * n] *)
Fixpoint str_mul (s : string) (n : nat) : string :=
  match n with
  | 0%nat => EmptyString
  | S n' => (s ++ str_mul s n')%string
  end.

(** [str(n)] of an [int]. *)
Definition str_int (n : Z) : string := str_num O (inject_Z n).

(** The loop of [format_bytes]. *)
Fixpoint format_bytes_loop (units : list string) (bytes_size : Q)
  : string :=
  match units with
  | [] => (fmt_1f O bytes_size ++ "TB")%string
  | unit :: units' =>
      if negb (Qle_bool 1024 bytes_size)
      then (fmt_1f O bytes_size ++ unit)%string
      else format_bytes_loop units' (bytes_size / 1024)
  end.

(** [format_bytes] *)
Definition format_bytes (bytes_size : Z) : string :=
  format_bytes_loop ["B"; "KB"; "MB"; "GB"] (inject_Z bytes_size).

(** [format_duration] *)
Definition format_duration (seconds : Q) : string :=
  if negb (Qle_bool 60 seconds) then (fmt_1f O seconds ++ "s")%string
  else if negb (Qle_bool 3600 seconds) then
    let minutes := Qfloor (seconds / 60) in
    let secs := seconds - 60 * inject_Z minutes in
    (str_int minutes ++ "m " ++ fmt_1f O secs ++ "s")%string
  else
    let hours := Qfloor (seconds / 3600) in
    let minutes :=
      Qfloor ((seconds - 3600 * inject_Z hours) / 60) in
    (str_int hours ++ "h " ++ str_int minutes ++ "m")%string.

(** [get_file_size] *)
Definition get_file_size (filepath : path) : M Z :=
  try_except
    (sys O (SysGetsize filepath) (fun t =>
       match get filepath t with
       | Some (File data) => (Ret (Z.of_nat (String.length data)), t)
       | Some (Dir _) => (Ret 0%Z, t)
       | None => (Raise (err FileNotFoundError filepath), t)
       end))
    (fun e =>
       logger WARNING ("Could not get size of " ++ path_str filepath
                       ++ ": " ++ exn_str e) ;;
       ret 0%Z).

(** [size_mb > max_size_mb], for [size_mb = size_bytes / (1024 * 1024)]. *)
Definition exceeds (size_bytes : Z) (max_size_mb : Q) : bool :=
  negb (Qle_bool (inject_Z size_bytes / inject_Z (1024 * 1024))
          max_size_mb).

(** The message of [check_file_size] for a file over the limit. *)
Definition size_exceeded_msg (size_bytes : Z) (max_size_mb : Q) : string :=
  ("File size " ++ format_bytes size_bytes ++ " exceeds limit of "
   ++ str_num O max_size_mb ++ "MB")%string.

(** [check_file_size]; nothing in its [try] block raises. *)
Definition check_file_size (filepath : path) (max_size_mb : Q)
  : M (bool * string) :=
  size_bytes <- get_file_size filepath ;;
  if exceeds size_bytes max_size_mb
  then ret (false, size_exceeded_msg size_bytes max_size_mb)
  else ret (true, ("Size: " ++ format_bytes size_bytes)%string).

(** ** Document conversion *)

(** [time.sleep(seconds)] *)
Definition time_sleep (seconds : Q) : M unit :=
  if negb (Qle_bool 0 seconds)
  then raise (Exn ValueError "sleep length must be non-negative")
  else emit (EvSleep seconds).

(** [converter.convert(input_path)], then [getattr(result, "document",
    None)]. *)
Definition converter_document (input_path : path)
  : M (option document) :=
  fun w =>
    let w1 := World (fs w) (S (clock w))
                (EvConvert input_path :: events w) in
    match converter_convert O (clock w) input_path with
    | ConvertRaises e => (Raise e, w1)
    | ConvertResult doc => (Ret doc, w1)
    end.

(** [export_method()] *)
Definition call_export (name : string) (res : export_result)
  : M (option content) :=
  emit (EvExport name) ;;
  match res with
  | ExportRaises e => raise e
  | ExportNone => ret None
  | ExportContent c => ret (Some c)
  end.

(** [isinstance(c, (str, bytes)) and len(c) == 0] *)
Definition empty_content (c : content) : bool :=
  match c with
  | Str s | Bytes s => negb (PyStr.nonempty s)
  | ByteArray _ | Obj _ => false
  end.

(** The [try] block of [convert_document], for one attempt. *)
Definition convert_try (input_path output_path : path)
    (output_ext : string) (attempt retry_attempts : Z) (retry_delay : Q)
  : M (bool * string) :=
  (if (0 <? attempt)%Z then
     logger INFO ("Retry attempt " ++ str_int attempt ++ "/"
                  ++ str_int retry_attempts ++ " for "
                  ++ path_str input_path) ;;
     time_sleep retry_delay
   else ret tt) ;;
  doc <- converter_document input_path ;;
  match doc with
  | None => ret (false, "Conversion result has no 'document' attribute")
  | Some doc =>
      match dict_get output_ext EXPORT_METHODS with
      | None =>
          ret (false, ("No export method mapping for output type: "
                       ++ output_ext)%string)
      | Some export_method_name =>
          match doc_method doc export_method_name with
          | None =>
              let available :=
                filter (String.prefix "export_to_") (doc_dir doc) in
              ret (false, ("Document missing method '"
                           ++ export_method_name ++ "'. Available: "
                           ++ repr_list O available)%string)
          | Some export_method =>
              exported_content <-
                call_export export_method_name export_method ;;
              match exported_content with
              | None => ret (false, "Export method returned None")
              | Some c =>
                  if empty_content c
                  then ret (false, "Export method returned empty content")
                  else
                    os_makedirs O (parent output_path) ;;
                    atomic_write O output_path c None ;;
                    ret (true, "Success")
              end
          end
      end
  end.

(** The [except] block of [convert_document]: [None] to go on with the
    next attempt, else what is returned. *)
Definition convert_except (attempt retry_attempts : Z) (e : exn)
  : M (option (bool * string)) :=
  let error_msg := ("Conversion error: " ++ exn_str e)%string in
  if (attempt <? retry_attempts)%Z then
    logger WARNING (error_msg ++ " (will retry)") ;;
    ret None
  else
    logger ERROR (error_msg ++ " (max retries reached)") ;;
    ret (Some (false, error_msg)).

(** The loop of [convert_document], with [n] attempts left. *)
Fixpoint convert_loop (n : nat) (input_path output_path : path)
    (output_ext : string) (attempt retry_attempts : Z) (retry_delay : Q)
  : M (bool * string) :=
  match n with
  | 0%nat => ret (false, "Max retries reached")
  | S n' =>
      r <- try_except
             (res <- convert_try input_path output_path output_ext
                       attempt retry_attempts retry_delay ;;
              ret (Some res))
             (convert_except attempt retry_attempts) ;;
      match r with
      | Some res => ret res
      | None =>
          convert_loop n' input_path output_path output_ext
            (attempt + 1) retry_attempts retry_delay
      end
  end.

(** [convert_document]: [for attempt in range(retry_attempts + 1)]. *)
Definition convert_document (input_path output_path : path)
    (output_ext : string) (retry_attempts : Z) (retry_delay : Q)
  : M (bool * string) :=
  convert_loop (Z.to_nat (retry_attempts + 1)) input_path output_path
    output_ext 0 retry_attempts retry_delay.

(** ** Run statistics *)

(** [ConversionStats] *)
Record ConversionStats : Type := Stats {
  total_files : Z;
  successful : Z;
  failed : Z;
  skipped : Z;
  total_size_bytes : Z;
  failed_files : list (string * string);
  start_time : Q
}.

(** [ConversionStats()] *)
Definition ConversionStats_init : M ConversionStats :=
  fun w => (Ret (Stats 0 0 0 0 0 [] (time_at O (clock w))), tick w).

Definition set_total_files (n : Z) (st : ConversionStats)
  : ConversionStats :=
  Stats n (successful st) (failed st) (skipped st) (total_size_bytes st)
    (failed_files st) (start_time st).

(** [add_success] *)
Definition add_success (st : ConversionStats) (size_bytes : Z)
  : ConversionStats :=
  Stats (total_files st) (successful st + 1) (failed st) (skipped st)
    (total_size_bytes st + size_bytes) (failed_files st) (start_time st).

(** [add_failure] *)
Definition add_failure (st : ConversionStats) (filepath reason : string)
  : ConversionStats :=
  Stats (total_files st) (successful st) (failed st + 1) (skipped st)
    (total_size_bytes st) (failed_files st ++ [(filepath, reason)])
    (start_time st).

(** [add_skip] *)
Definition add_skip (st : ConversionStats) : ConversionStats :=
  Stats (total_files st) (successful st) (failed st) (skipped st + 1)
    (total_size_bytes st) (failed_files st) (start_time st).

(** [elapsed_time] *)
Definition elapsed_time (st : ConversionStats) : M Q :=
  fun w => (Ret (time_at O (clock w) - start_time st), tick w).

(** ["=" * 70] *)
Definition banner : string := str_mul "=" 70.

(** [summary] *)
Definition summary (st : ConversionStats) : M (list string) :=
  elapsed <- elapsed_time st ;;
  ret ([ banner;
         "CONVERSION STATISTICS";
         banner;
         "Total files discovered: " ++ str_int (total_files st);
         "Successful conversions: " ++ str_int (successful st);
         "Failed conversions: " ++ str_int (failed st);
         "Skipped (same type): " ++ str_int (skipped st);
         "Total data processed: " ++ format_bytes (total_size_bytes st);
         "Total runtime: " ++ format_duration elapsed ]%string
       ++ (match failed_files st with
           | [] => []
           | _ :: _ =>
               [""; "Failed Files:"]
               ++ map (fun '(filepath, reason) =>
                         ("  - " ++ filepath ++ ": " ++ reason)%string)
                    (failed_files st)
           end)
       ++ [banner]).

(** ** The processing pipeline *)

(** The body of the inner loop of [process_conversions]: one output
    type for one file.  The state is the statistics and the report. *)
Definition convert_to (cfg : config) (dry_run : bool)
    (input_abs_path input_rel_path : path)
    (st : ConversionStats * list string) (output_ext : string)
  : M (ConversionStats * list string) :=
  let '(stats, run_report) := st in
  let input_filename_no_ext :=
    fst (PyStr.splitext (basename input_rel_path)) in
  let input_ext :=
    PyStr.lstrip_dot
      (PyStr.lower (snd (PyStr.splitext (basename input_rel_path)))) in
  let rel_dir := parent input_rel_path in
  if String.eqb output_ext input_ext then ret (add_skip stats, run_report)
  else
    let output_filename :=
      generate_output_filename input_filename_no_ext input_ext output_ext in
    let output_path :=
      match rel_dir with
      | _ :: _ => dir_outputs cfg ++ rel_dir ++ [output_filename]
      | [] => dir_outputs cfg ++ [output_filename]
      end in
    if dry_run then
      ret (add_success stats 0,
           run_report
           ++ [("[DRY RUN] " ++ path_str input_rel_path ++ " -> "
                ++ path_str output_path)%string])
    else
      res <- convert_document input_abs_path output_path output_ext
               (retry_attempts cfg) (retry_delay_seconds cfg) ;;
      let '(success, message) := res in
      if success then
        file_size <- get_file_size input_abs_path ;;
        ret (add_success stats file_size,
             run_report
             ++ [("SUCCESS: " ++ path_str input_rel_path ++ " -> "
                  ++ path_str output_path)%string])
      else
        logger ERROR ("  ✗ Failed: " ++ message) ;;
        ret (add_failure stats (path_str input_rel_path) message,
             run_report
             ++ [("FAILED: " ++ path_str input_rel_path ++ " -> "
                  ++ path_str output_path ++ " (" ++ message ++ ")")%string]).

(** [for output_ext in output_types] *)
Fixpoint convert_to_each (cfg : config) (dry_run : bool)
    (input_abs_path input_rel_path : path) (exts : list string)
    (st : ConversionStats * list string)
  : M (ConversionStats * list string) :=
  match exts with
  | [] => ret st
  | output_ext :: exts' =>
      st' <- convert_to cfg dry_run input_abs_path input_rel_path st
               output_ext ;;
      convert_to_each cfg dry_run input_abs_path input_rel_path exts' st'
  end.

(** The body of the outer loop of [process_conversions]: one discovered
    file. *)
Definition process_file (cfg : config) (dry_run : bool)
    (st : ConversionStats * list string) (file : path * path)
  : M (ConversionStats * list string) :=
  let '(stats, run_report) := st in
  let '(input_abs_path, input_rel_path) := file in
  chk <- check_file_size input_abs_path (max_file_size_mb cfg) ;;
  let '(is_valid, size_msg) := chk in
  if negb is_valid then
    logger WARNING ("Skipping " ++ path_str input_rel_path ++ ": "
                    ++ size_msg) ;;
    ret (add_failure stats (path_str input_rel_path) size_msg,
         run_report
         ++ [("SKIPPED (size): " ++ path_str input_rel_path ++ " - "
              ++ size_msg)%string])
  else
    convert_to_each cfg dry_run input_abs_path input_rel_path
      (output_types cfg) (stats, run_report).

(** [for idx, (input_abs_path, input_rel_path) in enumerate(...)] *)
Fixpoint process_files (cfg : config) (dry_run : bool)
    (files : list (path * path)) (st : ConversionStats * list string)
  : M (ConversionStats * list string) :=
  match files with
  | [] => ret st
  | file :: files' =>
      st' <- process_file cfg dry_run st file ;;
      process_files cfg dry_run files' st'
  end.

(** The head of the run report. *)
Definition report_header (cfg : config) (dry_run : bool) (n_files : Z)
  : M (list string) :=
  fun w =>
    (Ret [ "Document Conversion Run Report";
           "Generated: " ++ now_str_at O (clock w);
           "Mode: " ++ (if dry_run then "DRY RUN" else "PRODUCTION");
           "";
           "Configuration:";
           "  Input types: " ++ repr_list O (input_types cfg);
           "  Output types: " ++ repr_list O (output_types cfg);
           "  Max file size: " ++ str_num O (max_file_size_mb cfg) ++ "MB";
           "  Inputs directory: " ++ path_str (dir_inputs cfg);
           "  Outputs directory: " ++ path_str (dir_outputs cfg);
           "  Retry attempts: " ++ str_int (retry_attempts cfg);
           "";
           "Files discovered: " ++ str_int n_files;
           "" ]%string,
     tick w).

(** The name of the report of a run. *)
Definition report_filename (stamp : string) : string :=
  ("run_report_" ++ stamp ++ ".txt")%string.

(** The end of [process_conversions]: "Save report with timestamp". *)
Definition save_report (cfg : config) (run_report : list string) : M unit :=
  stamp <- now_stamp O ;;
  let report_path := dir_outputs cfg ++ [report_filename stamp] in
  try_except
    (ensure_dir O (dir_outputs cfg) ;;
     atomic_write O report_path (Str (String.concat PyStr.newline run_report))
       None)
    (fun e =>
       logger ERROR ("Failed to write run report to "
                     ++ path_str report_path ++ ": " ++ exn_str e)).

(** [process_conversions] up to the report: the statistics and, unless
    no file was found, the lines of the report. *)
Definition run_conversions (cfg : config) (dry_run : bool)
  : M (ConversionStats * option (list string)) :=
  stats <- ConversionStats_init ;;
  (if negb dry_run then
     try_except
       (sys O SysInitConverter (fun t => (Ret tt, t)))
       (fun e =>
          logger ERROR ("Failed to initialize DocumentConverter: "
                        ++ exn_str e) ;;
          raise e)
   else ret tt) ;;
  input_files <- list_input_files (dir_inputs cfg) (input_types cfg) ;;
  let stats := set_total_files (Z.of_nat (List.length input_files)) stats in
  match input_files with
  | [] =>
      logger WARNING "No input files found to process" ;;
      ret (stats, None)
  | _ :: _ =>
      run_report <-
        report_header cfg dry_run (Z.of_nat (List.length input_files)) ;;
      st <- process_files cfg dry_run input_files (stats, run_report) ;;
      let '(stats, run_report) := st in
      lines <- summary stats ;;
      ret (stats, Some (run_report ++ [""%string] ++ lines))
  end.

(** [process_conversions] *)
Definition process_conversions (cfg : config) (dry_run : bool)
  : M ConversionStats :=
  r <- run_conversions cfg dry_run ;;
  match r with
  | (stats, None) => ret stats
  | (stats, Some run_report) =>
      save_report cfg run_report ;;
      ret stats
  end.

(** ** The entry point *)

(** The command line, parsed. *)
Record arguments : Type := Arguments_ {
  arg_config : path;
  arg_save_config : bool;
  arg_dry_run : bool;
  arg_inputs : option path;
  arg_outputs : option path;
  arg_inputs_queue : option path;
  arg_inputs_staging : option path
}.

(** "Apply CLI overrides" *)
Definition apply_overrides (args : arguments) (cfg : config) : config :=
  let pick (o : option path) (d : path) : path :=
    match o with Some p => p | None => d end in
  {| input_types := input_types cfg;
     output_types := output_types cfg;
     max_file_size_mb := max_file_size_mb cfg;
     retry_attempts := retry_attempts cfg;
     retry_delay_seconds := retry_delay_seconds cfg;
     dir_inputs := pick (arg_inputs args) (dir_inputs cfg);
     dir_outputs := pick (arg_outputs args) (dir_outputs cfg);
     dir_inputs_queue := pick (arg_inputs_queue args) (dir_inputs_queue cfg);
     dir_inputs_staging :=
       pick (arg_inputs_staging args) (dir_inputs_staging cfg) |}.

(** What [main] does before the conversions: validation, the base
    directories, the snapshot of the outputs, the rotation. *)
Definition main_setup (args : arguments) (loaded : config) : M config :=
  let cfg := apply_overrides args loaded in
  validate_config cfg ;;
  ensure_dir O (dir_outputs cfg) ;;
  ensure_dir O (dir_inputs_queue cfg) ;;
  ensure_dir O (dir_inputs_staging cfg) ;;
  (if negb (arg_dry_run args)
   then _ <- snapshot_directory O (dir_outputs cfg) "outputs" ;; ret tt
   else ret tt) ;;
  _ <- rotate_inputs O (dir_inputs cfg) (dir_inputs_queue cfg)
         (dir_inputs_staging cfg) ;;
  ret cfg.

(** [yaml.dump(DEFAULT_CONFIG, f, default_flow_style=False,
    sort_keys=False)] *)
Definition DEFAULT_CONFIG_yaml : string :=
  String.concat PyStr.newline
    [ "input_types:"; "- pdf"; "output_types:"; "- md";
      "max_file_size_mb: 100"; "retry_attempts: 2";
      "retry_delay_seconds: 1.0"; "directories:";
      "  inputs: ./inputs"; "  outputs: ./outputs";
      "  inputs_queue: ./inputs_queue";
      "  inputs_staging: ./inputs_staging"; "" ].

(** [save_default_config] *)
Definition save_default_config (config_path : path) : M unit :=
  try_except
    (open_write O config_path ;;
     file_write O config_path false (Str DEFAULT_CONFIG_yaml))
    (fun e =>
       logger ERROR ("Failed to save config to " ++ path_str config_path
                     ++ ": " ++ exn_str e)).

(** The [try] block of [main]: a run. *)
Definition main_run (args : arguments) (loaded : config) : M Z :=
  cfg <- main_setup args loaded ;;
  stats <- process_conversions cfg (arg_dry_run args) ;;
  _ <- summary stats ;;
  ret (if (failed stats =? 0)%Z then 0%Z else 1%Z).

(** [main]; [loaded] is what [load_config] returns.  The result is the
    exit status. *)
Definition main (args : arguments) (loaded : config) : M Z :=
  if arg_save_config args then
    save_default_config (arg_config args) ;;
    ret 0%Z
  else
    try_except (main_run args loaded)
      (fun e =>
         logger ERROR ("Fatal error: " ++ exn_str e) ;;
         ret 1%Z).

End Pipeline.

(** ** The tasks of a run and their outcomes *)

(** The outcome of a task, as the specification names it. *)
Inductive ConversionOutcome : Type :=
| Success (bytes_written : Z)
| Failure (reason : string)
| Skipped.

(** A task that was run, with what decides its line in the report: the
    relative path of the file and then the path of the output with the
    size of the file, or with the message of the failure, or the
    extension that was skipped.  A file that the size gate rejects gives
    one task, without an output. *)
Inductive task_result : Type :=
| Converted (input_rel_path output_path : path) (file_size : Z)
| Failed (input_rel_path output_path : path) (message : string)
| Rejected (input_rel_path : path) (size_msg : string)
| SameType (input_rel_path : path) (output_ext : string).

Definition outcome_of (t : task_result) : ConversionOutcome :=
  match t with
  | Converted _ _ file_size => Success file_size
  | Failed _ _ message => Failure message
  | Rejected _ size_msg => Failure size_msg
  | SameType _ _ => Skipped
  end.

(** The failure of a task, as the statistics list it: the file and the
    reason. *)
Definition failure_of (t : task_result) : list (string * string) :=
  match t with
  | Failed input_rel_path _ message => [(path_str input_rel_path, message)]
  | Rejected input_rel_path size_msg => [(path_str input_rel_path, size_msg)]
  | Converted _ _ _ | SameType _ _ => []
  end.

Definition size_of (t : task_result) : Z :=
  match t with Converted _ _ file_size => file_size | _ => 0%Z end.

Definition is_success (t : task_result) : bool :=
  match t with Converted _ _ _ => true | _ => false end.

Definition is_skip (t : task_result) : bool :=
  match t with SameType _ _ => true | _ => false end.

(** The line of a task in the report of a run; a same-type skip has
    none. *)
Definition report_lines (dry_run : bool) (t : task_result) : list string :=
  match t with
  | Converted input_rel_path output_path _ =>
      [((if dry_run then "[DRY RUN] " else "SUCCESS: ")
        ++ path_str input_rel_path ++ " -> " ++ path_str output_path)%string]
  | Failed input_rel_path output_path message =>
      [("FAILED: " ++ path_str input_rel_path ++ " -> "
        ++ path_str output_path ++ " (" ++ message ++ ")")%string]
  | Rejected input_rel_path size_msg =>
      [("SKIPPED (size): " ++ path_str input_rel_path ++ " - "
        ++ size_msg)%string]
  | SameType _ _ => []
  end.

(** The tasks of a run, by the calls that [process_conversions] makes,
    without its statistics and its report: for each discovered file the
    size gate, then for each output type the skip of the same type, the
    success of a dry run, or what [convert_document] returns. *)
Section TaskResults.

Variable O : oracle.

(** One output type for one file. *)
Definition run_task (cfg : config) (dry_run : bool)
    (input_abs_path input_rel_path : path) (output_ext : string)
  : M task_result :=
  let input_filename_no_ext :=
    fst (PyStr.splitext (basename input_rel_path)) in
  let input_ext :=
    PyStr.lstrip_dot
      (PyStr.lower (snd (PyStr.splitext (basename input_rel_path)))) in
  let rel_dir := parent input_rel_path in
  if String.eqb output_ext input_ext
  then ret (SameType input_rel_path output_ext)
  else
    let output_filename :=
      generate_output_filename input_filename_no_ext input_ext output_ext in
    let output_path :=
      match rel_dir with
      | _ :: _ => dir_outputs cfg ++ rel_dir ++ [output_filename]
      | [] => dir_outputs cfg ++ [output_filename]
      end in
    if dry_run then ret (Converted input_rel_path output_path 0)
    else
      res <- convert_document O input_abs_path output_path output_ext
               (retry_attempts cfg) (retry_delay_seconds cfg) ;;
      let '(success, message) := res in
      if success then
        file_size <- get_file_size O input_abs_path ;;
        ret (Converted input_rel_path output_path file_size)
      else
        logger ERROR ("  ✗ Failed: " ++ message) ;;
        ret (Failed input_rel_path output_path message).

(** The output types of one file, in their order. *)
Fixpoint run_tasks (cfg : config) (dry_run : bool)
    (input_abs_path input_rel_path : path) (exts : list string)
  : M (list task_result) :=
  match exts with
  | [] => ret []
  | output_ext :: exts' =>
      t <- run_task cfg dry_run input_abs_path input_rel_path output_ext ;;
      ts <- run_tasks cfg dry_run input_abs_path input_rel_path exts' ;;
      ret (t :: ts)
  end.

(** One discovered file: the size gate, then its tasks. *)
Definition run_file (cfg : config) (dry_run : bool) (file : path * path)
  : M (list task_result) :=
  let '(input_abs_path, input_rel_path) := file in
  chk <- check_file_size O input_abs_path (max_file_size_mb cfg) ;;
  let '(is_valid, size_msg) := chk in
  if negb is_valid then
    logger WARNING ("Skipping " ++ path_str input_rel_path ++ ": "
                    ++ size_msg) ;;
    ret [Rejected input_rel_path size_msg]
  else
    run_tasks cfg dry_run input_abs_path input_rel_path (output_types cfg).

(** The discovered files, in their order. *)
Fixpoint run_files (cfg : config) (dry_run : bool)
    (files : list (path * path)) : M (list task_result) :=
  match files with
  | [] => ret []
  | file :: files' =>
      ts <- run_file cfg dry_run file ;;
      ts' <- run_files cfg dry_run files' ;;
      ret (ts ++ ts')
  end.

(** A run of [process_conversions], up to its report: the clock of the
    statistics is started, the converter is made (not in a dry run),
    the files are discovered and, when there are some, the head of the
    report is dated and the files are processed. *)
Definition run_outcomes (cfg : config) (dry_run : bool)
  : M (list task_result) :=
  _ <- ConversionStats_init O ;;
  (if negb dry_run then
     try_except
       (sys O SysInitConverter (fun t => (Ret tt, t)))
       (fun e =>
          logger ERROR ("Failed to initialize DocumentConverter: "
                        ++ exn_str e) ;;
          raise e)
   else ret tt) ;;
  input_files <- list_input_files (dir_inputs cfg) (input_types cfg) ;;
  match input_files with
  | [] =>
      logger WARNING "No input files found to process" ;;
      ret []
  | _ :: _ =>
      _ <- report_header O cfg dry_run
             (Z.of_nat (List.length input_files)) ;;
      run_files cfg dry_run input_files
  end.

End TaskResults.

(** What [process_conversions] keeps of a task: its count in the
    statistics and its line in the report. *)
Definition record_task (dry_run : bool) (st : ConversionStats * list string)
    (t : task_result) : ConversionStats * list string :=
  (match t with
   | Converted _ _ file_size => add_success (fst st) file_size
   | Failed input_rel_path _ message =>
       add_failure (fst st) (path_str input_rel_path) message
   | Rejected input_rel_path size_msg =>
       add_failure (fst st) (path_str input_rel_path) size_msg
   | SameType _ _ => add_skip (fst st)
   end,
   snd st ++ report_lines dry_run t).

(** The default configuration with a ceiling of two bytes and one
    output type. *)
Definition sample_config_md_two_bytes : config :=
  {| input_types := ["pdf"];
     output_types := ["md"];
     max_file_size_mb := 2 # 1048576;
     retry_attempts := 2;
     retry_delay_seconds := 1;
     dir_inputs := ["inputs"];
     dir_outputs := ["outputs"];
     dir_inputs_queue := ["inputs_queue"];
     dir_inputs_staging := ["inputs_staging"] |}.

(** ** Sample runs *)

(** The default configuration with a ceiling of two bytes. *)
Definition sample_config_two_bytes : config :=
  {| input_types := ["pdf"];
     output_types := ["md"; "html"];
     max_file_size_mb := 2 # 1048576;
     retry_attempts := 2;
     retry_delay_seconds := 1;
     dir_inputs := ["inputs"];
     dir_outputs := ["outputs"];
     dir_inputs_queue := ["inputs_queue"];
     dir_inputs_staging := ["inputs_staging"] |}.

(** The statistics at the start of a run. *)
Definition sample_stats : ConversionStats := Stats 0 0 0 0 0 [] 0.

(** The failure counter counts the recorded failures. *)
Definition consistent (st : ConversionStats) : Prop :=
  failed st = Z.of_nat (List.length (failed_files st)).

(** A working directory with nothing to convert. *)
Definition sample_world_no_input : world :=
  World (Dir [ ("inputs", Dir []); ("outputs", Dir []) ]) 0 [].

(* ====================================================================== *)
(** * Properties *)
(* ====================================================================== *)

Unset Implicit Arguments.
Local Arguments Ascii.eqb : simpl never.

(** ** Strings *)

Lemma list_ascii_of_string_app (s t : string) :
  list_ascii_of_string (s ++ t)%string
  = list_ascii_of_string s ++ list_ascii_of_string t.
Proof.
  induction s as [|c s IH]; simpl; [reflexivity|]. now rewrite IH.
Qed.

Lemma list_ascii_of_string_inj (s t : string) :
  list_ascii_of_string s = list_ascii_of_string t -> s = t.
Proof.
  intros H.
  rewrite <- (string_of_list_ascii_of_string s),
          <- (string_of_list_ascii_of_string t).
  now rewrite H.
Qed.

Lemma has_char_In (c : ascii) (s : string) :
  PyStr.has_char c s = true <-> In c (list_ascii_of_string s).
Proof.
  induction s as [|d s IH]; simpl.
  - split; [discriminate | tauto].
  - rewrite orb_true_iff, IH, Ascii.eqb_eq. intuition congruence.
Qed.

(** A sequence is cut in one way only at the last occurrence of [c]. *)
Lemma split_at_last (A : Type) (c : A) (l1 l2 r1 r2 : list A) :
  ~ In c r1 -> ~ In c r2 ->
  l1 ++ c :: r1 = l2 ++ c :: r2 ->
  l1 = l2 /\ r1 = r2.
Proof.
  intros H1 H2. revert l2.
  induction l1 as [|a l1 IH]; intros [|b l2] E; simpl in E.
  - now injection E.
  - injection E as _ E. exfalso. apply H1. rewrite E.
    apply in_or_app. right. now left.
  - injection E as _ E. exfalso. apply H2. rewrite <- E.
    apply in_or_app. right. now left.
  - injection E as -> E. destruct (IH _ E) as [-> ->]. now split.
Qed.

(** The string form of [split_at_last]. *)
Lemma append_split_at_last (c : ascii) (l1 l2 r1 r2 : string) :
  PyStr.has_char c r1 = false -> PyStr.has_char c r2 = false ->
  (l1 ++ String c r1 = l2 ++ String c r2)%string ->
  l1 = l2 /\ r1 = r2.
Proof.
  intros H1 H2 E.
  apply (f_equal list_ascii_of_string) in E.
  rewrite !list_ascii_of_string_app in E. simpl in E.
  apply split_at_last in E.
  - destruct E as [E1 E2]. split; now apply list_ascii_of_string_inj.
  - intros HI. apply has_char_In in HI. congruence.
  - intros HI. apply has_char_In in HI. congruence.
Qed.

Lemma append_assoc (s t u : string) :
  ((s ++ t) ++ u = s ++ (t ++ u))%string.
Proof.
  induction s as [|c s IH]; simpl; [reflexivity|]. now rewrite IH.
Qed.

Lemma append_inv_tail (s t u : string) :
  (s ++ u = t ++ u)%string -> s = t.
Proof.
  intros E. apply (f_equal list_ascii_of_string) in E.
  rewrite !list_ascii_of_string_app in E.
  apply app_inv_tail in E. now apply list_ascii_of_string_inj.
Qed.

(** ** The file system *)

Lemma prefixb_refl (p : path) : prefixb p p = true.
Proof.
  induction p as [|x p IH]; simpl; [reflexivity|].
  now rewrite String.eqb_refl, IH.
Qed.

Lemma prefixb_app (p r : path) : prefixb p (p ++ r) = true.
Proof.
  induction p as [|x p IH]; simpl; [reflexivity|].
  now rewrite String.eqb_refl, IH.
Qed.

Lemma prefixb_app_l (p q r : path) :
  prefixb (p ++ r) q = true -> prefixb p q = true.
Proof.
  revert q. induction p as [|x p IH]; intros q H; [reflexivity|].
  destruct q as [|y q]; simpl in *; [discriminate|].
  apply andb_true_iff in H. destruct H as [-> H]. simpl. eauto.
Qed.

(** Two prefixes of one path: one is a prefix of the other. *)
Lemma prefixb_comparable (p q r : path) :
  prefixb p r = true -> prefixb q r = true ->
  prefixb p q = true \/ prefixb q p = true.
Proof.
  revert q r. induction p as [|x p IH]; intros q r Hp Hq; [now left|].
  destruct q as [|y q]; [now right|].
  destruct r as [|z r]; simpl in *; [discriminate|].
  apply andb_true_iff in Hp. destruct Hp as [Hx Hp].
  apply andb_true_iff in Hq. destruct Hq as [Hy Hq].
  apply String.eqb_eq in Hx. apply String.eqb_eq in Hy. subst.
  rewrite String.eqb_refl. simpl. eauto.
Qed.

Lemma unrelated_sym (p q : path) : unrelated p q = unrelated q p.
Proof. unfold unrelated. apply andb_comm. Qed.

Lemma unrelated_app_l (p q r : path) :
  unrelated p q = true -> unrelated (p ++ r) q = true.
Proof.
  unfold unrelated. intros H. apply andb_true_iff in H.
  destruct H as [H1 H2].
  apply negb_true_iff in H1. apply negb_true_iff in H2.
  apply andb_true_iff. split; apply negb_true_iff.
  - destruct (prefixb (p ++ r) q) eqn:E; [|reflexivity].
    apply prefixb_app_l in E. congruence.
  - destruct (prefixb q (p ++ r)) eqn:E; [|reflexivity].
    destruct (prefixb_comparable _ _ _ (prefixb_app p r) E); congruence.
Qed.

Lemma unrelated_app_r (p q r : path) :
  unrelated p q = true -> unrelated p (q ++ r) = true.
Proof.
  intros H. rewrite unrelated_sym. apply unrelated_app_l.
  now rewrite unrelated_sym.
Qed.

Lemma unrelated_not_eqb (p q : path) :
  unrelated p q = true -> path_eqb p q = false.
Proof.
  unfold unrelated, path_eqb. intros H. apply andb_true_iff in H.
  destruct H as [H _]. apply negb_true_iff in H. now rewrite H.
Qed.

Lemma unrelated_not_root (p q : path) :
  unrelated p q = true -> is_root p = false.
Proof. destruct p; [discriminate|reflexivity]. Qed.

Lemma assoc_put_entry_same (x : string) (v : node) es :
  assoc x (put_entry x v es) = Some v.
Proof.
  induction es as [|[y n] es IH]; simpl.
  - now rewrite String.eqb_refl.
  - destruct (String.eqb x y) eqn:E; simpl; rewrite E; [reflexivity|exact IH].
Qed.

Lemma assoc_put_entry_other (x y : string) (v : node) es :
  x <> y -> assoc y (put_entry x v es) = assoc y es.
Proof.
  intros N. induction es as [|[z n] es IH]; simpl.
  - apply String.eqb_neq in N. rewrite String.eqb_sym in N. now rewrite N.
  - destruct (String.eqb x z) eqn:E; simpl.
    + apply String.eqb_eq in E. subst z.
      apply String.eqb_neq in N. rewrite String.eqb_sym in N. now rewrite N.
    + now rewrite IH.
Qed.

Lemma assoc_del_entry_same (x : string) es : assoc x (del_entry x es) = None.
Proof.
  induction es as [|[y n] es IH]; simpl; [reflexivity|].
  destruct (String.eqb x y) eqn:E; simpl; [exact IH|]. now rewrite E.
Qed.

Lemma assoc_del_entry_other (x y : string) es :
  x <> y -> assoc y (del_entry x es) = assoc y es.
Proof.
  intros N. induction es as [|[z n] es IH]; simpl; [reflexivity|].
  destruct (String.eqb x z) eqn:E; simpl.
  - apply String.eqb_eq in E. subst z.
    apply String.eqb_neq in N. rewrite String.eqb_sym in N. now rewrite N.
  - now rewrite IH.
Qed.

Lemma assoc_None_names (x : string) es :
  assoc x es = None <-> ~ In x (names es).
Proof.
  induction es as [|[y n] es IH]; simpl; [tauto|].
  destruct (String.eqb x y) eqn:E.
  - apply String.eqb_eq in E. subst. split; [discriminate|tauto].
  - apply String.eqb_neq in E. rewrite IH. intuition congruence.
Qed.

Lemma del_entry_absent (x : string) es :
  ~ In x (names es) -> del_entry x es = es.
Proof.
  induction es as [|[y n] es IH]; simpl; intros H; [reflexivity|].
  destruct (String.eqb x y) eqn:E.
  - apply String.eqb_eq in E. subst. tauto.
  - rewrite IH; tauto.
Qed.

Lemma put_entry_absent (x : string) (v : node) es :
  ~ In x (names es) -> put_entry x v es = es ++ [(x, v)].
Proof.
  induction es as [|[y n] es IH]; simpl; intros H; [reflexivity|].
  destruct (String.eqb x y) eqn:E.
  - apply String.eqb_eq in E. subst. tauto.
  - rewrite IH; tauto.
Qed.

Lemma NoDup_app_disjoint (A : Type) (l1 l2 : list A) (x : A) :
  NoDup (l1 ++ l2) -> In x l1 -> In x l2 -> False.
Proof.
  induction l1 as [|a l1 IH]; simpl; intros ND H1 H2; [exact H1|].
  inversion ND as [|? ? Ha ND']; subst.
  destruct H1 as [->|H1]; [|now apply IH].
  apply Ha, in_or_app. now right.
Qed.

Lemma nodupb_NoDup (l : list string) : nodupb l = true <-> NoDup l.
Proof.
  induction l as [|x l IH]; simpl.
  - split; [constructor|reflexivity].
  - rewrite andb_true_iff, negb_true_iff, IH. split.
    + intros [H1 H2]. constructor; [|assumption].
      intros HI. assert (existsb (String.eqb x) l = true); [|congruence].
      apply existsb_exists. exists x. split; [assumption|apply String.eqb_refl].
    + intros H. inversion H as [|? ? H1 H2]; subst. split; [|assumption].
      destruct (existsb (String.eqb x) l) eqn:E; [|reflexivity].
      apply existsb_exists in E. destruct E as [y [Hy E]].
      apply String.eqb_eq in E. subst. tauto.
Qed.

(** What [put] stores at [p] is found at [p]. *)
Lemma get_put_same (p : path) (v n : node) : get p (put p v n) = Some v.
Proof.
  revert n. induction p as [|x p IH]; intros n; simpl; [reflexivity|].
  rewrite assoc_put_entry_same. apply IH.
Qed.

(** [put] at [p] leaves what is neither above nor below [p]. *)
Lemma get_put_unrelated (p q : path) (v n : node) :
  unrelated p q = true -> get q (put p v n) = get q n.
Proof.
  revert q n. induction p as [|x p IH]; intros q n H.
  - discriminate.
  - destruct q as [|y q]; [unfold unrelated in H; simpl in H; discriminate|].
    simpl. destruct (String.eqb x y) eqn:E.
    + apply String.eqb_eq in E. subst y.
      rewrite assoc_put_entry_same.
      assert (H' : unrelated p q = true).
      { unfold unrelated in *. simpl in H.
        now rewrite String.eqb_refl in H. }
      rewrite IH by assumption.
      assert (Hq : get q (Dir []) = None).
      { destruct q; [destruct p; discriminate H'|reflexivity]. }
      destruct n as [d|es]; simpl; [exact Hq|].
      destruct (assoc x es); [reflexivity|exact Hq].
    + apply String.eqb_neq in E.
      rewrite assoc_put_entry_other by assumption.
      destruct n as [d|es]; reflexivity.
Qed.

Lemma del_entry_eq (x : string) es : del [x] (Dir es) = Dir (del_entry x es).
Proof. reflexivity. Qed.

Lemma del_below_eq (x y : string) (p : path) es :
  del (x :: y :: p) (Dir es)
  = match assoc x es with
    | Some c => Dir (put_entry x (del (y :: p) c) es)
    | None => Dir es
    end.
Proof. reflexivity. Qed.

(** What is at a deleted path is gone. *)
Lemma get_del_same (p : path) (n : node) : p <> [] -> get p (del p n) = None.
Proof.
  revert n. induction p as [|x p IH]; intros n N; [congruence|].
  destruct n as [d|es]; [reflexivity|].
  destruct p as [|y p].
  - rewrite del_entry_eq. simpl. now rewrite assoc_del_entry_same.
  - rewrite del_below_eq. destruct (assoc x es) eqn:E.
    + cbn [get]. rewrite assoc_put_entry_same. apply IH. discriminate.
    + cbn [get]. now rewrite E.
Qed.

(** [del] at [p] leaves what is neither above nor below [p]. *)
Lemma get_del_unrelated (p q : path) (n : node) :
  unrelated p q = true -> get q (del p n) = get q n.
Proof.
  revert q n. induction p as [|x p IH]; intros q n H.
  - discriminate.
  - destruct q as [|y q]; [unfold unrelated in H; simpl in H; discriminate|].
    destruct n as [d|es]; [reflexivity|].
    destruct (String.eqb x y) eqn:E.
    + apply String.eqb_eq in E. subst y.
      assert (H' : unrelated p q = true).
      { unfold unrelated in *. simpl in H.
        now rewrite String.eqb_refl in H. }
      destruct p as [|z p]; [discriminate|].
      rewrite del_below_eq.
      destruct (assoc x es) eqn:A; cbn [get].
      * rewrite assoc_put_entry_same, A. now apply IH.
      * reflexivity.
    + apply String.eqb_neq in E.
      destruct p as [|z p].
      * rewrite del_entry_eq. cbn [get]. now rewrite assoc_del_entry_other.
      * rewrite del_below_eq.
        destruct (assoc x es) eqn:A; cbn [get]; [|reflexivity].
        now rewrite assoc_put_entry_other.
Qed.

Lemma get_app (p q : path) (n : node) :
  get (p ++ q) n = match get p n with Some m => get q m | None => None end.
Proof.
  revert n. induction p as [|x p IH]; intros n; simpl; [reflexivity|].
  destruct n as [d|es]; [reflexivity|].
  destruct (assoc x es); [apply IH|reflexivity].
Qed.

(** The entry of a directory, seen from its parent. *)
Lemma get_child (d : path) (x : string) (n : node) es :
  get d n = Some (Dir es) -> get (d ++ [x]) n = assoc x es.
Proof.
  intros H. rewrite get_app, H. simpl. now destruct (assoc x es).
Qed.

(** [put] of an entry, seen from its parent directory. *)
Lemma get_put_child (d : path) (x : string) (v n : node) es :
  get d n = Some (Dir es) ->
  get d (put (d ++ [x]) v n) = Some (Dir (put_entry x v es)).
Proof.
  revert n. induction d as [|y d IH]; intros n H; simpl in *.
  - injection H as ->. reflexivity.
  - destruct n as [dt|es']; [discriminate|].
    destruct (assoc y es') eqn:A; [|discriminate].
    rewrite assoc_put_entry_same. now apply IH.
Qed.

(** [del] of an entry, seen from its parent directory. *)
Lemma get_del_child (d : path) (x : string) (n : node) es :
  get d n = Some (Dir es) ->
  get d (del (d ++ [x]) n) = Some (Dir (del_entry x es)).
Proof.
  revert n. induction d as [|y d IH]; intros n H; simpl in *.
  - injection H as ->. reflexivity.
  - destruct n as [dt|es']; [discriminate|].
    destruct (assoc y es') eqn:A; [|discriminate].
    destruct (d ++ [x]) as [|z r] eqn:Ed; [now destruct d|].
    rewrite assoc_put_entry_same. now apply IH.
Qed.

Lemma no_file_on_way_child (d : path) (x : string) (n : node) es :
  get d n = Some (Dir es) -> no_file_on_way (d ++ [x]) n = true.
Proof.
  revert n. induction d as [|y d IH]; intros n H; simpl in *.
  - injection H as ->. now destruct (assoc x es).
  - destruct n as [dt|es']; [discriminate|].
    destruct (assoc y es'); [now apply IH|discriminate].
Qed.

Lemma parent_child (d : path) (x : string) : parent (d ++ [x]) = d.
Proof. apply removelast_last. Qed.

Lemma is_root_child (d : path) (x : string) : is_root (d ++ [x]) = false.
Proof. now destruct d. Qed.

(** ** The order of strings, and sorting *)

Lemma ascii_compare_refl (a : ascii) : Ascii.compare a a = Eq.
Proof. unfold Ascii.compare. apply N.compare_refl. Qed.

Lemma ascii_compare_trans (a b c : ascii) (o : comparison) :
  Ascii.compare a b = o -> Ascii.compare b c = o -> Ascii.compare a c = o.
Proof.
  unfold Ascii.compare. destruct o; intros H1 H2.
  - apply N.compare_eq_iff in H1. apply N.compare_eq_iff in H2.
    rewrite H1, H2. apply N.compare_refl.
  - apply N.compare_lt_iff in H1. apply N.compare_lt_iff in H2.
    apply N.compare_lt_iff. eapply N.lt_trans; eassumption.
  - apply N.compare_gt_iff in H1. apply N.compare_gt_iff in H2.
    apply N.compare_gt_iff. eapply N.lt_trans; eassumption.
Qed.

Lemma string_leb_refl (a : string) : String.leb a a = true.
Proof.
  unfold String.leb. induction a as [|x a IH]; simpl; [reflexivity|].
  now rewrite ascii_compare_refl.
Qed.

Lemma string_leb_trans (a b c : string) :
  String.leb a b = true -> String.leb b c = true -> String.leb a c = true.
Proof.
  unfold String.leb. revert b c.
  induction a as [|x a IH]; intros [|y b] [|z c]; simpl;
    try reflexivity; try discriminate.
  destruct (Ascii.compare x y) eqn:Hxy; try discriminate;
    destruct (Ascii.compare y z) eqn:Hyz; try discriminate; intros H1 H2.
  - rewrite (ascii_compare_trans x y z Eq Hxy Hyz). now apply (IH b c).
  - apply Ascii.compare_eq_iff in Hxy. subst y. now rewrite Hyz.
  - apply Ascii.compare_eq_iff in Hyz. subst z. now rewrite Hxy.
  - now rewrite (ascii_compare_trans x y z Lt Hxy Hyz).
Qed.

Section Sorting.

Variable A : Type.
Variable key : A -> string.

Lemma insert_by_perm (x : A) (l : list A) :
  Permutation (insert_by key x l) (x :: l).
Proof.
  induction l as [|y l IH]; simpl; [reflexivity|].
  destruct (String.leb (key x) (key y)); [reflexivity|].
  rewrite IH. apply perm_swap.
Qed.

Lemma sorted_by_perm (l : list A) : Permutation (sorted_by key l) l.
Proof.
  induction l as [|x l IH]; simpl; [reflexivity|].
  rewrite insert_by_perm. now constructor.
Qed.

Lemma insert_by_sorted (x : A) (l : list A) :
  StronglySorted (key_le key) l -> StronglySorted (key_le key) (insert_by key x l).
Proof.
  induction l as [|y l IH]; simpl; intros H.
  - constructor; constructor.
  - inversion H as [|? ? Hs Hall]; subst.
    destruct (String.leb (key x) (key y)) eqn:E.
    + constructor; [exact H|]. constructor; [exact E|].
      eapply Forall_impl; [|exact Hall].
      intros z Hz. unfold key_le in *. eapply string_leb_trans; eauto.
    + constructor; [now apply IH|].
      apply (@Permutation_Forall A (key_le key y) (x :: l)
               (insert_by key x l) (Permutation_sym (insert_by_perm x l))).
      constructor; [|exact Hall]. unfold key_le.
      destruct (String.leb_total (key x) (key y)) as [K|K];
        [congruence|exact K].
Qed.

Lemma sorted_by_sorted (l : list A) : StronglySorted (key_le key) (sorted_by key l).
Proof.
  induction l as [|x l IH]; simpl; [constructor|].
  now apply insert_by_sorted.
Qed.

(** Two sorted lists with the same elements are one list, when the key
    tells their elements apart. *)
Lemma sorted_perm_eq (l1 l2 : list A) :
  (forall x y, In x l1 -> In y l1 -> key x = key y -> x = y) ->
  StronglySorted (key_le key) l1 -> StronglySorted (key_le key) l2 ->
  Permutation l1 l2 -> l1 = l2.
Proof.
  revert l2. induction l1 as [|x l1 IH]; intros l2 Hinj S1 S2 HP.
  - apply Permutation_nil in HP. now subst.
  - destruct l2 as [|y l2];
      [apply Permutation_sym, Permutation_nil in HP; discriminate|].
    inversion S1 as [|? ? S1' A1]; subst.
    inversion S2 as [|? ? S2' A2]; subst.
    assert (Hxy : x = y).
    { assert (Hy : In y (x :: l1))
        by (eapply Permutation_in; [symmetry; exact HP|now left]).
      assert (Hx : In x (y :: l2))
        by (eapply Permutation_in; [exact HP|now left]).
      destruct Hy as [Hy|Hy]; [exact Hy|].
      destruct Hx as [Hx|Hx]; [now symmetry|].
      apply Hinj; [now left|now right|].
      apply String.leb_antisym.
      - rewrite Forall_forall in A1. exact (A1 y Hy).
      - rewrite Forall_forall in A2. exact (A2 x Hx). }
    subst y. f_equal. apply IH; auto.
    + intros a b Ha Hb. apply Hinj; now right.
    + eapply Permutation_cons_inv. exact HP.
Qed.

End Sorting.

(** ** Extensions *)

Lemma lower_char_dot (c : ascii) :
  Ascii.eqb (PyStr.lower_char c) "." = Ascii.eqb c ".".
Proof.
  destruct c as [[] [] [] [] [] [] [] []]; reflexivity.
Qed.

Lemma has_char_dot_lower (s : string) :
  PyStr.has_char "." (PyStr.lower s) = PyStr.has_char "." s.
Proof.
  induction s as [|c s IH]; simpl; [reflexivity|].
  rewrite IH. f_equal.
  rewrite (Ascii.eqb_sym "." (PyStr.lower_char c)), lower_char_dot.
  apply Ascii.eqb_sym.
Qed.

Lemma lstrip_dot_plain (s : string) :
  PyStr.has_char "." s = false -> PyStr.lstrip_dot s = s.
Proof.
  destruct s as [|c s]; [reflexivity|]. simpl. intros H.
  apply orb_false_iff in H. destruct H as [H _].
  destruct c as [[] [] [] [] [] [] [] []]; try reflexivity.
  discriminate H.
Qed.

Lemma rsplit_dot_plain (s : string) :
  PyStr.has_char "." s = false -> PyStr.rsplit_dot s = None.
Proof.
  induction s as [|c s IH]; simpl; [reflexivity|]. intros H.
  apply orb_false_iff in H. destruct H as [Hc Hs].
  rewrite (IH Hs). rewrite Ascii.eqb_sym in Hc. now rewrite Hc.
Qed.

(** The last dot is where [rsplit_dot] cuts. *)
Lemma rsplit_dot_app (stem ext : string) :
  PyStr.has_char "." ext = false ->
  PyStr.rsplit_dot (stem ++ String "." ext)%string
  = Some (stem, String "." ext).
Proof.
  intros H. induction stem as [|c stem IH]; simpl.
  - now rewrite (rsplit_dot_plain ext H).
  - now rewrite IH.
Qed.

Lemma rsplit_dot_Some (s b e : string) :
  PyStr.rsplit_dot s = Some (b, e) ->
  exists ext,
    e = String "." ext /\ s = (b ++ e)%string
    /\ PyStr.has_char "." ext = false.
Proof.
  revert b e. induction s as [|c s IH]; simpl; intros b e H; [discriminate|].
  destruct (PyStr.rsplit_dot s) as [[b' e']|] eqn:R.
  - injection H as <- <-. destruct (IH b' e' eq_refl) as [ext [-> [-> Hx]]].
    exists ext. auto.
  - destruct (Ascii.eqb c ".") eqn:Ec; [|discriminate].
    injection H as <- <-. apply Ascii.eqb_eq in Ec. subst c.
    exists s. repeat split.
    destruct (PyStr.has_char "." s) eqn:Hs; [|reflexivity].
    exfalso. clear IH. induction s as [|d s IHs]; [discriminate|].
    simpl in R, Hs.
    destruct (PyStr.rsplit_dot s) as [[? ?]|]; [discriminate|].
    destruct (Ascii.eqb d ".") eqn:Ed; [discriminate|].
    rewrite Ascii.eqb_sym, Ed in Hs. simpl in Hs. now apply IHs.
Qed.

Lemma mem_In (x : string) (l : list string) :
  PyStr.mem x l = true <-> In x l.
Proof.
  unfold PyStr.mem. rewrite existsb_exists. split.
  - intros [y [Hy E]]. apply String.eqb_eq in E. now subst.
  - intros H. exists x. split; [exact H|apply String.eqb_refl].
Qed.

(** The test of the code on a name is the rule of the specification. *)
Lemma allowed_name_qualifies (allowed_types : list string) (name : string) :
  allowed_name (map PyStr.lower allowed_types) name = true
  <-> qualifies allowed_types name.
Proof.
  unfold allowed_name, PyStr.splitext, qualifies, has_extension. split.
  - destruct (PyStr.rsplit_dot name) as [[b e]|] eqn:R; [|discriminate].
    destruct (PyStr.all_dots b) eqn:AD; [discriminate|].
    destruct (rsplit_dot_Some name b e R) as [ext [-> [-> Hx]]].
    cbn [snd PyStr.nonempty PyStr.lower].
    assert (Hd : PyStr.lower_char "." = "."%char) by reflexivity.
    rewrite Hd. cbn [PyStr.lstrip_dot].
    rewrite lstrip_dot_plain by (now rewrite has_char_dot_lower).
    intros H. apply mem_In in H.
    exists ext. split; [|exact H]. exists b. auto.
  - intros [ext [[stem [-> [Hx AD]]] HIn]].
    change (stem ++ "." ++ ext)%string with (stem ++ String "." ext)%string.
    rewrite (rsplit_dot_app stem ext Hx), AD.
    cbn [snd PyStr.nonempty PyStr.lower].
    assert (Hd : PyStr.lower_char "." = "."%char) by reflexivity.
    rewrite Hd. cbn [PyStr.lstrip_dot].
    rewrite lstrip_dot_plain by (now rewrite has_char_dot_lower).
    now apply mem_In.
Qed.

(** ** Well-formed trees, and the walk *)

(** Induction on a tree, with the property known of every entry of a
    directory. *)
Lemma node_induction (P : node -> Prop) :
  (forall d, P (File d)) ->
  (forall es, Forall (fun e => P (snd e)) es -> P (Dir es)) ->
  forall n, P n.
Proof.
  intros HF HD. fix IH 1. intros [d|es]; [apply HF|]. apply HD.
  induction es as [|[x c] es IHes]; constructor; [apply IH|exact IHes].
Qed.

Lemma wf_Dir_inv (es : list (string * node)) :
  wf (Dir es) = true ->
  forallb valid_name (names es) = true
  /\ NoDup (names es)
  /\ forall x c, In (x, c) es -> wf c = true.
Proof.
  cbn [wf]. intros H.
  apply andb_true_iff in H. destruct H as [H H3].
  apply andb_true_iff in H. destruct H as [H1 H2].
  split; [exact H1|]. split; [now apply nodupb_NoDup|].
  clear H1 H2. induction es as [|[y n] es IH]; intros x c HI; [destruct HI|].
  apply andb_true_iff in H3. destruct H3 as [Hn Hes].
  destruct HI as [E|HI]; [injection E as <- <-; exact Hn|eauto].
Qed.

Lemma assoc_In (es : list (string * node)) (x : string) (c : node) :
  NoDup (names es) -> (assoc x es = Some c <-> In (x, c) es).
Proof.
  induction es as [|[y n] es IH]; simpl; intros ND.
  - split; [discriminate|tauto].
  - inversion ND as [|? ? Hy ND']; subst.
    destruct (String.eqb x y) eqn:E.
    + apply String.eqb_eq in E. subst y. split.
      * intros H. injection H as <-. now left.
      * intros [H|H]; [now injection H as <-|].
        exfalso. apply Hy. change x with (fst (x, c)). now apply in_map.
    + apply String.eqb_neq in E. rewrite (IH ND'). split; [tauto|].
      intros [H|H]; [injection H as <- <-; congruence|exact H].
Qed.

(** What is found in a well-formed tree is well formed, and is found along
    valid names. *)
Lemma wf_get (p : path) :
  forall n m, wf n = true -> get p n = Some m ->
              wf m = true /\ forallb valid_name p = true.
Proof.
  induction p as [|x p IH]; intros n m Hw G; simpl in G.
  - injection G as <-. auto.
  - destruct n as [d|es]; [discriminate|].
    destruct (assoc x es) as [c|] eqn:A; [|discriminate].
    destruct (wf_Dir_inv es Hw) as [Hv [ND Hc]].
    apply (assoc_In es x c ND) in A.
    destruct (IH c m (Hc x c A) G) as [Hm Hp].
    split; [exact Hm|]. cbn [forallb]. rewrite Hp, andb_true_r.
    rewrite forallb_forall in Hv. apply Hv.
    change x with (fst (x, c)). now apply in_map.
Qed.

Lemma os_walk_Dir (root : path) (es : list (string * node)) :
  os_walk root (Dir es)
  = (root, filenames es)
    :: flat_map (fun e => os_walk (root ++ [fst e]) (snd e)) es.
Proof.
  cbn [os_walk]. f_equal.
  induction es as [|[x c] es IH]; [reflexivity|].
  cbn [flat_map fst snd]. now rewrite <- IH.
Qed.

(** The walk of a well-formed tree lists the directories of the tree,
    each with its file names. *)
Lemma os_walk_In (n : node) :
  forall (root r : path) (ns : list string),
  wf n = true ->
  (In (r, ns) (os_walk root n)
   <-> exists sub es,
         r = root ++ sub /\ get sub n = Some (Dir es) /\ ns = filenames es).
Proof.
  induction n as [d|es IH] using node_induction; intros root r ns Hw.
  - cbn [os_walk In]. split; [tauto|].
    intros [sub [es [_ [G _]]]]. destruct sub; discriminate.
  - rewrite os_walk_Dir. cbn [In]. rewrite in_flat_map.
    destruct (wf_Dir_inv es Hw) as [_ [ND Hc]].
    rewrite Forall_forall in IH. split.
    + intros [E|[[x c] [HI Hin]]].
      * injection E as <- <-. exists [], es. rewrite app_nil_r. auto.
      * cbn [fst snd] in Hin.
        apply (IH (x, c) HI (root ++ [x]) r ns (Hc x c HI)) in Hin.
        destruct Hin as [sub [es' [-> [G ->]]]].
        exists (x :: sub), es'. rewrite <- app_assoc.
        split; [reflexivity|]. split; [|reflexivity].
        cbn [get]. apply (assoc_In es x c ND) in HI. now rewrite HI.
    + intros [sub [es' [-> [G ->]]]]. destruct sub as [|x sub].
      * left. cbn in G. injection G as <-. now rewrite app_nil_r.
      * right. cbn [get] in G.
        destruct (assoc x es) as [c|] eqn:A; [|discriminate].
        apply (assoc_In es x c ND) in A.
        exists (x, c). split; [exact A|]. cbn [fst snd].
        apply (IH (x, c) A (root ++ [x]) _ _ (Hc x c A)).
        exists sub, es'. rewrite <- app_assoc. auto.
Qed.

Lemma filenames_In (es : list (string * node)) (x : string) :
  In x (filenames es) <-> exists d, In (x, File d) es.
Proof.
  induction es as [|[y [d|es']] es IH]; cbn [filenames In].
  - split; [tauto|intros [d []]].
  - rewrite IH. split.
    + intros [->|[d' H]]; eauto.
    + intros [d' [E|H]]; [injection E as <- <-; now left|eauto].
  - rewrite IH. split.
    + intros [d H]. eauto.
    + intros [d [E|H]]; [discriminate|eauto].
Qed.

Lemma filenames_NoDup (es : list (string * node)) :
  NoDup (names es) -> NoDup (filenames es).
Proof.
  induction es as [|[y [d|es']] es IH]; cbn [filenames names map fst];
    intros ND; inversion ND as [|? ? Hy ND']; subst.
  - constructor.
  - constructor; [|now apply IH].
    intros HI. apply filenames_In in HI. destruct HI as [d' HI].
    apply Hy. change y with (fst (y, File d')). now apply in_map.
  - now apply IH.
Qed.

Lemma relative_to_app (input_dir rel : path) :
  relative_to (input_dir ++ rel) input_dir = rel.
Proof.
  unfold relative_to. induction input_dir as [|x l IH]; [reflexivity|].
  exact IH.
Qed.

Lemma basename_child (d : path) (x : string) : basename (d ++ [x]) = x.
Proof. apply last_last. Qed.

(** What the loops of [list_input_files] collect from the walk of a
    well-formed tree: the files of the tree whose name passes the
    test. *)
Lemma collect_files_In (input_dir : path) (allowed : list string)
    (n : node) (abs rel : path) :
  wf n = true ->
  (In (abs, rel) (collect_files input_dir allowed (os_walk input_dir n))
   <-> rel <> []
       /\ abs = input_dir ++ rel
       /\ (exists d, get rel n = Some (File d))
       /\ allowed_name allowed (basename rel) = true).
Proof.
  intros Hw. unfold collect_files. rewrite in_flat_map. split.
  - intros [[r ns] [Hwalk HI]]. rewrite in_flat_map in HI.
    destruct HI as [name [Hname HI]].
    destruct (allowed_name allowed name) eqn:Ha; [|destruct HI].
    destruct HI as [E|[]]. injection E as <- <-.
    apply (os_walk_In n input_dir r ns Hw) in Hwalk.
    destruct Hwalk as [sub [es [-> [G ->]]]].
    rewrite <- app_assoc, relative_to_app.
    split; [now destruct sub|]. split; [reflexivity|].
    rewrite basename_child. split; [|exact Ha].
    apply filenames_In in Hname. destruct Hname as [d Hd].
    exists d. rewrite (get_child sub name n es G).
    destruct (wf_get sub n (Dir es) Hw G) as [Hwes _].
    destruct (wf_Dir_inv es Hwes) as [_ [ND _]].
    now apply (assoc_In es name (File d) ND).
  - intros [N [-> [[d G] Ha]]].
    destruct (exists_last N) as [sub [name ->]].
    rewrite basename_child in Ha.
    rewrite get_app in G.
    destruct (get sub n) as [[d'|es]|] eqn:Gs; try discriminate.
    cbn [get] in G. destruct (assoc name es) as [c|] eqn:A; [|discriminate].
    injection G as ->.
    destruct (wf_get sub n (Dir es) Hw Gs) as [Hwes _].
    destruct (wf_Dir_inv es Hwes) as [_ [ND _]].
    apply (assoc_In es name (File d) ND) in A.
    exists (input_dir ++ sub, filenames es). split.
    + apply (os_walk_In n input_dir _ _ Hw). exists sub, es. auto.
    + rewrite in_flat_map. exists name. split.
      * apply filenames_In. eauto.
      * rewrite Ha. left. rewrite <- app_assoc, relative_to_app.
        reflexivity.
Qed.

(** ** No file is collected twice *)

Lemma NoDup_flat_map (A B : Type) (f : A -> list B) (l : list A) :
  NoDup l ->
  (forall x, In x l -> NoDup (f x)) ->
  (forall x y b, In x l -> In y l -> In b (f x) -> In b (f y) -> x = y) ->
  NoDup (flat_map f l).
Proof.
  induction l as [|a l IH]; intros ND Hf Hd; cbn [flat_map]; [constructor|].
  inversion ND as [|? ? Ha ND']; subst.
  apply NoDup_app.
  - apply Hf. now left.
  - apply IH; [exact ND'| |].
    + intros x Hx. apply Hf. now right.
    + intros x y b Hx Hy. apply Hd; now right.
  - intros b Hb Hb'. apply in_flat_map in Hb'. destruct Hb' as [y [Hy Hby]].
    apply Ha. rewrite (Hd a y b); auto; [now left|now right].
Qed.

Lemma NoDup_names_entries (es : list (string * node)) :
  NoDup (names es) -> NoDup es.
Proof. apply NoDup_map_inv. Qed.

Lemma os_walk_NoDup (n : node) :
  forall root, wf n = true -> NoDup (os_walk root n).
Proof.
  induction n as [d|es IH] using node_induction; intros root Hw.
  - constructor.
  - rewrite os_walk_Dir. rewrite Forall_forall in IH.
    destruct (wf_Dir_inv es Hw) as [_ [ND Hc]].
    constructor.
    + rewrite in_flat_map. intros [[x c] [HI Hin]]. cbn [fst snd] in Hin.
      apply (os_walk_In c (root ++ [x]) _ _ (Hc x c HI)) in Hin.
      destruct Hin as [sub [es' [E _]]].
      rewrite <- app_assoc in E. rewrite <- (app_nil_r root) in E at 1.
      apply app_inv_head in E. discriminate E.
    + apply NoDup_flat_map.
      * now apply NoDup_names_entries.
      * intros [x c] HI. apply (IH (x, c) HI). exact (Hc x c HI).
      * intros [x1 c1] [x2 c2] [r ns] H1 H2 Hb1 Hb2. cbn [fst snd] in *.
        apply (os_walk_In c1 (root ++ [x1]) _ _ (Hc x1 c1 H1)) in Hb1.
        apply (os_walk_In c2 (root ++ [x2]) _ _ (Hc x2 c2 H2)) in Hb2.
        destruct Hb1 as [sub1 [es1 [E1 _]]].
        destruct Hb2 as [sub2 [es2 [E2 _]]].
        rewrite E1, <- !app_assoc in E2. apply app_inv_head in E2.
        injection E2 as -> _.
        apply (assoc_In es x2 c1 ND) in H1.
        apply (assoc_In es x2 c2 ND) in H2.
        congruence.
Qed.

Lemma collect_files_NoDup (input_dir : path) (allowed : list string)
    (n : node) (root : path) :
  wf n = true -> NoDup (collect_files input_dir allowed (os_walk root n)).
Proof.
  intros Hw. unfold collect_files. apply NoDup_flat_map.
  - now apply os_walk_NoDup.
  - intros [r ns] Hwalk.
    apply (os_walk_In n root r ns Hw) in Hwalk.
    destruct Hwalk as [sub [es [-> [G ->]]]].
    destruct (wf_get sub n (Dir es) Hw G) as [Hwes _].
    destruct (wf_Dir_inv es Hwes) as [_ [ND _]].
    apply NoDup_flat_map.
    + now apply filenames_NoDup.
    + intros name _. destruct (allowed_name allowed name);
        constructor; [intros []|constructor].
    + intros x y b _ _ Hx Hy.
      destruct (allowed_name allowed x); [|destruct Hx].
      destruct (allowed_name allowed y); [|destruct Hy].
      destruct Hx as [<-|[]]. destruct Hy as [E|[]].
      injection E as E _. apply app_inj_tail in E. now destruct E.
  - intros [r1 ns1] [r2 ns2] b H1 H2 Hb1 Hb2.
    apply in_flat_map in Hb1. destruct Hb1 as [x1 [_ Hb1]].
    apply in_flat_map in Hb2. destruct Hb2 as [x2 [_ Hb2]].
    destruct (allowed_name allowed x1); [|destruct Hb1].
    destruct (allowed_name allowed x2); [|destruct Hb2].
    destruct Hb1 as [<-|[]]. destruct Hb2 as [E|[]].
    injection E as E _. apply app_inj_tail in E. destruct E as [-> _].
    apply (os_walk_In n root _ _ Hw) in H1.
    apply (os_walk_In n root _ _ Hw) in H2.
    destruct H1 as [sub1 [es1 [E1 [G1 ->]]]].
    destruct H2 as [sub2 [es2 [E2 [G2 ->]]]].
    rewrite E1 in E2. apply app_inv_head in E2. subst sub2.
    rewrite G1 in G2. injection G2 as ->. reflexivity.
Qed.

(** ** Printed paths *)

Lemma append_nil_r (s : string) : (s ++ "")%string = s.
Proof. induction s as [|c s IH]; simpl; [reflexivity|]. now rewrite IH. Qed.

Lemma has_char_append (c : ascii) (s t : string) :
  PyStr.has_char c (s ++ t)%string
  = PyStr.has_char c s || PyStr.has_char c t.
Proof.
  induction s as [|d s IH]; simpl; [reflexivity|].
  now rewrite IH, orb_assoc.
Qed.

(** A sequence is cut in one way only at the first occurrence of [c]. *)
Lemma append_split_at_first (c : ascii) (l1 l2 r1 r2 : string) :
  PyStr.has_char c l1 = false -> PyStr.has_char c l2 = false ->
  (l1 ++ String c r1 = l2 ++ String c r2)%string ->
  l1 = l2 /\ r1 = r2.
Proof.
  revert l2. induction l1 as [|a l1 IH]; intros [|b l2] H1 H2 E;
    simpl in *.
  - now injection E.
  - injection E as <- _. rewrite Ascii.eqb_refl in H2. discriminate.
  - injection E as -> _. rewrite Ascii.eqb_refl in H1. discriminate.
  - injection E as -> E.
    apply orb_false_iff in H1. apply orb_false_iff in H2.
    destruct (IH l2) as [-> ->]; tauto.
Qed.

Lemma path_str_cons (x : string) (p : path) :
  path_str (x :: p) = (x ++ path_tail_str p)%string.
Proof.
  unfold path_str. destruct p as [|y p]; cbn [concat path_tail_str].
  - now rewrite append_nil_r.
  - reflexivity.
Qed.

(** Valid paths that print alike are one path. *)
Lemma path_str_inj (p : path) :
  forall q,
    forallb valid_name p = true -> forallb valid_name q = true ->
    path_str p = path_str q -> p = q.
Proof.
  induction p as [|x p IH]; intros [|y q] Hp Hq E.
  - reflexivity.
  - exfalso. rewrite path_str_cons in E. cbn [forallb] in Hq.
    apply andb_true_iff in Hq. destruct Hq as [Hy _].
    unfold valid_name in Hy. destruct y; discriminate.
  - exfalso. rewrite path_str_cons in E. cbn [forallb] in Hp.
    apply andb_true_iff in Hp. destruct Hp as [Hx _].
    unfold valid_name in Hx. destruct x; discriminate.
  - rewrite !path_str_cons in E. cbn [forallb] in Hp, Hq.
    apply andb_true_iff in Hp. destruct Hp as [Hx Hp].
    apply andb_true_iff in Hq. destruct Hq as [Hy Hq].
    unfold valid_name in Hx, Hy.
    apply andb_true_iff in Hx. destruct Hx as [_ Hx].
    apply andb_true_iff in Hy. destruct Hy as [_ Hy].
    apply negb_true_iff in Hx. apply negb_true_iff in Hy.
    destruct p as [|x' p]; destruct q as [|y' q]; cbn [path_tail_str] in E.
    + rewrite !append_nil_r in E. now subst.
    + exfalso. rewrite append_nil_r in E. subst x.
      rewrite has_char_append in Hx. cbn in Hx.
      rewrite Ascii.eqb_refl, orb_true_r in Hx. discriminate.
    + exfalso. rewrite append_nil_r in E. subst y.
      rewrite has_char_append in Hy. cbn in Hy.
      rewrite Ascii.eqb_refl, orb_true_r in Hy. discriminate.
    + destruct (append_split_at_first "/" x y _ _ Hx Hy E) as [-> E'].
      f_equal. now apply IH.
Qed.

(** ** Discovery *)

Section Discovery.

Variable input_dir : path.
Variable allowed_types : list string.

Lemma is_file_under (rel : path) (t n : node) :
  get input_dir t = Some n ->
  (is_file (input_dir ++ rel) t = true <-> exists d, get rel n = Some (File d)).
Proof.
  intros G. unfold is_file. rewrite get_app, G.
  destruct (get rel n) as [[d|es]|]; split; eauto; try discriminate;
    intros [d' H]; discriminate.
Qed.

(** Below a root that does not exist there is nothing to discover. *)
Lemma no_root_no_file (t : node) (x : path * path) :
  get input_dir t = None -> ~ is_discovered input_dir allowed_types t x.
Proof.
  intros G [_ [E [F _]]]. unfold is_file in F.
  rewrite E, get_app, G in F. discriminate.
Qed.

(** Discovery reads the tree only for where its files are. *)
Lemma is_discovered_ext (t1 t2 : node) (x : path * path) :
  (forall p, is_file p t2 = is_file p t1) ->
  (is_discovered input_dir allowed_types t2 x
   <-> is_discovered input_dir allowed_types t1 x).
Proof. intros H. unfold is_discovered. now rewrite H. Qed.

(** In a well-formed tree the printed relative path tells the discovered
    files apart. *)
Lemma discovered_key_inj (t : node) (x y : path * path) :
  wf t = true ->
  is_discovered input_dir allowed_types t x ->
  is_discovered input_dir allowed_types t y ->
  rel_key x = rel_key y -> x = y.
Proof.
  intros Hw [_ [Ex [Fx _]]] [_ [Ey [Fy _]]] K.
  destruct x as [ax rx], y as [ay ry]. cbn [fst snd] in *. subst ax ay.
  unfold rel_key in K. cbn [snd] in K.
  assert (V : forall r, is_file (input_dir ++ r) t = true ->
                        forallb valid_name r = true).
  { intros r F. unfold is_file in F.
    destruct (get (input_dir ++ r) t) as [m|] eqn:G; [|discriminate].
    destruct (wf_get _ t m Hw G) as [_ Hv].
    rewrite forallb_app in Hv. now apply andb_true_iff in Hv. }
  rewrite (path_str_inj rx ry (V rx Fx) (V ry Fy) K). reflexivity.
Qed.

(** When the root exists in a well-formed tree, the sorted list holds
    what is to be discovered, once each, in the order of the printed
    relative paths. *)
Lemma discovery_under_root (t n : node) :
  wf t = true ->
  get input_dir t = Some n ->
  let files :=
    sorted_by rel_key
      (collect_files input_dir (map PyStr.lower allowed_types)
         (os_walk input_dir n)) in
  (forall x, In x files <-> is_discovered input_dir allowed_types t x)
  /\ NoDup files
  /\ StronglySorted (key_le rel_key) files.
Proof.
  intros Hw G files.
  destruct (wf_get input_dir t n Hw G) as [Hwn _].
  pose proof (sorted_by_perm _ rel_key
                (collect_files input_dir (map PyStr.lower allowed_types)
                   (os_walk input_dir n))) as HP.
  fold files in HP. split; [|split].
  - intros [abs rel]. unfold is_discovered. cbn [fst snd]. split.
    + intros HI. apply (Permutation_in _ HP) in HI.
      apply (collect_files_In input_dir _ n abs rel Hwn) in HI.
      destruct HI as [N [-> [F Ha]]]. split; [exact N|].
      split; [reflexivity|].
      split; [now apply (is_file_under rel t n G)|].
      now apply allowed_name_qualifies.
    + intros [N [-> [F Ha]]].
      apply (Permutation_in _ (Permutation_sym HP)).
      apply (collect_files_In input_dir _ n _ rel Hwn).
      split; [exact N|]. split; [reflexivity|].
      split; [now apply (is_file_under rel t n G)|].
      now apply allowed_name_qualifies.
  - apply (Permutation_NoDup (Permutation_sym HP)).
    now apply collect_files_NoDup.
  - apply sorted_by_sorted.
Qed.

(** Two sorted lists without repetition that hold the discovered files of
    one well-formed tree are one list. *)
Lemma discovered_lists_eq (t : node) (l1 l2 : list (path * path)) :
  wf t = true ->
  (forall x, In x l1 <-> is_discovered input_dir allowed_types t x) ->
  (forall x, In x l2 <-> is_discovered input_dir allowed_types t x) ->
  NoDup l1 -> NoDup l2 ->
  StronglySorted (key_le rel_key) l1 ->
  StronglySorted (key_le rel_key) l2 ->
  l1 = l2.
Proof.
  intros Hw H1 H2 N1 N2 S1 S2.
  apply (sorted_perm_eq _ rel_key); auto.
  - intros x y Hx Hy. apply (discovered_key_inj t x y Hw); now apply H1.
  - apply NoDup_Permutation; auto. intros x. now rewrite H1, H2.
Qed.

End Discovery.

(** ** Events are only added *)

Lemma grows_ret (A : Type) (a : A) : grows (ret a).
Proof. intros w. now exists []. Qed.

Lemma grows_raise (A : Type) (e : exn) : grows (@raise A e).
Proof. intros w. now exists []. Qed.

Lemma grows_bind (A B : Type) (c : M A) (k : A -> M B) :
  grows c -> (forall a, grows (k a)) -> grows (bind c k).
Proof.
  intros Hc Hk w. unfold bind.
  destruct (Hc w) as [l Hl]. destruct (c w) as [[a|e] w1]; simpl in Hl.
  - destruct (Hk a w1) as [l' Hl']. exists (l' ++ l).
    now rewrite Hl', Hl, app_assoc.
  - now exists l.
Qed.

Lemma grows_try_except (A : Type) (c : M A) (h : exn -> M A) :
  grows c -> (forall e, grows (h e)) -> grows (try_except c h).
Proof.
  intros Hc Hh w. unfold try_except.
  destruct (Hc w) as [l Hl]. destruct (c w) as [[a|e] w1]; simpl in Hl.
  - now exists l.
  - destruct (Hh e w1) as [l' Hl']. exists (l' ++ l).
    now rewrite Hl', Hl, app_assoc.
Qed.

Lemma grows_emit (e : event) : grows (emit e).
Proof. intros w. now exists [e]. Qed.

Lemma grows_logger (lvl : log_level) (msg : string) : grows (logger lvl msg).
Proof. apply grows_emit. Qed.

Lemma grows_sys (O : oracle) (A : Type) (s : syscall)
    (body : node -> outcome A * node) : grows (sys O s body).
Proof.
  intros w. exists []. unfold sys.
  destruct (fault O (clock w) s); [reflexivity|].
  now destruct (body (fs w)).
Qed.

Lemma grows_file_write (O : oracle) (p : path) (b : bool) (c : content) :
  grows (file_write O p b c).
Proof.
  intros w. exists []. unfold file_write.
  destruct (payload b c); [|reflexivity].
  now destruct (fault O (clock w) (SysWrite p)).
Qed.

Lemma grows_now_stamp (O : oracle) : grows (now_stamp O).
Proof. intros w. now exists []. Qed.

Lemma grows_if (A : Type) (b : bool) (c1 c2 : M A) :
  grows c1 -> grows c2 -> grows (if b then c1 else c2).
Proof. now destruct b. Qed.

Create HintDb grows.
#[local] Hint Resolve grows_ret grows_raise grows_emit grows_logger grows_sys
  grows_file_write grows_now_stamp : grows.

(** Steps through a computation, one construct at a time. *)
Ltac grows_step :=
  first
    [ apply grows_bind; [|intros ?]
    | apply grows_try_except; [|intros ?]
    | apply grows_if
    | apply grows_ret
    | apply grows_raise
    | apply grows_logger
    | apply grows_emit
    | apply grows_sys
    | apply grows_file_write
    | apply grows_now_stamp
    | (intros w; now exists []) ].

Lemma no_errors_app (l m : list event) :
  no_errors (l ++ m) = true -> no_errors m = true.
Proof.
  unfold no_errors. rewrite forallb_app. intros H.
  now apply andb_true_iff in H.
Qed.

(** A logged error stays in the events of what runs next. *)
Lemma error_stays (A : Type) (c : M A) (w : world) (msg : string)
    (evs : list event) :
  grows c -> events w = EvLog ERROR msg :: evs ->
  no_errors (events (snd (c w))) = false.
Proof.
  intros G H. destruct (G w) as [l Hl]. rewrite Hl, H.
  destruct (no_errors (l ++ EvLog ERROR msg :: evs)) eqn:E; [|reflexivity].
  apply no_errors_app in E. discriminate.
Qed.

(** ** Moving the entries of a directory *)

Section MoveContents.

Variable O : oracle.

(** An entry whose name is free in the destination is moved as it is,
    unless the move is reported as failed. *)
Lemma move_entry_moved (src dst : path) (x : string) (c : node) (ss ds : list (string * node))
    (w w' : world) (r : outcome bool) :
  unrelated src dst = true ->
  get src (fs w) = Some (Dir ss) ->
  get dst (fs w) = Some (Dir ds) ->
  assoc x ss = Some c ->
  assoc x ds = None ->
  move_entry O src dst true true x w = (r, w') ->
  (exists msg, r = Ret false /\ events w' = EvLog ERROR msg :: events w)
  \/ (r = Ret true /\ events w' = events w
      /\ get src (fs w') = Some (Dir (del_entry x ss))
      /\ get dst (fs w') = Some (Dir (put_entry x c ds))
      /\ forall q, unrelated src q = true -> unrelated dst q = true ->
                   get q (fs w') = get q (fs w)).
Proof.
  intros U HS HD HxS HxD.
  assert (Usd : unrelated (src ++ [x]) (dst ++ [x]) = true)
    by (apply unrelated_app_l, unrelated_app_r, U).
  assert (Uds : unrelated (dst ++ [x]) (src ++ [x]) = true)
    by (now rewrite unrelated_sym).
  assert (Uxs : unrelated (dst ++ [x]) src = true)
    by (apply unrelated_app_l; now rewrite unrelated_sym).
  assert (Uxd : unrelated (src ++ [x]) dst = true)
    by (apply unrelated_app_l, U).
  assert (Gs : get (src ++ [x]) (fs w) = Some c)
    by (now rewrite (get_child _ _ _ _ HS)).
  assert (Gd : get (dst ++ [x]) (fs w) = None)
    by (now rewrite (get_child _ _ _ _ HD)).
  unfold move_entry, try_except, bind, os_path_exists, os_path_isdir,
    os_path_islink, ret, exists_, is_dir.
  cbv beta. rewrite Gd. cbn [andb negb]. cbv beta iota. rewrite Gs.
  destruct c as [d|es].
  - (* a file: copy2, then remove *)
    unfold shutil_copy2, os_remove, sys, logger, emit, bind, is_dir.
    destruct (fault O (clock w) (SysCopy2 (src ++ [x]) (dst ++ [x])))
      as [e|] eqn:F1; cbn.
    { intros E. injection E as <- <-. left. eexists. split; reflexivity. }
    rewrite Gs, Gd. cbv beta iota zeta. rewrite Gd, parent_child, HD. cbn.
    destruct (fault O (S (clock w)) (SysRemove (src ++ [x])))
      as [e|] eqn:F2; cbn.
    { intros E. injection E as <- <-. left. eexists. split; reflexivity. }
    rewrite get_put_unrelated, Gs by exact Uds. cbn.
    intros E. injection E as <- <-. right. cbn.
    repeat split.
    + erewrite get_del_child; [reflexivity|].
      now rewrite get_put_unrelated.
    + rewrite get_del_unrelated by exact Uxd.
      now apply get_put_child.
    + intros q Hq1 Hq2.
      rewrite get_del_unrelated by (now apply unrelated_app_l).
      now rewrite get_put_unrelated by (now apply unrelated_app_l).
  - (* a directory: copytree, then rmtree *)
    unfold shutil_copytree, shutil_rmtree, sys, logger, emit, bind, exists_.
    destruct (fault O (clock w) (SysCopytree (src ++ [x]) (dst ++ [x])))
      as [e|] eqn:F1; cbn.
    { intros E. injection E as <- <-. left. eexists. split; reflexivity. }
    rewrite Gs, Gd, (no_file_on_way_child _ x _ _ HD). cbn.
    destruct (fault O (S (clock w)) (SysRmtree (src ++ [x])))
      as [e|] eqn:F2; cbn.
    { intros E. injection E as <- <-. left. eexists. split; reflexivity. }
    rewrite get_put_unrelated, Gs, is_root_child by exact Uds. cbn.
    intros E. injection E as <- <-. right. cbn.
    repeat split.
    + erewrite get_del_child; [reflexivity|].
      now rewrite get_put_unrelated.
    + rewrite get_del_unrelated by exact Uxd.
      now apply get_put_child.
    + intros q Hq1 Hq2.
      rewrite get_del_unrelated by (now apply unrelated_app_l).
      now rewrite get_put_unrelated by (now apply unrelated_app_l).
Qed.

Lemma grows_move_entry (src dst : path) (ov pm : bool) (x : string) :
  grows (move_entry O src dst ov pm x).
Proof.
  unfold move_entry, os_path_exists, os_path_isdir, os_path_islink,
    shutil_rmtree, os_remove, shutil_copytree, shutil_copy2, shutil_move.
  repeat grows_step.
Qed.

Lemma grows_move_entries (src dst : path) (ov pm : bool) (l : list string) :
  forall count, grows (move_entries O src dst ov pm l count).
Proof.
  induction l as [|x l IH]; intros count; simpl.
  - apply grows_ret.
  - apply grows_bind; [apply grows_move_entry|]. intros moved. apply IH.
Qed.

Lemma grows_move_contents (src dst : path) (ov pm : bool) :
  grows (move_contents O src dst ov pm).
Proof.
  unfold move_contents, os_path_exists, ensure_dir, os_makedirs, os_listdir.
  repeat grows_step. apply grows_move_entries.
Qed.

(** All the entries of [src] are moved behind those of [dst], in their
    order, when no name is in both and no move is reported as failed. *)
Lemma move_entries_all (src dst : path) :
  unrelated src dst = true ->
  forall (ss ds : list (string * node)) (w w' : world) (count : Z)
         (r : outcome Z),
  get src (fs w) = Some (Dir ss) ->
  get dst (fs w) = Some (Dir ds) ->
  NoDup (names ss) ->
  (forall x, In x (names ss) -> ~ In x (names ds)) ->
  move_entries O src dst true true (names ss) count w = (r, w') ->
  no_errors (events w') = true ->
  r = Ret (count + Z.of_nat (List.length ss))%Z
  /\ get src (fs w') = Some (Dir [])
  /\ get dst (fs w') = Some (Dir (ds ++ ss))
  /\ forall q, unrelated src q = true -> unrelated dst q = true ->
               get q (fs w') = get q (fs w).
Proof.
  intros U ss. induction ss as [|[x c] ss IH];
    intros ds w w' count r HS HD ND Hdisj E NE.
  - simpl in E. injection E as <- <-. rewrite app_nil_r, Z.add_0_r.
    repeat split; auto.
  - cbn [names map fst move_entries] in E. unfold bind in E.
    destruct (move_entry O src dst true true x w) as [r1 w1] eqn:E1.
    assert (HxS : assoc x ((x, c) :: ss) = Some c)
      by (simpl; now rewrite String.eqb_refl).
    assert (HxD : assoc x ds = None)
      by (apply assoc_None_names, Hdisj; now left).
    inversion ND as [|? ? Hx ND']; subst.
    destruct (move_entry_moved src dst x c _ ds w w1 r1 U HS HD HxS HxD E1)
      as [[msg [-> Hev]]|[-> [Hev [HS1 [HD1 Hfr]]]]].
    + exfalso.
      pose proof (error_stays _ _ w1 _ _
                    (grows_move_entries src dst true true (names ss) count)
                    Hev) as K.
      unfold names in K, E. rewrite E in K. simpl in K. congruence.
    + simpl in HS1. rewrite String.eqb_refl in HS1.
      rewrite del_entry_absent in HS1 by exact Hx.
      rewrite put_entry_absent in HD1
        by (apply assoc_None_names; exact HxD).
      destruct (IH (ds ++ [(x, c)]) w1 w' (count + 1)%Z r HS1 HD1 ND')
        as [Hr [HS' [HD' Hfr']]]; [|exact E|exact NE|].
      * intros y Hy. unfold names. rewrite map_app, in_app_iff. simpl.
        intros [HI|[HI|[]]].
        -- apply (Hdisj y); [now right|exact HI].
        -- subst y. exact (Hx Hy).
      * repeat split.
        -- rewrite Hr. f_equal. cbn [List.length]. lia.
        -- exact HS'.
        -- rewrite HD', <- app_assoc. reflexivity.
        -- intros q Hq1 Hq2. rewrite Hfr', Hfr; auto.
Qed.

(** [move_contents] between two directories that exist. *)
Lemma move_contents_all (src dst : path)
    (ss ds : list (string * node)) (w w' : world) (n : Z) :
  unrelated src dst = true ->
  get src (fs w) = Some (Dir ss) ->
  get dst (fs w) = Some (Dir ds) ->
  NoDup (names ss) ->
  (forall x, In x (names ss) -> ~ In x (names ds)) ->
  move_contents O src dst true true w = (Ret n, w') ->
  no_errors (events w') = true ->
  n = Z.of_nat (List.length ss)
  /\ get src (fs w') = Some (Dir [])
  /\ get dst (fs w') = Some (Dir (ds ++ ss))
  /\ forall q, unrelated src q = true -> unrelated dst q = true ->
               get q (fs w') = get q (fs w).
Proof.
  intros U HS HD ND Hdisj E NE.
  unfold move_contents, bind, os_path_exists, exists_, ensure_dir,
    os_makedirs, os_listdir, sys in E.
  rewrite HS in E. cbn [negb] in E. cbv beta iota in E.
  destruct (fault O (clock w) (SysMakedirs dst)); [discriminate|].
  unfold is_dir in E. rewrite HD in E. cbn in E.
  destruct (fault O (S (clock w)) (SysListdir src)); [discriminate|].
  rewrite HS in E.
  pose (w2 := World (fs w) (S (S (clock w))) (events w)).
  change (move_entries O src dst true true (names ss) 0%Z w2 = (Ret n, w'))
    in E.
  destruct (move_entries_all src dst U ss ds w2 w' 0%Z (Ret n))
    as [Hr [HS' [HD' Hfr]]]; auto.
  injection Hr as ->. repeat split; auto.
Qed.

End MoveContents.

(** ** Rotation: archiving the old inputs *)

Section Rotation.

Variable O : oracle.

(** [shutil.move] either raises and changes nothing, or puts the node
    of [src] at the path it returns. *)
Lemma shutil_move_cases (src dst : path) (w w' : world)
    (r : outcome path) :
  path_eqb src dst = false ->
  shutil_move O src dst w = (r, w') ->
  events w' = events w
  /\ ((exists e, r = Raise e /\ fs w' = fs w)
      \/ (exists n real_dst,
            r = Ret real_dst
            /\ get src (fs w) = Some n
            /\ (real_dst = dst \/ real_dst = dst ++ [basename src])
            /\ fs w' = put real_dst n (del src (fs w)))).
Proof.
  intros Hne. unfold shutil_move, sys.
  destruct (fault O (clock w) (SysMove src dst)) as [e|].
  { intros E. injection E as <- <-. split; [reflexivity|]. left. eauto. }
  rewrite Hne.
  destruct (get src (fs w)) as [n|] eqn:G.
  2:{ intros E. injection E as <- <-. split; [reflexivity|]. left. eauto. }
  set (real_dst := if is_dir dst (fs w) then dst ++ [basename src] else dst).
  assert (Hrd : real_dst = dst \/ real_dst = dst ++ [basename src])
    by (unfold real_dst; destruct (is_dir dst (fs w)); auto).
  destruct (is_dir dst (fs w) && exists_ real_dst (fs w)).
  { intros E. injection E as <- <-. split; [reflexivity|]. left. eauto. }
  destruct (prefixb src real_dst).
  { intros E. injection E as <- <-. split; [reflexivity|]. left. eauto. }
  destruct n as [d|es].
  - destruct (is_dir (parent real_dst) (fs w));
      intros E; injection E as <- <-; (split; [reflexivity|]);
      [right; eauto 8|left; eauto].
  - destruct (exists_ real_dst (fs w)).
    { intros E. injection E as <- <-. split; [reflexivity|]. left. eauto. }
    destruct (no_file_on_way real_dst (fs w));
      intros E; injection E as <- <-; (split; [reflexivity|]);
      [right; eauto 8|left; eauto].
Qed.

Lemma grows_rotate_clear (inputs : path) : grows (rotate_clear O inputs).
Proof.
  unfold rotate_clear, os_path_isdir, shutil_rmtree. repeat grows_step.
Qed.

Lemma grows_rotate_step2 (inputs : path) : grows (rotate_step2 O inputs).
Proof.
  unfold rotate_step2, ensure_dir, os_makedirs, os_remove, os_path_isdir,
    os_path_exists.
  repeat grows_step.
Qed.

(** No error logged by step 1: whatever was at [inputs] is now at the
    archive path, or inside it if that was a directory already. *)
Lemma rotate_step1_moved (inputs : path) (stamp : string) (w w1 : world)
    (r : outcome string) :
  unrelated inputs (old_inputs_path_of stamp) = true ->
  rotate_step1 O inputs stamp w = (r, w1) ->
  no_errors (events w1) = true ->
  get inputs (fs w1) = None
  /\ (forall n, get inputs (fs w) = Some n ->
        r = Ret ("./" ++ path_str (old_inputs_path_of stamp))%string
        /\ exists real_dst,
             (real_dst = old_inputs_path_of stamp
              \/ real_dst = old_inputs_path_of stamp ++ [basename inputs])
             /\ get real_dst (fs w1) = Some n)
  /\ (forall q, unrelated inputs q = true ->
                unrelated (old_inputs_path_of stamp) q = true ->
                get q (fs w1) = get q (fs w)).
Proof.
  intros U E NE. set (old := old_inputs_path_of stamp) in *.
  unfold rotate_step1, bind, os_path_exists, exists_ in E.
  destruct (get inputs (fs w)) as [n|] eqn:G.
  2:{ injection E as <- <-. split; [exact G|].
      split; [discriminate|reflexivity]. }
  cbv beta iota zeta in E. fold old in E. unfold try_except, bind in E.
  destruct (shutil_move O inputs old w) as [rm wm] eqn:Em.
  destruct (shutil_move_cases inputs old w wm rm
              (unrelated_not_eqb inputs old U) Em)
    as [Hev [[e [-> Hfs]]|[n' [real_dst [-> [G' [Hrd Hfs]]]]]]].
  - (* the move raised: the error is logged *)
    exfalso. unfold logger, emit in E. cbv beta iota in E.
    match type of E with
    | (let (_, _) := ?c ?w0 in _) = _ =>
        pose proof (error_stays _ c w0 _ _ (grows_rotate_clear inputs)
                      eq_refl) as K;
        destruct (c w0) as [[[]|e2] w2]
    end; injection E as <- <-; simpl in K; congruence.
  - (* the move returned *)
    unfold ret in E. injection E as <- <-.
    rewrite G in G'. injection G' as <-.
    assert (Ur : unrelated real_dst inputs = true).
    { rewrite unrelated_sym.
      destruct Hrd as [->| ->]; [exact U|now apply unrelated_app_r]. }
    rewrite Hfs. split; [|split].
    + rewrite get_put_unrelated by exact Ur.
      apply get_del_same. intros ->. discriminate.
    + intros n0 Hn0. injection Hn0 as <-. split; [reflexivity|].
      exists real_dst. split; [exact Hrd|]. apply get_put_same.
    + intros q Hq1 Hq2.
      rewrite get_put_unrelated, get_del_unrelated; auto.
      destruct Hrd as [->| ->]; [exact Hq2|now apply unrelated_app_l].
Qed.

Lemma no_errors_before (A : Type) (c : M A) (w w' : world)
    (r : outcome A) :
  grows c -> c w = (r, w') -> no_errors (events w') = true ->
  no_errors (events w) = true.
Proof.
  intros G E NE. destruct (G w) as [l Hl]. rewrite E in Hl. simpl in Hl.
  rewrite Hl in NE. now apply no_errors_app in NE.
Qed.

(** Step 2, when nothing is at [inputs]: an empty directory is made, and
    nothing else changes. *)
Lemma rotate_step2_fresh (inputs : path) (w w' : world) :
  get inputs (fs w) = None ->
  rotate_step2 O inputs w = (Ret tt, w') ->
  get inputs (fs w') = Some (Dir [])
  /\ forall q, unrelated inputs q = true -> get q (fs w') = get q (fs w).
Proof.
  intros G E.
  unfold rotate_step2, ensure_dir, os_makedirs, sys, bind, os_path_isdir,
    os_path_exists, is_dir, exists_ in E.
  destruct (fault O (clock w) (SysMakedirs inputs)); [discriminate|].
  rewrite G in E.
  destruct (no_file_on_way inputs (fs w)); [|discriminate].
  cbn [fs] in E. rewrite get_put_same in E. cbn in E.
  injection E as <-. cbn [fs]. split; [apply get_put_same|].
  intros q Hq. now apply get_put_unrelated.
Qed.

(** Steps 1 and 2, no error logged: [inputs] is an empty directory, what
    was there is at the archive path, and the rest is as before. *)
Lemma rotate_steps12_archived (inputs : path) (w w1 : world)
    (old_str : string) :
  unrelated inputs (old_inputs_path_of (now_stamp_at O (clock w))) = true ->
  rotate_steps12 O inputs w = (Ret old_str, w1) ->
  no_errors (events w1) = true ->
  get inputs (fs w1) = Some (Dir [])
  /\ (forall n, get inputs (fs w) = Some n ->
        exists real_dst,
          (real_dst = old_inputs_path_of (now_stamp_at O (clock w))
           \/ real_dst = old_inputs_path_of (now_stamp_at O (clock w))
                         ++ [basename inputs])
          /\ get real_dst (fs w1) = Some n)
  /\ (forall q,
        unrelated inputs q = true ->
        unrelated (old_inputs_path_of (now_stamp_at O (clock w))) q = true ->
        get q (fs w1) = get q (fs w)).
Proof.
  intros U E NE.
  unfold rotate_steps12, bind, now_stamp in E.
  destruct (rotate_step1 O inputs (now_stamp_at O (clock w)) (tick w))
    as [[s|e] w2] eqn:E1; [|discriminate].
  destruct (rotate_step2 O inputs w2) as [[[]|e] w3] eqn:E2; [|discriminate].
  unfold ret in E. injection E as <- <-.
  pose proof (no_errors_before _ _ _ _ _ (grows_rotate_step2 inputs) E2 NE)
    as NE2.
  destruct (rotate_step1_moved _ _ _ _ _ U E1 NE2) as [G2 [Harch Hfr]].
  destruct (rotate_step2_fresh _ _ _ G2 E2) as [G3 Hfr3].
  split; [exact G3|]. split.
  - intros n Hn. destruct (Harch n Hn) as [_ [real_dst [Hrd Hg]]].
    exists real_dst. split; [exact Hrd|].
    rewrite Hfr3; [exact Hg|].
    destruct Hrd as [->| ->]; [exact U|now apply unrelated_app_r].
  - intros q Hq1 Hq2. rewrite Hfr3 by exact Hq1. now apply Hfr.
Qed.

Lemma grows_rotate_steps12 (inputs : path) : grows (rotate_steps12 O inputs).
Proof.
  unfold rotate_steps12, rotate_step1, os_path_exists, shutil_move.
  repeat grows_step;
    first [apply grows_rotate_clear | apply grows_rotate_step2].
Qed.

End Rotation.

(** ** What a move leaves alone *)

Section Frames.

Variable O : oracle.
Variable q : path.

Lemma keeps_ret (A : Type) (a : A) : keeps q (ret a).
Proof. intros w. reflexivity. Qed.

Lemma keeps_raise (A : Type) (e : exn) : keeps q (@raise A e).
Proof. intros w. reflexivity. Qed.

Lemma keeps_emit (e : event) : keeps q (emit e).
Proof. intros w. reflexivity. Qed.

Lemma keeps_bind (A B : Type) (c : M A) (k : A -> M B) :
  keeps q c -> (forall a, keeps q (k a)) -> keeps q (bind c k).
Proof.
  intros Hc Hk w. unfold bind. pose proof (Hc w) as H.
  destruct (c w) as [[a|e] w1]; cbn [snd] in H; [|exact H].
  now rewrite Hk.
Qed.

Lemma keeps_try_except (A : Type) (c : M A) (h : exn -> M A) :
  keeps q c -> (forall e, keeps q (h e)) -> keeps q (try_except c h).
Proof.
  intros Hc Hh w. unfold try_except. pose proof (Hc w) as H.
  destruct (c w) as [[a|e] w1]; cbn [snd] in H; [exact H|].
  now rewrite Hh.
Qed.

Lemma keeps_if (A : Type) (b : bool) (c1 c2 : M A) :
  keeps q c1 -> keeps q c2 -> keeps q (if b then c1 else c2).
Proof. now destruct b. Qed.

(** A call keeps what its body keeps. *)
Lemma keeps_sys (A : Type) (s : syscall) (body : node -> outcome A * node) :
  (forall t, get q (snd (body t)) = get q t) -> keeps q (sys O s body).
Proof.
  intros H w. unfold sys. destruct (fault O (clock w) s); [reflexivity|].
  specialize (H (fs w)). now destruct (body (fs w)).
Qed.

Lemma keeps_os_remove (p : path) :
  unrelated p q = true -> keeps q (os_remove O p).
Proof.
  intros U. apply keeps_sys. intros t.
  destruct (get p t) as [[d|es]|]; cbn [snd]; try reflexivity.
  now apply get_del_unrelated.
Qed.

Lemma keeps_shutil_rmtree (p : path) :
  unrelated p q = true -> keeps q (shutil_rmtree O p).
Proof.
  intros U. apply keeps_sys. intros t.
  destruct (get p t) as [[d|es]|]; cbn [snd]; try reflexivity.
  destruct (is_root p); cbn [snd]; [reflexivity|].
  now apply get_del_unrelated.
Qed.

Lemma keeps_os_makedirs (p : path) :
  unrelated p q = true -> keeps q (os_makedirs O p).
Proof.
  intros U. apply keeps_sys. intros t.
  destruct (is_dir p t); [reflexivity|].
  destruct (exists_ p t); [reflexivity|].
  destruct (no_file_on_way p t); cbn [snd]; [|reflexivity].
  now apply get_put_unrelated.
Qed.

Lemma keeps_os_listdir (p : path) : keeps q (os_listdir O p).
Proof.
  apply keeps_sys. intros t. now destruct (get p t) as [[d|es]|].
Qed.

Lemma keeps_shutil_copytree (src dst : path) :
  unrelated dst q = true -> keeps q (shutil_copytree O src dst).
Proof.
  intros U. apply keeps_sys. intros t.
  destruct (get src t) as [[d|es]|]; try reflexivity.
  destruct (exists_ dst t); [reflexivity|].
  destruct (no_file_on_way dst t); cbn [snd]; [|reflexivity].
  now apply get_put_unrelated.
Qed.

Lemma keeps_shutil_copy2 (src dst : path) :
  unrelated dst q = true -> keeps q (shutil_copy2 O src dst).
Proof.
  intros U. apply keeps_sys. intros t.
  destruct (get src t) as [[d|es]|]; try reflexivity.
  cbv zeta.
  set (real_dst := if is_dir dst t then dst ++ [basename src] else dst).
  assert (Ur : unrelated real_dst q = true)
    by (unfold real_dst; destruct (is_dir dst t);
        [now apply unrelated_app_l|exact U]).
  clearbody real_dst.
  destruct (is_dir real_dst t); [reflexivity|].
  destruct (is_dir (parent real_dst) t); cbn [snd]; [|reflexivity].
  now apply get_put_unrelated.
Qed.

Lemma keeps_shutil_move (src dst : path) :
  unrelated src q = true -> unrelated dst q = true ->
  keeps q (shutil_move O src dst).
Proof.
  intros Us Ud w.
  destruct (shutil_move O src dst w) as [r w'] eqn:E. cbn [snd].
  destruct (path_eqb src dst) eqn:Eq.
  - revert E. unfold shutil_move, sys. rewrite Eq.
    destruct (fault O (clock w) (SysMove src dst)).
    + intros E. now injection E as <- <-.
    + destruct (get src (fs w)); intros E; now injection E as <- <-.
  - destruct (shutil_move_cases O src dst w w' r Eq E)
      as [_ [[e [_ ->]]|[n [real_dst [_ [_ [Hrd ->]]]]]]]; [reflexivity|].
    rewrite get_put_unrelated, get_del_unrelated; auto.
    destruct Hrd as [->| ->]; [exact Ud|now apply unrelated_app_l].
Qed.

Lemma keeps_move_entry (src dst : path) (ov pm : bool) (x : string) :
  unrelated src q = true -> unrelated dst q = true ->
  keeps q (move_entry O src dst ov pm x).
Proof.
  intros Us Ud.
  pose proof (unrelated_app_l src q [x] Us) as Usx.
  pose proof (unrelated_app_l dst q [x] Ud) as Udx.
  unfold move_entry, logger, os_path_exists, os_path_isdir, os_path_islink.
  repeat first
    [ apply keeps_ret | apply keeps_emit
    | apply keeps_os_remove; assumption
    | apply keeps_shutil_rmtree; assumption
    | apply keeps_shutil_copytree; assumption
    | apply keeps_shutil_copy2; assumption
    | apply keeps_shutil_move; assumption
    | apply keeps_try_except; [|intros ?]
    | apply keeps_bind; [|intros ?]
    | apply keeps_if
    | intros ?; reflexivity ].
Qed.

Lemma keeps_move_entries (src dst : path) (ov pm : bool) (l : list string) :
  unrelated src q = true -> unrelated dst q = true ->
  forall k : Z, keeps q (move_entries O src dst ov pm l k).
Proof.
  intros Us Ud. induction l as [|x l IH]; intros k; cbn [move_entries].
  - apply keeps_ret.
  - apply keeps_bind; [now apply keeps_move_entry|intros b; apply IH].
Qed.

Lemma keeps_move_contents (src dst : path) (ov pm : bool) :
  unrelated src q = true -> unrelated dst q = true ->
  keeps q (move_contents O src dst ov pm).
Proof.
  intros Us Ud. unfold move_contents, ensure_dir.
  apply keeps_bind; [intros w; reflexivity|intros b].
  apply keeps_if; [apply keeps_ret|].
  apply keeps_bind; [now apply keeps_os_makedirs|intros _].
  apply keeps_bind; [apply keeps_os_listdir|intros l].
  now apply keeps_move_entries.
Qed.

End Frames.

Lemma keeps_os_path_exists (q p : path) : keeps q (os_path_exists p).
Proof. intros w. reflexivity. Qed.

Lemma keeps_os_path_isdir (q p : path) : keeps q (os_path_isdir p).
Proof. intros w. reflexivity. Qed.

Lemma keeps_logger (q : path) (lvl : log_level) (msg : string) :
  keeps q (logger lvl msg).
Proof. intros w. reflexivity. Qed.

(** Steps through a computation that leaves [q], up to the calls that
    write: those are left to [tac]. *)
Ltac keeps_step tac :=
  first
    [ apply keeps_ret | apply keeps_raise | apply keeps_emit
    | apply keeps_logger | apply keeps_os_path_exists
    | apply keeps_os_path_isdir | apply keeps_os_listdir
    | apply keeps_os_remove; tac
    | apply keeps_shutil_rmtree; tac
    | apply keeps_os_makedirs; tac
    | apply keeps_shutil_copytree; tac
    | apply keeps_shutil_copy2; tac
    | apply keeps_shutil_move; tac
    | apply keeps_try_except; [|intros ?]
    | apply keeps_bind; [|intros ?]
    | apply keeps_if ].

Lemma keeps_rotate_step1 (O : oracle) (q inputs : path) (stamp : string) :
  unrelated inputs q = true ->
  unrelated (old_inputs_path_of stamp) q = true ->
  keeps q (rotate_step1 O inputs stamp).
Proof.
  intros Ui Uo. unfold rotate_step1, rotate_clear.
  repeat keeps_step assumption.
Qed.

Lemma keeps_rotate_step2 (O : oracle) (q inputs : path) :
  unrelated inputs q = true -> keeps q (rotate_step2 O inputs).
Proof.
  intros Ui. unfold rotate_step2, ensure_dir.
  repeat keeps_step assumption.
Qed.

(** ** Atomic write *)

Lemma length_append (s t : string) :
  String.length (s ++ t)%string = (String.length s + String.length t)%nat.
Proof. induction s as [|c s IH]; simpl; [reflexivity|]. now rewrite IH. Qed.

Lemma unrelated_siblings (d : path) (x y : string) :
  x <> y -> unrelated (d ++ [x]) (d ++ [y]) = true.
Proof.
  intros N. unfold unrelated. induction d as [|z d IH]; simpl.
  - apply String.eqb_neq in N. rewrite N.
    rewrite String.eqb_sym in N. now rewrite N.
  - rewrite String.eqb_refl. exact IH.
Qed.

(** The temporary sibling is neither the destination nor above or below
    it. *)
Lemma tmp_path_unrelated (p : path) :
  p <> [] -> unrelated (tmp_path_of p) p = true.
Proof.
  intros N. unfold tmp_path_of, parent, basename.
  rewrite (app_removelast_last ""%string N) at 3.
  apply unrelated_siblings. intros E.
  apply (f_equal String.length) in E.
  rewrite !length_append in E. simpl in E. lia.
Qed.

Lemma tmp_path_not_root (p : path) : is_root (tmp_path_of p) = false.
Proof. apply is_root_child. Qed.

Section AtomicWrite.

Variable O : oracle.

(** [open] leaves what is not at the opened path. *)
Lemma open_write_frame (t q : path) (w : world) :
  unrelated t q = true ->
  get q (fs (snd (open_write O t w))) = get q (fs w).
Proof.
  intros U. unfold open_write, sys.
  destruct (fault O (clock w) (SysOpen t)); [reflexivity|].
  destruct (is_dir t (fs w)); [reflexivity|].
  destruct (is_dir (parent t) (fs w)); [|reflexivity].
  cbn. now apply get_put_unrelated.
Qed.

(** [write] leaves what is not at the written path. *)
Lemma file_write_frame (t q : path) (b : bool) (c : content) (w : world) :
  unrelated t q = true ->
  get q (fs (snd (file_write O t b c w))) = get q (fs w).
Proof.
  intros U. unfold file_write.
  destruct (payload b c); [|reflexivity].
  destruct (fault O (clock w) (SysWrite t)); cbn;
    now apply get_put_unrelated.
Qed.

(** [write] returns only when the whole payload is in the file. *)
Lemma file_write_ret (t : path) (b : bool) (c : content) (w w' : world) :
  file_write O t b c w = (Ret tt, w') ->
  exists data, payload b c = Some data
               /\ fs w' = put t (File data) (fs w).
Proof.
  unfold file_write. destruct (payload b c) as [data|]; [|discriminate].
  destruct (fault O (clock w) (SysWrite t)); [discriminate|].
  intros E. injection E as <-. now exists data.
Qed.

(** [os.replace] changes nothing when it raises, and otherwise puts the
    node of the source at the destination, unless the two are one. *)
Lemma os_replace_cases (t p : path) (w w' : world) (r : outcome unit) :
  path_eqb t p = false ->
  os_replace O t p w = (r, w') ->
  (exists e, r = Raise e /\ fs w' = fs w)
  \/ (exists n, r = Ret tt /\ get t (fs w) = Some n
                /\ fs w' = put p n (del t (fs w))).
Proof.
  intros Hne. unfold os_replace, sys.
  destruct (fault O (clock w) (SysReplace t p)) as [e|].
  { intros E. injection E as <- <-. left. eauto. }
  rewrite Hne.
  destruct (get t (fs w)) as [n|] eqn:G.
  2:{ intros E. injection E as <- <-. left. eauto. }
  destruct (negb (is_dir (parent p) (fs w))).
  { intros E. injection E as <- <-. left. eauto. }
  destruct n as [d|es]; destruct (get p (fs w)) as [[d'|[|e' es']]|];
    try (intros E; injection E as <- <-; left; eauto; fail);
    destruct (prefixb t p);
    intros E; injection E as <- <-;
    first [left; eauto; fail | right; eauto].
Qed.

(** [os.remove] leaves what is not at the removed path, and returns only
    when nothing is left there. *)
Lemma os_remove_cases (t : path) (w w' : world) (r : outcome unit) :
  is_root t = false ->
  os_remove O t w = (r, w') ->
  (forall q, unrelated t q = true -> get q (fs w') = get q (fs w))
  /\ (r = Ret tt -> get t (fs w') = None).
Proof.
  intros Hr. unfold os_remove, sys.
  destruct (fault O (clock w) (SysRemove t)) as [e|].
  { intros E. injection E as <- <-. split; [reflexivity|discriminate]. }
  destruct (get t (fs w)) as [[d|es]|] eqn:G;
    intros E; injection E as <- <-; cbn;
    (split; [|try discriminate]).
  - intros q Hq. now apply get_del_unrelated.
  - intros _. apply get_del_same. intros ->. discriminate.
  - reflexivity.
  - reflexivity.
Qed.

(** The [try] block: the destination holds the whole payload when it
    returns, and is as before when it raises. *)
Lemma atomic_write_try_cases (p : path) (c : content) (mode : option bool)
    (w w' : world) (r : outcome unit) :
  p <> [] ->
  atomic_write_try O p c mode w = (r, w') ->
  match r with
  | Ret _ =>
      exists data,
        payload (binary_mode mode c) c = Some data
        /\ get p (fs w') = Some (File data)
        /\ get (tmp_path_of p) (fs w') = None
  | Raise _ => get p (fs w') = get p (fs w)
  end.
Proof.
  intros N. pose proof (tmp_path_unrelated p N) as U.
  unfold atomic_write_try, bind.
  pose proof (open_write_frame (tmp_path_of p) p w U) as F1.
  destruct (open_write O (tmp_path_of p) w) as [[[]|e1] w1];
    cbn [snd] in F1.
  2:{ intros E. injection E as <- <-. exact F1. }
  pose proof (file_write_frame (tmp_path_of p) p (binary_mode mode c) c
                w1 U) as F2.
  destruct (file_write O (tmp_path_of p) (binary_mode mode c) c w1)
    as [[[]|e2] w2] eqn:E2; cbn [snd] in F2.
  2:{ intros E. injection E as <- <-. congruence. }
  destruct (file_write_ret _ _ _ _ _ E2) as [data [Hp Hfs2]].
  intros E3.
  destruct (os_replace_cases _ _ _ _ _ (unrelated_not_eqb _ _ U) E3)
    as [[e [-> Hfs]]|[n [-> [Gn Hfs]]]].
  - rewrite Hfs. congruence.
  - rewrite Hfs2, get_put_same in Gn. injection Gn as <-.
    exists data. split; [exact Hp|]. rewrite Hfs. split.
    + apply get_put_same.
    + rewrite get_put_unrelated by (now rewrite unrelated_sym).
      apply get_del_same. intros H. pose proof (tmp_path_not_root p) as K.
      rewrite H in K. discriminate.
Qed.

(** The [except] block raises the error again, leaves what is not the
    temporary file, and leaves the temporary file only if its removal
    raised. *)
Lemma atomic_write_cleanup_cases (p : path) (e : exn) (w w' : world)
    (r : outcome unit) :
  atomic_write_cleanup O p e w = (r, w') ->
  r = Raise e
  /\ (forall q, unrelated (tmp_path_of p) q = true ->
                get q (fs w') = get q (fs w))
  /\ (get (tmp_path_of p) (fs w') = None
      \/ exists w2 e2, os_remove O (tmp_path_of p) w2 = (Raise e2, w')).
Proof.
  unfold atomic_write_cleanup, bind, os_path_exists, exists_, try_except,
    raise, ret.
  destruct (get (tmp_path_of p) (fs w)) as [n|] eqn:G.
  - destruct (os_remove O (tmp_path_of p) w) as [[[]|e2] w2] eqn:E2;
      intros E; injection E as <- <-;
      destruct (os_remove_cases _ _ _ _ (tmp_path_not_root p) E2)
        as [Hfr Hgone];
      (split; [reflexivity|]); (split; [exact Hfr|]).
    + left. now apply Hgone.
    + right. eauto.
  - intros E. injection E as <- <-.
    split; [reflexivity|]. split; [reflexivity|]. now left.
Qed.

End AtomicWrite.

(** ** The size gate *)

Section SizeGate.

Variable O : oracle.

(** [get_file_size] always returns, and leaves the tree; it adds at most
    a warning to the events. *)
Lemma get_file_size_returns (filepath : path) (w : world) :
  exists size w1,
    get_file_size O filepath w = (Ret size, w1)
    /\ fs w1 = fs w
    /\ (events w1 = events w
        \/ exists msg, events w1 = EvLog WARNING msg :: events w).
Proof.
  unfold get_file_size, try_except, sys, bind, logger, emit, ret.
  destruct (fault O (clock w) (SysGetsize filepath)) as [e|].
  { cbn. eexists. eexists. split; [reflexivity|]. cbn. eauto. }
  destruct (get filepath (fs w)) as [[d|es]|]; cbn;
    eexists; eexists; (split; [reflexivity|]); cbn; eauto.
Qed.

(** A file over the limit: the body of the loop records one failure
    with the message of the size check, adds the SKIPPED line to the
    report, and goes to the next file; the tree is as before and the
    events added are warnings. *)
Lemma process_file_oversize (cfg : config) (dry_run : bool)
    (stats : ConversionStats) (run_report : list string)
    (input_abs_path input_rel_path : path) (w w1 : world) (size : Z) :
  get_file_size O input_abs_path w = (Ret size, w1) ->
  exceeds size (max_file_size_mb cfg) = true ->
  exists w',
    process_file O cfg dry_run (stats, run_report)
      (input_abs_path, input_rel_path) w
    = (Ret (add_failure stats (path_str input_rel_path)
              (size_exceeded_msg O size (max_file_size_mb cfg)),
            run_report
            ++ [("SKIPPED (size): " ++ path_str input_rel_path ++ " - "
                 ++ size_exceeded_msg O size (max_file_size_mb cfg))%string]),
       w')
    /\ fs w' = fs w
    /\ exists ws, events w' = ws ++ events w
                  /\ Forall (fun e => exists msg, e = EvLog WARNING msg) ws.
Proof.
  intros E X.
  destruct (get_file_size_returns input_abs_path w)
    as [size0 [w0 [E0 [Hfs0 Hev0]]]].
  rewrite E in E0. injection E0 as <- <-.
  unfold process_file, check_file_size, bind. rewrite E, X.
  cbn. eexists. split; [reflexivity|]. cbn. split; [exact Hfs0|].
  destruct Hev0 as [->|[msg0 ->]].
  - eexists [_]. split; [reflexivity|]. repeat constructor. eauto.
  - eexists [_; _]. split; [reflexivity|]. repeat constructor; eauto.
Qed.

End SizeGate.

(** ** Output naming *)

(** Names are distinct as soon as the target extension holds no dot and
    the source extension no underscore. *)
Lemma generate_output_filename_inj_gen (b1 s1 t1 b2 s2 t2 : string) :
  PyStr.has_char "." t1 = false -> PyStr.has_char "." t2 = false ->
  PyStr.has_char "_" s1 = false -> PyStr.has_char "_" s2 = false ->
  generate_output_filename b1 s1 t1 = generate_output_filename b2 s2 t2 ->
  b1 = b2 /\ s1 = s2 /\ t1 = t2.
Proof.
  unfold generate_output_filename. intros Ht1 Ht2 Hs1 Hs2 E.
  change (b1 ++ "_from_" ++ s1 ++ "." ++ t1)%string
    with (b1 ++ "_from_" ++ s1 ++ String "." t1)%string in E.
  change (b2 ++ "_from_" ++ s2 ++ "." ++ t2)%string
    with (b2 ++ "_from_" ++ s2 ++ String "." t2)%string in E.
  rewrite <- !append_assoc in E.
  apply append_split_at_last in E; try assumption.
  destruct E as [E ->].
  rewrite !append_assoc in E.
  change ("_from_" ++ s1)%string with ("_from" ++ String "_" s1)%string in E.
  change ("_from_" ++ s2)%string with ("_from" ++ String "_" s2)%string in E.
  rewrite <- !append_assoc in E.
  apply append_split_at_last in E; try assumption.
  destruct E as [E ->].
  apply append_inv_tail in E. now subst.
Qed.

(** The extensions of the registry hold neither dot nor underscore. *)
Lemma registry_extension_plain (ext : string) :
  In ext EXPORT_METHODS_keys ->
  PyStr.has_char "." ext = false /\ PyStr.has_char "_" ext = false.
Proof.
  cbn. intros [<-|[<-|[<-|[<-|[<-|[]]]]]]; split; reflexivity.
Qed.

(** Over the extensions of the registry, distinct triples give distinct
    names. *)
Lemma generate_output_filename_inj_registry (b1 s1 t1 b2 s2 t2 : string) :
  In s1 EXPORT_METHODS_keys -> In s2 EXPORT_METHODS_keys ->
  In t1 EXPORT_METHODS_keys -> In t2 EXPORT_METHODS_keys ->
  generate_output_filename b1 s1 t1 = generate_output_filename b2 s2 t2 ->
  (b1, s1, t1) = (b2, s2, t2).
Proof.
  intros Hs1 Hs2 Ht1 Ht2 E.
  destruct (registry_extension_plain s1 Hs1) as [_ Us1].
  destruct (registry_extension_plain s2 Hs2) as [_ Us2].
  destruct (registry_extension_plain t1 Ht1) as [Dt1 _].
  destruct (registry_extension_plain t2 Ht2) as [Dt2 _].
  destruct (generate_output_filename_inj_gen b1 s1 t1 b2 s2 t2
              Dt1 Dt2 Us1 Us2 E) as [-> [-> ->]].
  reflexivity.
Qed.

(** ** Calls that add no event *)

Lemma silent_ret (A : Type) (a : A) : silent (ret a).
Proof. intros w. reflexivity. Qed.

Lemma silent_raise (A : Type) (e : exn) : silent (@raise A e).
Proof. intros w. reflexivity. Qed.

Lemma silent_bind (A B : Type) (c : M A) (k : A -> M B) :
  silent c -> (forall a, silent (k a)) -> silent (bind c k).
Proof.
  intros Hc Hk w. unfold bind. pose proof (Hc w) as H.
  destruct (c w) as [[a|e] w1]; cbn in H; [|exact H].
  now rewrite Hk.
Qed.

Lemma silent_try_except (A : Type) (c : M A) (h : exn -> M A) :
  silent c -> (forall e, silent (h e)) -> silent (try_except c h).
Proof.
  intros Hc Hh w. unfold try_except. pose proof (Hc w) as H.
  destruct (c w) as [[a|e] w1]; cbn in H; [exact H|].
  now rewrite Hh.
Qed.

Lemma silent_if (A : Type) (b : bool) (c1 c2 : M A) :
  silent c1 -> silent c2 -> silent (if b then c1 else c2).
Proof. now destruct b. Qed.

Lemma silent_sys (O : oracle) (A : Type) (s : syscall)
    (body : node -> outcome A * node) : silent (sys O s body).
Proof.
  intros w. unfold sys. destruct (fault O (clock w) s); [reflexivity|].
  now destruct (body (fs w)).
Qed.

Lemma silent_file_write (O : oracle) (p : path) (b : bool) (c : content) :
  silent (file_write O p b c).
Proof.
  intros w. unfold file_write. destruct (payload b c); [|reflexivity].
  now destruct (fault O (clock w) (SysWrite p)).
Qed.

Lemma silent_os_path_exists (p : path) : silent (os_path_exists p).
Proof. intros w. reflexivity. Qed.

Lemma silent_atomic_write (O : oracle) (p : path) (c : content)
    (mode : option bool) : silent (atomic_write O p c mode).
Proof.
  unfold atomic_write, atomic_write_try, atomic_write_cleanup, open_write,
    os_replace, os_remove.
  repeat first
    [ apply silent_try_except; [|intros ?]
    | apply silent_bind; [|intros ?]
    | apply silent_if
    | apply silent_sys
    | apply silent_file_write
    | apply silent_os_path_exists
    | apply silent_ret
    | apply silent_raise ].
Qed.

(** When the atomic write returns, the destination holds the payload. *)
Lemma atomic_write_ret (O : oracle) (p : path) (c : content)
    (mode : option bool) (w w' : world) :
  p <> [] ->
  atomic_write O p c mode w = (Ret tt, w') ->
  exists data,
    payload (binary_mode mode c) c = Some data
    /\ get p (fs w') = Some (File data).
Proof.
  intros N E. unfold atomic_write, try_except in E.
  destruct (atomic_write_try O p c mode w) as [[[]|e] w1] eqn:E1.
  - injection E as <-.
    destruct (atomic_write_try_cases O p c mode w w1 (Ret tt) N E1)
      as [data [Hp [Hg _]]].
    eauto.
  - destruct (atomic_write_cleanup_cases O p e w1 w' (Ret tt) E) as [H _].
    discriminate H.
Qed.

(** ** Events of one kind *)

Section AddsOnly.

Variable P : event -> Prop.

Lemma adds_only_silent (A : Type) (c : M A) : silent c -> adds_only P c.
Proof. intros H w. exists []. split; [apply H|constructor]. Qed.

Lemma adds_only_emit (e : event) : P e -> adds_only P (emit e).
Proof. intros H w. exists [e]. split; [reflexivity|]. now constructor. Qed.

Lemma adds_only_bind (A B : Type) (c : M A) (k : A -> M B) :
  adds_only P c -> (forall a, adds_only P (k a)) -> adds_only P (bind c k).
Proof.
  intros Hc Hk w. unfold bind.
  destruct (Hc w) as [l [Hl Fl]]. destruct (c w) as [[a|e] w1]; cbn in Hl.
  - destruct (Hk a w1) as [l' [Hl' Fl']]. exists (l' ++ l). split.
    + now rewrite Hl', Hl, app_assoc.
    + apply Forall_app. now split.
  - now exists l.
Qed.

Lemma adds_only_try_except (A : Type) (c : M A) (h : exn -> M A) :
  adds_only P c -> (forall e, adds_only P (h e)) ->
  adds_only P (try_except c h).
Proof.
  intros Hc Hh w. unfold try_except.
  destruct (Hc w) as [l [Hl Fl]]. destruct (c w) as [[a|e] w1]; cbn in Hl.
  - now exists l.
  - destruct (Hh e w1) as [l' [Hl' Fl']]. exists (l' ++ l). split.
    + now rewrite Hl', Hl, app_assoc.
    + apply Forall_app. now split.
Qed.

Lemma adds_only_if (A : Type) (b : bool) (c1 c2 : M A) :
  adds_only P c1 -> adds_only P c2 -> adds_only P (if b then c1 else c2).
Proof. now destruct b. Qed.

End AddsOnly.

(** ** The processing pipeline *)

Section Processing.

Variable O : oracle.

(** [convert_document] catches what its attempts raise. *)
Lemma convert_loop_returns (n : nat) (input_path output_path : path)
    (output_ext : string) (retry_attempts : Z) (retry_delay : Q) :
  forall (attempt : Z) (w : world),
  exists res w',
    convert_loop O n input_path output_path output_ext attempt retry_attempts
      retry_delay w = (Ret res, w').
Proof.
  induction n as [|n IH]; intros attempt w; cbn [convert_loop].
  - unfold ret. eauto.
  - unfold bind at 1. unfold try_except.
    destruct (bind (convert_try O input_path output_path output_ext attempt
                      retry_attempts retry_delay)
                (fun res => ret (Some res)) w) as [[r|e] w1] eqn:E1.
    + destruct r as [res|]; [unfold ret; eauto|apply IH].
    + unfold convert_except.
      destruct (attempt <? retry_attempts)%Z;
        unfold bind, logger, emit, ret; cbn; [apply IH|eauto].
Qed.

(** What the three updates of the statistics keep is kept by the
    processing of an output type, of a file, of all files. *)
Section Preserved.

Variable P : ConversionStats -> Prop.
Hypothesis P_success : forall st size, P st -> P (add_success st size).
Hypothesis P_failure : forall st f r, P st -> P (add_failure st f r).
Hypothesis P_skip : forall st, P st -> P (add_skip st).

Lemma convert_to_preserves (cfg : config) (dry_run : bool)
    (input_abs_path input_rel_path : path) (output_ext : string)
    (st : ConversionStats * list string) (w : world) :
  P (fst st) ->
  exists st' w',
    convert_to O cfg dry_run input_abs_path input_rel_path st output_ext w
    = (Ret st', w')
    /\ P (fst st').
Proof.
  destruct st as [stats run_report]. cbn [fst]. intros HP.
  unfold convert_to.
  destruct (String.eqb output_ext _); [unfold ret; eauto|].
  destruct dry_run; [unfold ret; eauto|].
  unfold bind, convert_document.
  match goal with
  | |- context [convert_loop O ?n ?a ?b ?c ?d ?e ?f w] =>
      destruct (convert_loop_returns n a b c e f d w)
        as [[success message] [w1 E1]]; rewrite E1
  end.
  destruct success.
  - destruct (get_file_size_returns O input_abs_path w1)
      as [size [w2 [E2 _]]]. rewrite E2. unfold ret. eauto.
  - unfold logger, emit, ret. eauto.
Qed.

Lemma convert_to_each_preserves (cfg : config) (dry_run : bool)
    (input_abs_path input_rel_path : path) (exts : list string) :
  forall (st : ConversionStats * list string) (w : world),
  P (fst st) ->
  exists st' w',
    convert_to_each O cfg dry_run input_abs_path input_rel_path exts st w
    = (Ret st', w')
    /\ P (fst st').
Proof.
  induction exts as [|ext exts IH]; intros st w HP; cbn [convert_to_each].
  - unfold ret. eauto.
  - unfold bind.
    destruct (convert_to_preserves cfg dry_run input_abs_path input_rel_path
                ext st w HP) as [st1 [w1 [E1 HP1]]].
    rewrite E1. now apply IH.
Qed.

Lemma process_file_preserves (cfg : config) (dry_run : bool)
    (file : path * path) (st : ConversionStats * list string) (w : world) :
  P (fst st) ->
  exists st' w',
    process_file O cfg dry_run st file w = (Ret st', w') /\ P (fst st').
Proof.
  destruct st as [stats run_report]. destruct file as [a r].
  cbn [fst]. intros HP.
  unfold process_file, check_file_size, bind.
  destruct (get_file_size_returns O a w) as [size [w1 [E1 _]]]. rewrite E1.
  destruct (exceeds size (max_file_size_mb cfg)); unfold ret; cbn [negb].
  - unfold bind, logger, emit, ret. eauto.
  - now apply convert_to_each_preserves.
Qed.

Lemma process_files_preserves (cfg : config) (dry_run : bool)
    (files : list (path * path)) :
  forall (st : ConversionStats * list string) (w : world),
  P (fst st) ->
  exists st' w',
    process_files O cfg dry_run files st w = (Ret st', w') /\ P (fst st').
Proof.
  induction files as [|file files IH]; intros st w HP; cbn [process_files].
  - unfold ret. eauto.
  - unfold bind.
    destruct (process_file_preserves cfg dry_run file st w HP)
      as [st1 [w1 [E1 HP1]]].
    rewrite E1. now apply IH.
Qed.

End Preserved.

(** The conversions of a run are those of the files it processes: what
    is done for a file adds no conversion of another file. *)
Section OtherFiles.

Variable p : path.

Ltac quiet_by tac :=
  repeat first
    [ tac
    | apply adds_only_silent;
      first [ apply silent_ret | apply silent_raise | apply silent_sys
            | apply silent_atomic_write ]
    | apply adds_only_bind; [|intros ?]
    | apply adds_only_try_except; [|intros ?]
    | apply adds_only_if
    | apply adds_only_emit; unfold not_convert_of; discriminate
    | match goal with
      | |- adds_only _ (match ?x with _ => _ end) => destruct x
      end ].

Ltac quiet := quiet_by fail.

Lemma get_file_size_quiet (filepath : path) :
  adds_only (not_convert_of p) (get_file_size O filepath).
Proof. unfold get_file_size, logger. quiet. Qed.

Lemma converter_document_quiet (input_path : path) :
  input_path <> p ->
  adds_only (not_convert_of p) (converter_document O input_path).
Proof.
  intros N w. exists [EvConvert input_path]. unfold converter_document.
  split.
  - now destruct (converter_convert O (clock w) input_path).
  - constructor; [|constructor]. intros H. injection H as H. now apply N.
Qed.

Lemma convert_try_quiet (input_path output_path : path)
    (output_ext : string) (attempt retry_attempts : Z) (retry_delay : Q) :
  input_path <> p ->
  adds_only (not_convert_of p)
    (convert_try O input_path output_path output_ext attempt retry_attempts
       retry_delay).
Proof.
  intros N.
  unfold convert_try, time_sleep, logger, os_makedirs, call_export.
  quiet_by ltac:(now apply converter_document_quiet).
Qed.

Lemma convert_loop_quiet (n : nat) (input_path output_path : path)
    (output_ext : string) (retry_attempts : Z) (retry_delay : Q) :
  input_path <> p ->
  forall attempt : Z,
  adds_only (not_convert_of p)
    (convert_loop O n input_path output_path output_ext attempt
       retry_attempts retry_delay).
Proof.
  intros N. induction n as [|n IH]; intros attempt; cbn [convert_loop].
  - quiet.
  - unfold convert_except, logger.
    quiet_by ltac:(first [now apply convert_try_quiet | apply IH]).
Qed.

Lemma convert_to_quiet (cfg : config) (dry_run : bool)
    (input_abs_path input_rel_path : path) (output_ext : string)
    (st : ConversionStats * list string) :
  input_abs_path <> p ->
  adds_only (not_convert_of p)
    (convert_to O cfg dry_run input_abs_path input_rel_path st output_ext).
Proof.
  intros N. destruct st as [stats run_report].
  unfold convert_to, convert_document, logger.
  quiet_by ltac:(first [ now apply convert_loop_quiet
                       | apply get_file_size_quiet ]).
Qed.

Lemma convert_to_each_quiet (cfg : config) (dry_run : bool)
    (input_abs_path input_rel_path : path) (exts : list string) :
  input_abs_path <> p ->
  forall st : ConversionStats * list string,
  adds_only (not_convert_of p)
    (convert_to_each O cfg dry_run input_abs_path input_rel_path exts st).
Proof.
  intros N. induction exts as [|ext exts IH]; intros st;
    cbn [convert_to_each];
    quiet_by ltac:(first [now apply convert_to_quiet | apply IH]).
Qed.

Lemma process_file_quiet (cfg : config) (dry_run : bool)
    (file : path * path) (st : ConversionStats * list string) :
  fst file <> p ->
  adds_only (not_convert_of p) (process_file O cfg dry_run st file).
Proof.
  destruct st as [stats run_report]. destruct file as [a r]. cbn [fst].
  intros N. unfold process_file, check_file_size, logger.
  quiet_by ltac:(first [ apply get_file_size_quiet
                       | now apply convert_to_each_quiet ]).
Qed.

Lemma process_files_quiet (cfg : config) (dry_run : bool)
    (files : list (path * path)) :
  (forall file, In file files -> fst file <> p) ->
  forall st : ConversionStats * list string,
  adds_only (not_convert_of p) (process_files O cfg dry_run files st).
Proof.
  induction files as [|file files IH]; intros N st; cbn [process_files].
  - quiet.
  - apply adds_only_bind; [|intros st1].
    + apply process_file_quiet, N. now left.
    + apply IH. intros f Hf. apply N. now right.
Qed.

End OtherFiles.

(** The files are processed one after the other. *)
Lemma process_files_app (cfg : config) (dry_run : bool)
    (pre post : list (path * path)) :
  forall (st : ConversionStats * list string) (w : world),
  process_files O cfg dry_run (pre ++ post) st w
  = bind (process_files O cfg dry_run pre st)
      (process_files O cfg dry_run post) w.
Proof.
  induction pre as [|file pre IH]; intros st w; cbn [process_files app].
  - reflexivity.
  - unfold bind.
    destruct (process_file O cfg dry_run st file w) as [[st1|e] w1];
      [exact (IH st1 w1)|reflexivity].
Qed.

Lemma consistent_add_success (st : ConversionStats) (size : Z) :
  consistent st -> consistent (add_success st size).
Proof. exact (fun H => H). Qed.

Lemma consistent_add_failure (st : ConversionStats) (f r : string) :
  consistent st -> consistent (add_failure st f r).
Proof.
  unfold consistent. cbn. intros ->. rewrite length_app. cbn. lia.
Qed.

Lemma consistent_add_skip (st : ConversionStats) :
  consistent st -> consistent (add_skip st).
Proof. exact (fun H => H). Qed.

(** [summary] reads the clock and returns. *)
Lemma summary_returns (st : ConversionStats) (w : world) :
  exists lines, summary O st w = (Ret lines, tick w).
Proof. unfold summary, bind, elapsed_time, ret. eauto. Qed.

(** [run_conversions] raises only when the converter cannot be made; when
    it returns, the statistics are consistent, they count the discovered
    files, and the report is there exactly when a file was found: the
    lines of the processing, an empty line and the summary. *)
Lemma run_conversions_cases (cfg : config) (dry_run : bool) (w w' : world)
    (r : outcome (ConversionStats * option (list string))) :
  run_conversions O cfg dry_run w = (r, w') ->
  match r with
  | Raise e =>
      dry_run = false
      /\ fault O (S (clock w)) SysInitConverter = Some e
      /\ count_converts (events w') = count_converts (events w)
  | Ret (stats, report) =>
      consistent stats
      /\ exists input_files w0,
           list_input_files (dir_inputs cfg) (input_types cfg) w0
           = (Ret input_files, snd (list_input_files (dir_inputs cfg)
                                      (input_types cfg) w0))
           /\ total_files stats = Z.of_nat (List.length input_files)
           /\ match input_files with
              | [] => report = None
              | _ :: _ =>
                  exists header w1 run_report w2 lines,
                    process_files O cfg dry_run input_files
                      (set_total_files (Z.of_nat (List.length input_files))
                         (Stats 0 0 0 0 0 [] (time_at O (clock w))),
                       header) w1
                    = (Ret (stats, run_report), w2)
                    /\ summary O stats w2 = (Ret lines, w')
                    /\ report = Some (run_report ++ [""%string] ++ lines)
              end
  end.
Proof.
  unfold run_conversions, ConversionStats_init. unfold bind at 1.
  set (st0 := Stats 0 0 0 0 0 [] (time_at O (clock w))).
  unfold bind at 1.
  match goal with
  | |- context [(if negb dry_run then ?a else ?b) (tick w)] =>
      set (X := (if negb dry_run then a else b) (tick w))
  end.
  assert (Hinit :
    match fst X with
    | Raise e =>
        dry_run = false
        /\ fault O (S (clock w)) SysInitConverter = Some e
        /\ count_converts (events (snd X)) = count_converts (events w)
    | Ret _ => True
    end).
  { subst X. destruct dry_run; cbn [negb]; [exact I|].
    unfold try_except, sys, bind, logger, emit, raise. cbn.
    destruct (fault O (S (clock w)) SysInitConverter) as [e|]; cbn;
      [|exact I].
    repeat split. }
  destruct X as [[[]|e] w1]; cbn [fst snd] in Hinit.
  2:{ intros E. injection E as <- <-. exact Hinit. }
  clear Hinit. unfold bind at 1.
  destruct (list_input_files (dir_inputs cfg) (input_types cfg) w1)
    as [[input_files|e] w2] eqn:E2.
  2:{ exfalso. unfold list_input_files in E2.
      destruct (get (dir_inputs cfg) (fs w1)); discriminate. }
  assert (Hc0 : consistent
                  (set_total_files (Z.of_nat (List.length input_files)) st0))
    by reflexivity.
  destruct input_files as [|file files].
  - unfold bind, logger, emit, ret. intros E. injection E as <- <-.
    split; [exact Hc0|]. exists [], w1. rewrite E2. cbn. auto.
  - unfold bind at 1. unfold report_header at 1.
    set (header := _ : list string).
    set (n_files := Z.of_nat (List.length (file :: files))) in *.
    unfold bind at 1.
    destruct (process_files_preserves
                (fun st => consistent st /\ total_files st = n_files)
                ltac:(intros ? ? [? ?]; split; [assumption|assumption])
                ltac:(intros ? ? ? [? ?]; split;
                      [now apply consistent_add_failure|assumption])
                ltac:(intros ? [? ?]; split; [assumption|assumption])
                cfg dry_run (file :: files)
                (set_total_files n_files st0, header) (tick w2))
      as [[stats run_report] [w3 [E3 [Hc Ht]]]]; [split; reflexivity|].
    cbn [fst] in Hc, Ht. rewrite E3.
    unfold bind at 1.
    destruct (summary_returns stats w3) as [lines E4]. rewrite E4.
    unfold ret. intros E. injection E as <- <-.
    split; [exact Hc|]. exists (file :: files), w1. rewrite E2.
    split; [reflexivity|]. split; [exact Ht|].
    exists header, (tick w2), run_report, w3, lines. auto.
Qed.

(** Nothing that goes wrong while the report is saved gets out. *)
Lemma save_report_returns (cfg : config) (run_report : list string)
    (w : world) :
  exists w', save_report O cfg run_report w = (Ret tt, w').
Proof.
  unfold save_report, bind, now_stamp, try_except.
  destruct (ensure_dir O (dir_outputs cfg) (tick w)) as [[[]|e] w1];
    [destruct (atomic_write O _ _ None w1) as [[[]|e] w2]|];
    unfold logger, emit; eauto.
Qed.

(** Saving the default configuration never raises. *)
Lemma save_default_config_returns (config_path : path) (w : world) :
  exists w', save_default_config O config_path w = (Ret tt, w').
Proof.
  unfold save_default_config, try_except, bind.
  destruct (open_write O config_path w) as [[[]|e] w1];
    [destruct (file_write O config_path false _ w1) as [[[]|e] w2]|];
    unfold logger, emit; eauto.
Qed.

(** The report is at its path when the saving went through; otherwise
    the error is logged. *)
Lemma save_report_cases (cfg : config) (run_report : list string)
    (w w' : world) :
  save_report O cfg run_report w = (Ret tt, w') ->
  (get (dir_outputs cfg ++ [report_filename (now_stamp_at O (clock w))])
     (fs w')
   = Some (File (String.concat PyStr.newline run_report))
   /\ events w' = events w)
  \/ exists msg, events w' = EvLog ERROR msg :: events w.
Proof.
  unfold save_report, bind, now_stamp, try_except.
  pose proof (silent_sys O unit (SysMakedirs (dir_outputs cfg))
                (fun t =>
                   if is_dir (dir_outputs cfg) t then (Ret tt, t)
                   else if exists_ (dir_outputs cfg) t
                   then (Raise (err FileExistsError (dir_outputs cfg)), t)
                   else if no_file_on_way (dir_outputs cfg) t
                   then (Ret tt, put (dir_outputs cfg) (Dir []) t)
                   else (Raise (err NotADirectoryError (dir_outputs cfg)), t))
                (tick w)) as S1.
  change (sys O (SysMakedirs (dir_outputs cfg)) _)
    with (ensure_dir O (dir_outputs cfg)) in S1.
  destruct (ensure_dir O (dir_outputs cfg) (tick w)) as [[[]|e] w1];
    cbn [snd] in S1.
  2:{ unfold logger, emit. intros E. injection E as <-. right.
      cbn. rewrite S1. eauto. }
  set (report_path :=
         dir_outputs cfg ++ [report_filename (now_stamp_at O (clock w))]).
  pose proof (silent_atomic_write O report_path
                (Str (String.concat PyStr.newline run_report)) None w1)
    as S2.
  destruct (atomic_write O report_path
              (Str (String.concat PyStr.newline run_report)) None w1)
    as [[[]|e] w2] eqn:E2; cbn [snd] in S2.
  - intros E. injection E as <-. left.
    assert (N : report_path <> []) by (unfold report_path; now destruct (dir_outputs cfg)).
    destruct (atomic_write_ret O report_path _ None w1 w2 N E2)
      as [data [Hp Hg]].
    cbn in Hp. injection Hp as <-.
    split; [exact Hg|]. rewrite S2, S1. reflexivity.
  - unfold logger, emit. intros E. injection E as <-. right.
    cbn. rewrite S2, S1. eauto.
Qed.

End Processing.

(** ** The events are not read *)

Lemma forgets_ret (A : Type) (a : A) : forgets (ret a).
Proof. intros t k evs. reflexivity. Qed.

Lemma forgets_raise (A : Type) (e : exn) : forgets (@raise A e).
Proof. intros t k evs. reflexivity. Qed.

Lemma forgets_emit (e : event) : forgets (emit e).
Proof. intros t k evs. reflexivity. Qed.

Lemma forgets_bind (A B : Type) (c : M A) (k : A -> M B) :
  forgets c -> (forall a, forgets (k a)) -> forgets (bind c k).
Proof.
  intros Hc Hk t n evs. unfold bind. rewrite (Hc t n evs).
  destruct (c (World t n [])) as [[a|e] [t0 n0 l0]];
    cbn [fst snd fs clock events].
  - rewrite (Hk a t0 n0 (l0 ++ evs)), (Hk a t0 n0 l0).
    cbn [fst snd fs clock events]. now rewrite app_assoc.
  - reflexivity.
Qed.

Lemma forgets_try_except (A : Type) (c : M A) (h : exn -> M A) :
  forgets c -> (forall e, forgets (h e)) -> forgets (try_except c h).
Proof.
  intros Hc Hh t n evs. unfold try_except. rewrite (Hc t n evs).
  destruct (c (World t n [])) as [[a|e] [t0 n0 l0]];
    cbn [fst snd fs clock events].
  - reflexivity.
  - rewrite (Hh e t0 n0 (l0 ++ evs)), (Hh e t0 n0 l0).
    cbn [fst snd fs clock events]. now rewrite app_assoc.
Qed.

Lemma forgets_if (A : Type) (b : bool) (c1 c2 : M A) :
  forgets c1 -> forgets c2 -> forgets (if b then c1 else c2).
Proof. now destruct b. Qed.

Lemma forgets_sys (O : oracle) (A : Type) (s : syscall)
    (body : node -> outcome A * node) : forgets (sys O s body).
Proof.
  intros t n evs. unfold sys. cbn [fs clock events].
  destruct (fault O n s); [reflexivity|].
  now destruct (body t).
Qed.

Lemma forgets_file_write (O : oracle) (p : path) (b : bool) (c : content) :
  forgets (file_write O p b c).
Proof.
  intros t n evs. unfold file_write. cbn [fs clock events].
  destruct (payload b c); [|reflexivity].
  now destruct (fault O n (SysWrite p)).
Qed.

Lemma forgets_now_stamp (O : oracle) : forgets (now_stamp O).
Proof. intros t n evs. reflexivity. Qed.

(** Steps through a computation that does not read the events. *)
Ltac forgets_step :=
  first
    [ apply forgets_ret | apply forgets_raise | apply forgets_emit
    | apply forgets_sys | apply forgets_file_write | apply forgets_now_stamp
    | apply forgets_try_except; [|intros ?]
    | apply forgets_bind; [|intros ?]
    | apply forgets_if
    | (intros ? ? ?; reflexivity) ].

Lemma forgets_move_entry (O : oracle) (src dst : path) (ov pm : bool)
    (x : string) : forgets (move_entry O src dst ov pm x).
Proof.
  unfold move_entry, logger, os_path_exists, os_path_isdir, os_path_islink,
    shutil_rmtree, os_remove, shutil_copytree, shutil_copy2, shutil_move.
  repeat forgets_step.
Qed.

Lemma forgets_move_entries (O : oracle) (src dst : path) (ov pm : bool)
    (l : list string) :
  forall k, forgets (move_entries O src dst ov pm l k).
Proof.
  induction l as [|x l IH]; intros k; cbn [move_entries].
  - apply forgets_ret.
  - apply forgets_bind; [apply forgets_move_entry|intros b; apply IH].
Qed.

Lemma forgets_move_contents (O : oracle) (src dst : path) (ov pm : bool) :
  forgets (move_contents O src dst ov pm).
Proof.
  unfold move_contents, os_path_exists, ensure_dir, os_makedirs, os_listdir.
  repeat forgets_step. apply forgets_move_entries.
Qed.

Lemma forgets_rotate_steps12 (O : oracle) (inputs : path) :
  forgets (rotate_steps12 O inputs).
Proof.
  unfold rotate_steps12, rotate_step1, rotate_step2, rotate_clear, logger,
    os_path_exists, os_path_isdir, ensure_dir, os_makedirs, shutil_move,
    shutil_rmtree, os_remove.
  repeat forgets_step.
Qed.

(** What a computation does after other events is what it does after
    none, with the events it adds. *)
Lemma forgets_run (A : Type) (c : M A) (w w' : world) (r : outcome A)
    (added : list event) :
  forgets c -> c w = (r, w') -> events w' = added ++ events w ->
  c (World (fs w) (clock w) []) = (r, World (fs w') (clock w') added).
Proof.
  intros Hc E Hev. destruct w as [t n evs]. cbn [fs clock events] in *.
  rewrite (Hc t n evs) in E.
  destruct (c (World t n [])) as [r0 [t0 n0 l0]].
  cbn [fst snd fs clock events] in E. injection E as <- <-.
  cbn [fs clock events] in *. apply app_inv_tail in Hev. now subst.
Qed.

(** ** Rotation, seen from the events it adds *)

(** Steps 1 and 2 leave what lies neither in [inputs] nor in the
    archive, whatever fails. *)
Lemma rotate_steps12_frame (O : oracle) (inputs q : path) (w w1 : world)
    (r : outcome string) :
  unrelated inputs q = true ->
  unrelated (old_inputs_path_of (now_stamp_at O (clock w))) q = true ->
  rotate_steps12 O inputs w = (r, w1) ->
  get q (fs w1) = get q (fs w).
Proof.
  intros Ui Uo E.
  assert (K : keeps q
            (old_inputs_path <-
               rotate_step1 O inputs (now_stamp_at O (clock w)) ;;
             rotate_step2 O inputs ;;
             ret old_inputs_path)).
  { apply keeps_bind; [now apply keeps_rotate_step1|intros old].
    apply keeps_bind; [now apply keeps_rotate_step2|intros _].
    apply keeps_ret. }
  specialize (K (tick w)).
  unfold rotate_steps12, now_stamp in E. unfold bind at 1 in E.
  cbv beta iota in E. rewrite E in K. exact K.
Qed.

Lemma prefix_append (s t : string) : String.prefix s (s ++ t) = true.
Proof.
  induction s as [|c s IH]; cbn; [now destruct t|].
  destruct (ascii_dec c c) as [_|N]; [exact IH|congruence].
Qed.

(** The errors that [move_contents] logs are those of its entries. *)
Lemma move_contents_errors (O : oracle) (src dst : path) (ov pm : bool) :
  adds_only (fun e => is_error e = true -> is_move_error e = true)
    (move_contents O src dst ov pm).
Proof.
  assert (Hentry : forall x,
            adds_only (fun e => is_error e = true -> is_move_error e = true)
              (move_entry O src dst ov pm x)).
  { intros x. unfold move_entry. apply adds_only_try_except.
    - apply adds_only_silent.
      unfold os_path_exists, os_path_isdir, os_path_islink, shutil_rmtree,
        os_remove, shutil_copytree, shutil_copy2, shutil_move.
      repeat first
        [ apply silent_ret | apply silent_sys
        | apply silent_bind; [|intros ?]
        | apply silent_if
        | (intros ?; reflexivity) ].
    - intros e. apply adds_only_bind.
      + apply adds_only_emit. intros _. cbn [is_move_error].
        apply prefix_append.
      + intros _. apply adds_only_silent, silent_ret. }
  assert (Hloop : forall l k,
            adds_only (fun e => is_error e = true -> is_move_error e = true)
              (move_entries O src dst ov pm l k)).
  { induction l as [|x l IH]; intros k; cbn [move_entries].
    - apply adds_only_silent, silent_ret.
    - apply adds_only_bind; [apply Hentry|intros b; apply IH]. }
  unfold move_contents, ensure_dir, os_makedirs, os_listdir.
  apply adds_only_bind;
    [apply adds_only_silent, silent_os_path_exists|intros b].
  apply adds_only_if; [apply adds_only_silent, silent_ret|].
  apply adds_only_bind; [apply adds_only_silent, silent_sys|intros _].
  apply adds_only_bind; [apply adds_only_silent, silent_sys|intros l].
  apply Hloop.
Qed.

Lemma no_move_errors_no_errors (l : list event) :
  Forall (fun e => is_error e = true -> is_move_error e = true) l ->
  no_move_errors l = true -> no_errors l = true.
Proof.
  unfold no_move_errors, no_errors. rewrite !forallb_forall, Forall_forall.
  intros F H e He. specialize (F e He). specialize (H e He).
  destruct (is_error e); [|reflexivity].
  rewrite F in H by reflexivity. discriminate.
Qed.

(** With [overwrite], when none of its entries is reported as failed
    among the events it adds, [move_contents] moves them all. *)
Lemma move_contents_all_added (O : oracle) (src dst : path)
    (ss ds : list (string * node)) (w w' : world) (n : Z)
    (added : list event) :
  unrelated src dst = true ->
  get src (fs w) = Some (Dir ss) ->
  get dst (fs w) = Some (Dir ds) ->
  NoDup (names ss) ->
  (forall x, In x (names ss) -> ~ In x (names ds)) ->
  move_contents O src dst true true w = (Ret n, w') ->
  events w' = added ++ events w ->
  no_move_errors added = true ->
  n = Z.of_nat (List.length ss)
  /\ get src (fs w') = Some (Dir [])
  /\ get dst (fs w') = Some (Dir (ds ++ ss))
  /\ forall q, unrelated src q = true -> unrelated dst q = true ->
               get q (fs w') = get q (fs w).
Proof.
  intros U HS HD ND Hdisj E Hev NE.
  destruct (move_contents_errors O src dst true true w) as [l [Hl F]].
  rewrite E in Hl. cbn [snd] in Hl. rewrite Hev in Hl.
  apply app_inv_tail in Hl. subst l.
  pose proof (no_move_errors_no_errors added F NE) as NE'.
  pose proof (forgets_run _ _ w w' (Ret n) added
                (forgets_move_contents O src dst true true) E Hev) as E0.
  exact (move_contents_all O src dst ss ds
           (World (fs w) (clock w) []) (World (fs w') (clock w') added) n
           U HS HD ND Hdisj E0 NE').
Qed.

(** ** Conversion with retries: a write that raises *)

Lemma bind_ret_inv (A B : Type) (c : M A) (k : A -> M B) (w w' : world)
    (b : B) :
  bind c k w = (Ret b, w') ->
  exists a w1, c w = (Ret a, w1) /\ k a w1 = (Ret b, w').
Proof.
  unfold bind. destruct (c w) as [[a|e] w1]; [eauto|discriminate].
Qed.

Lemma count_sleeps_app (l1 l2 : list event) :
  count_sleeps (l1 ++ l2) = (count_sleeps l1 + count_sleeps l2)%nat.
Proof. unfold count_sleeps. now rewrite filter_app, length_app. Qed.

Lemma count_converts_app (l1 l2 : list event) :
  count_converts (l1 ++ l2) = (count_converts l1 + count_converts l2)%nat.
Proof. unfold count_converts. now rewrite filter_app, length_app. Qed.

(** The clean-up of [atomic_write] raises again what was raised. *)
Lemma atomic_write_cleanup_raises (O : oracle) (p : path) (e : exn)
    (w : world) :
  exists w1, atomic_write_cleanup O p e w = (Raise e, w1).
Proof.
  unfold atomic_write_cleanup, bind, os_path_exists.
  destruct (exists_ (tmp_path_of p) (fs w)); [|unfold ret, raise; eauto].
  unfold try_except.
  destruct (os_remove O (tmp_path_of p) w) as [[[]|e1] w1];
    unfold ret, raise; eauto.
Qed.

(** Where the replacement of the destination is refused, no atomic
    write goes through. *)
Lemma atomic_write_raises_without_replace (O : oracle) (p : path)
    (c : content) (mode : option bool) :
  (forall k, fault O k (SysReplace (tmp_path_of p) p) <> None) ->
  forall w, exists e w1, atomic_write O p c mode w = (Raise e, w1).
Proof.
  intros H w. unfold atomic_write, try_except.
  destruct (atomic_write_try O p c mode w) as [[[]|e] w1] eqn:E.
  - exfalso. unfold atomic_write_try in E.
    apply bind_ret_inv in E. destruct E as [[] [w2 [_ E]]].
    apply bind_ret_inv in E. destruct E as [[] [w3 [_ E]]].
    unfold os_replace, sys in E.
    destruct (fault O (clock w3) (SysReplace (tmp_path_of p) p)) eqn:F;
      [discriminate|].
    exact (H _ F).
  - destruct (atomic_write_cleanup_raises O p e w1) as [w2 ->]. eauto.
Qed.

Section WriteRaises.

Variable O : oracle.
Variables input_path output_path : path.
Variable output_ext : string.
Variable retry_attempts : Z.
Variable retry_delay : Q.
Variable doc : document.
Variable export_method_name : string.
Variable c : content.

(** The conversion and the export go through at every attempt. *)
Hypothesis Hconvert :
  forall k, converter_convert O k input_path = ConvertResult (Some doc).
Hypothesis Hname :
  dict_get output_ext EXPORT_METHODS = Some export_method_name.
Hypothesis Hexport :
  doc_method doc export_method_name = Some (ExportContent c).
Hypothesis Hcontent : empty_content c = false.
Hypothesis Hdelay : Qle_bool 0 retry_delay = true.

(** The atomic write of the content to the output path raises, whatever
    the reason. *)
Hypothesis Hwrite :
  forall w0, exists e0 w1,
    atomic_write O output_path c None w0 = (Raise e0, w1).

(** One attempt: the converter is called once, and the attempt ends
    with what the making of the output directory or the atomic write
    raises. *)
Lemma convert_try_write_raises (attempt : Z) (w : world) :
  exists (e0 : exn) (w1 wa wb : world) (added : list event),
    convert_try O input_path output_path output_ext attempt retry_attempts
      retry_delay w
    = (Raise e0, w1)
    /\ bind (os_makedirs O (parent output_path))
         (fun _ => atomic_write O output_path c None) wa
       = (Raise e0, wb)
    /\ events w1 = added ++ events w
    /\ count_converts added = 1%nat
    /\ count_sleeps added = (if (0 <? attempt)%Z then 1 else 0)%nat.
Proof.
  unfold convert_try. unfold bind at 1.
  assert (H1 : exists w0 l0,
            (if (0 <? attempt)%Z
             then bind
                    (logger INFO
                       ("Retry attempt " ++ str_int O attempt ++ "/"
                        ++ str_int O retry_attempts ++ " for "
                        ++ path_str input_path))
                    (fun _ => time_sleep retry_delay)
             else ret tt) w
            = (Ret tt, w0)
            /\ events w0 = l0 ++ events w
            /\ count_converts l0 = 0%nat
            /\ count_sleeps l0 = (if (0 <? attempt)%Z then 1 else 0)%nat).
  { destruct (0 <? attempt)%Z.
    - unfold bind, logger, emit, time_sleep. rewrite Hdelay. cbn [negb].
      eexists. eexists [_; _]. split; [reflexivity|].
      split; [reflexivity|]. split; reflexivity.
    - exists w, []. unfold ret. repeat split. }
  destruct H1 as [w0 [l0 [-> [Hl0 [Hc0 Hs0]]]]].
  unfold bind at 1. unfold converter_document at 1. rewrite Hconvert.
  cbv beta iota. rewrite Hname, Hexport.
  unfold bind at 1. unfold call_export, bind at 1, emit, ret at 1.
  cbv beta iota. rewrite Hcontent. cbn [fs clock events].
  set (w2 := World (fs w0) (S (clock w0))
               (EvExport export_method_name
                :: EvConvert input_path :: events w0)).
  pose proof (silent_sys O unit (SysMakedirs (parent output_path))) as Sm.
  pose proof (silent_atomic_write O output_path c None) as Sa.
  unfold bind. unfold os_makedirs in *.
  match goal with
  | |- context [sys O (SysMakedirs (parent output_path)) ?body w2] =>
      specialize (Sm body w2);
      destruct (sys O (SysMakedirs (parent output_path)) body w2)
        as [[[]|e1] w3] eqn:Em
  end.
  - destruct (Hwrite w3) as [e0 [w4 Ew]]. specialize (Sa w3).
    rewrite Ew in Sa |- *. cbn [snd] in Sa, Sm.
    exists e0, w4, w2, w4, (EvExport export_method_name
                            :: EvConvert input_path :: l0).
    split; [reflexivity|]. split; [rewrite Em, Ew; reflexivity|].
    split; [rewrite Sa, Sm; unfold w2; cbn [events]; now rewrite Hl0|].
    unfold count_converts, count_sleeps in *. cbn. split; congruence.
  - cbn [snd] in Sm.
    exists e1, w3, w2, w3, (EvExport export_method_name
                            :: EvConvert input_path :: l0).
    split; [reflexivity|]. split; [rewrite Em; reflexivity|].
    split; [rewrite Sm; unfold w2; cbn [events]; now rewrite Hl0|].
    unfold count_converts, count_sleeps in *. cbn. split; congruence.
Qed.

(** With [n] attempts left, all are used. *)
Lemma convert_loop_write_raises (n : nat) :
  forall (attempt : Z) (w : world),
    (0 <= attempt)%Z ->
    (attempt + Z.of_nat (S n) = retry_attempts + 1)%Z ->
    exists (e0 : exn) (w' wa wb : world) (added : list event),
      convert_loop O (S n) input_path output_path output_ext attempt
        retry_attempts retry_delay w
      = (Ret (false, ("Conversion error: " ++ exn_str e0)%string), w')
      /\ bind (os_makedirs O (parent output_path))
           (fun _ => atomic_write O output_path c None) wa
         = (Raise e0, wb)
      /\ events w' = added ++ events w
      /\ count_converts added = S n
      /\ count_sleeps added = (if (0 <? attempt)%Z then S n else n).
Proof.
  induction n as [|n IH]; intros attempt w Ha Hn.
  - destruct (convert_try_write_raises attempt w)
      as [e0 [w1 [wa [wb [added [E1 [Ew [Hev [Hc Hs]]]]]]]]].
    cbn [convert_loop]. unfold bind, try_except. rewrite E1.
    unfold convert_except.
    assert (Hlt : (attempt <? retry_attempts)%Z = false)
      by (apply Z.ltb_ge; lia).
    rewrite Hlt. unfold logger, emit, bind, ret.
    exists e0. eexists. exists wa, wb. eexists (_ :: added).
    split; [reflexivity|]. split; [exact Ew|]. cbn [events].
    split; [now rewrite Hev|].
    unfold count_converts, count_sleeps in *. cbn.
    split; [exact Hc|]. rewrite Hs. now destruct (0 <? attempt)%Z.
  - destruct (convert_try_write_raises attempt w)
      as [e1 [w1 [_ [_ [added1 [E1 [_ [Hev1 [Hc1 Hs1]]]]]]]]].
    assert (Hlt : (attempt <? retry_attempts)%Z = true)
      by (apply Z.ltb_lt; lia).
    set (w2 := World (fs w1) (clock w1)
                 (EvLog WARNING
                    ("Conversion error: " ++ exn_str e1 ++ " (will retry)")
                  :: events w1)).
    destruct (IH (attempt + 1)%Z w2)
      as [e0 [w' [wa [wb [added [E' [Ew [Hev [Hc Hs]]]]]]]]]; [lia|lia|].
    exists e0, w', wa, wb, (added ++ EvLog WARNING
                              ("Conversion error: " ++ exn_str e1
                               ++ " (will retry)") :: added1).
    split.
    + change (convert_loop O (S (S n)) input_path output_path output_ext
                attempt retry_attempts retry_delay w)
        with (bind
                (try_except
                   (bind (convert_try O input_path output_path output_ext
                            attempt retry_attempts retry_delay)
                      (fun res => ret (Some res)))
                   (convert_except attempt retry_attempts))
                (fun r =>
                   match r with
                   | Some res => ret res
                   | None =>
                       convert_loop O (S n) input_path output_path
                         output_ext (attempt + 1) retry_attempts retry_delay
                   end) w).
      unfold bind at 1. unfold try_except, bind at 1. rewrite E1.
      unfold convert_except. rewrite Hlt.
      unfold logger, emit, bind, ret. exact E'.
    + split; [exact Ew|]. split.
      { rewrite Hev. unfold w2. cbn [events]. rewrite Hev1.
        now rewrite <- app_assoc. }
      assert (H1 : (0 <? attempt + 1)%Z = true) by (apply Z.ltb_lt; lia).
      rewrite H1 in Hs.
      rewrite count_converts_app, count_sleeps_app.
      unfold count_converts, count_sleeps in *. cbn.
      rewrite Hc, Hs, Hc1, Hs1. split; [lia|].
      destruct (0 <? attempt)%Z; lia.
Qed.

End WriteRaises.

(* ====================================================================== *)
(** * The claims of the specification *)
(* ====================================================================== *)

(** ** Rotation *)







(** ** Atomic write *)

(** C3, as stated, fails: the write stops after two characters and the
    removal of the temporary file fails too; the error is raised, the
    destination is untouched, and the temporary sibling stays, holding a
    part of the content. *)
Lemma atomic_write_leaves_tmp_when_removal_fails :
  ~ (forall (O : oracle) (p : path) (c : content) (mode : option bool)
            (w w' : world) (r : outcome unit),
       p <> [] ->
       atomic_write O p c mode w = (r, w') ->
       match r with
       | Ret _ =>
           exists data,
             payload (binary_mode mode c) c = Some data
             /\ get p (fs w') = Some (File data)
       | Raise _ =>
           get p (fs w') = get p (fs w)
           /\ get (tmp_path_of p) (fs w') = None
       end).
Proof.
  intros H.
  assert (N : ["inputs"; "x.md"] <> ([] : path)) by discriminate.
  pose proof (H oracle_short_write_no_remove ["inputs"; "x.md"]
                (Str "hello") None sample_world
                (snd (atomic_write oracle_short_write_no_remove
                        ["inputs"; "x.md"] (Str "hello") None sample_world))
                (Raise (Exn OSError "Permission denied"))
                N eq_refl) as [_ K].
  vm_compute in K. discriminate.
Qed.

(** C3 (amended): for every destination other than the working directory
    itself, every content and every behaviour of the outside, the atomic
    write either returns with the destination holding the whole content
    and no temporary file left, or raises with the destination as it was
    and the temporary file removed unless that removal raised as well (it
    is best effort, and its failure is swallowed); and after none, one,
    two or all of the calls of its [try] block the destination is as it
    was or holds the whole content. *)
Theorem atomic_write_all_or_nothing (O : oracle) (p : path) (c : content)
    (mode : option bool) (w w' : world) (r : outcome unit) :
  p <> [] ->
  atomic_write O p c mode w = (r, w') ->
  match r with
  | Ret _ =>
      exists data,
        payload (binary_mode mode c) c = Some data
        /\ get p (fs w') = Some (File data)
        /\ get (tmp_path_of p) (fs w') = None
  | Raise _ =>
      get p (fs w') = get p (fs w)
      /\ (get (tmp_path_of p) (fs w') = None
          \/ exists w2 e2, os_remove O (tmp_path_of p) w2 = (Raise e2, w'))
  end
  /\ (forall k, In k (atomic_write_prefixes O p c mode) ->
        get p (fs (snd (k w))) = get p (fs w)
        \/ exists data,
             payload (binary_mode mode c) c = Some data
             /\ get p (fs (snd (k w))) = Some (File data)).
Proof.
  intros N E. pose proof (tmp_path_unrelated p N) as U. split.
  - unfold atomic_write, try_except in E.
    destruct (atomic_write_try O p c mode w) as [[[]|e] w1] eqn:E1.
    + injection E as <- <-.
      exact (atomic_write_try_cases O p c mode w w1 (Ret tt) N E1).
    + pose proof (atomic_write_try_cases O p c mode w w1 (Raise e) N E1)
        as F1. cbn in F1.
      destruct (atomic_write_cleanup_cases O p e w1 w' r E)
        as [-> [Hfr Htmp]].
      split; [|exact Htmp]. rewrite Hfr by exact U. exact F1.
  - intros k Hk. cbn [atomic_write_prefixes In] in Hk.
    destruct Hk as [<-|[<-|[<-|[<-|[]]]]].
    + now left.
    + left. now apply open_write_frame.
    + left. unfold bind.
      pose proof (open_write_frame O (tmp_path_of p) p w U) as F1.
      destruct (open_write O (tmp_path_of p) w) as [[[]|e1] w1];
        cbn [snd] in *; [|exact F1].
      rewrite <- F1. now apply file_write_frame.
    + destruct (atomic_write_try O p c mode w) as [[[]|e] w1] eqn:E1.
      * destruct (atomic_write_try_cases O p c mode w w1 (Ret tt) N E1)
          as [data [Hp [Hg _]]].
        right. exists data. now split.
      * left. exact (atomic_write_try_cases O p c mode w w1 (Raise e) N E1).
Qed.

Lemma atomic_write_all_or_nothing_witness :
  let p := ["inputs"; "x.md"] in
  let w' := snd (atomic_write oracle_quiet p (Str "hello") None
                   sample_world) in
  (exists data,
     payload (binary_mode None (Str "hello")) (Str "hello") = Some data
     /\ get p (fs w') = Some (File data)
     /\ get (tmp_path_of p) (fs w') = None)
  /\ (forall k,
        In k (atomic_write_prefixes oracle_quiet p (Str "hello") None) ->
        get p (fs (snd (k sample_world))) = get p (fs sample_world)
        \/ exists data,
             payload (binary_mode None (Str "hello")) (Str "hello")
             = Some data
             /\ get p (fs (snd (k sample_world))) = Some (File data)).
Proof.
  assert (N : ["inputs"; "x.md"] <> ([] : path)) by discriminate.
  exact (atomic_write_all_or_nothing oracle_quiet ["inputs"; "x.md"]
           (Str "hello") None sample_world
           (snd (atomic_write oracle_quiet ["inputs"; "x.md"] (Str "hello")
                   None sample_world))
           (Ret tt) N eq_refl).
Defined.

(** ** The size gate *)



(** C10: a file rejected by the size gate adds one to the failures and
    nothing to the successes and the skips, whatever output types are
    configured: no task is made for it. *)
Theorem size_gate_counts_one_failure (O : oracle) (cfg : config)
    (dry_run : bool) (stats : ConversionStats) (run_report : list string)
    (input_abs_path input_rel_path : path) (w w1 : world) (size : Z) :
  get_file_size O input_abs_path w = (Ret size, w1) ->
  exceeds size (max_file_size_mb cfg) = true ->
  exists stats' run_report' w',
    process_file O cfg dry_run (stats, run_report)
      (input_abs_path, input_rel_path) w
    = (Ret (stats', run_report'), w')
    /\ successful stats' = successful stats
    /\ failed stats' = (failed stats + 1)%Z
    /\ skipped stats' = skipped stats
    /\ total_size_bytes stats' = total_size_bytes stats
    /\ List.length (failed_files stats')
       = S (List.length (failed_files stats))
    /\ List.length run_report' = S (List.length run_report).
Proof.
  intros E X.
  destruct (process_file_oversize O cfg dry_run stats run_report
              input_abs_path input_rel_path w w1 size E X)
    as [w' [Hp _]].
  eexists. eexists. exists w'. split; [exact Hp|].
  cbn. repeat split; try reflexivity; rewrite length_app; cbn; lia.
Qed.

(** ** Conversion with retries *)




Lemma size_gate_counts_one_failure_witness :
  exists stats' run_report' w',
    process_file oracle_quiet sample_config_two_bytes false
      (sample_stats, []) (["inputs"; "old.pdf"], ["old.pdf"]) sample_world
    = (Ret (stats', run_report'), w')
    /\ successful stats' = successful sample_stats
    /\ failed stats' = (failed sample_stats + 1)%Z
    /\ skipped stats' = skipped sample_stats
    /\ total_size_bytes stats' = total_size_bytes sample_stats
    /\ List.length (failed_files stats')
       = S (List.length (failed_files sample_stats))
    /\ List.length run_report' = S (List.length (@nil string)).
Proof.
  exact (size_gate_counts_one_failure oracle_quiet sample_config_two_bytes
           false sample_stats [] ["inputs"; "old.pdf"] ["old.pdf"]
           sample_world
           (snd (get_file_size oracle_quiet ["inputs"; "old.pdf"]
                   sample_world))
           3%Z eq_refl eq_refl).
Defined.

(** ** Output naming *)

(** C7, as stated, fails: an underscore-separated "from" inside a base
    name or an extension lets two triples share a file name. *)
Lemma generate_output_filename_collision :
  ~ (forall b1 s1 t1 b2 s2 t2 : string,
       (b1, s1, t1) <> (b2, s2, t2) ->
       generate_output_filename b1 s1 t1
       <> generate_output_filename b2 s2 t2).
Proof.
  intros H.
  apply (H "a_from_b" "c" "md" "a" "b_from_c" "md");
    [discriminate|reflexivity].
Qed.

(** C7 (amended): over the triples whose source extension holds no
    underscore and whose target extension holds no dot, as is the case of
    every extension of the registry of supported formats, the generated
    file names of two distinct triples are distinct. *)
Theorem generate_output_filename_injective (b1 s1 t1 b2 s2 t2 : string) :
  PyStr.has_char "_" s1 = false -> PyStr.has_char "_" s2 = false ->
  PyStr.has_char "." t1 = false -> PyStr.has_char "." t2 = false ->
  (b1, s1, t1) <> (b2, s2, t2) ->
  generate_output_filename b1 s1 t1 <> generate_output_filename b2 s2 t2.
Proof.
  intros Hs1 Hs2 Ht1 Ht2 N E. apply N.
  destruct (generate_output_filename_inj_gen b1 s1 t1 b2 s2 t2
              Ht1 Ht2 Hs1 Hs2 E) as [-> [-> ->]].
  reflexivity.
Qed.

Lemma generate_output_filename_injective_witness :
  generate_output_filename "report" "pdf" "md"
  <> generate_output_filename "report" "docx" "md".
Proof.
  apply (generate_output_filename_injective "report" "pdf" "md"
           "report" "docx" "md");
    [reflexivity|reflexivity|reflexivity|reflexivity|discriminate].
Defined.

(** ** Exit status *)


(** ** The run report *)




(** ** File discovery *)

(** C5: in a well-formed tree, discovery returns, for every root and every
    list of allowed extensions, exactly the files below the root whose
    extension, lowered and without its dot, is among the lowered allowed
    extensions (a name without extension does not qualify), once each, as
    pairs of the absolute and the relative path, in ascending order of
    the printed relative path; it returns the empty list, and raises
    nothing, when the root does not exist; and it returns the same list
    from every well-formed tree that has the same files at the same
    paths, in whatever order its directories are listed. *)
Theorem discovery_exact_sorted_deterministic (input_dir : path)
    (allowed_types : list string) (w : world) :
  wf (fs w) = true ->
  exists files w',
    list_input_files input_dir allowed_types w = (Ret files, w')
    /\ fs w' = fs w
    /\ (exists_ input_dir (fs w) = false -> files = [])
    /\ (forall x, In x files
                  <-> is_discovered input_dir allowed_types (fs w) x)
    /\ NoDup files
    /\ StronglySorted (key_le rel_key) files
    /\ (forall w2,
          wf (fs w2) = true ->
          (forall p, is_file p (fs w2) = is_file p (fs w)) ->
          fst (list_input_files input_dir allowed_types w2) = Ret files).
Proof.
  intros Hw. unfold list_input_files at 1, exists_.
  destruct (get input_dir (fs w)) as [n|] eqn:G.
  - destruct (discovery_under_root input_dir allowed_types (fs w) n Hw G)
      as [HIn [ND HS]].
    eexists. exists w. split; [reflexivity|]. split; [reflexivity|].
    split; [discriminate|]. split; [exact HIn|]. split; [exact ND|].
    split; [exact HS|].
    intros w2 Hw2 Hsame. unfold list_input_files.
    destruct (get input_dir (fs w2)) as [n2|] eqn:G2; cbn [fst]; f_equal.
    + destruct (discovery_under_root input_dir allowed_types (fs w2) n2
                  Hw2 G2) as [HIn2 [ND2 HS2]].
      apply (discovered_lists_eq input_dir allowed_types (fs w)); auto.
      intros x. rewrite HIn2.
      now apply is_discovered_ext.
    + match goal with |- [] = ?fl => destruct fl as [|x l] eqn:El end;
        [reflexivity|].
      exfalso.
      apply (no_root_no_file input_dir allowed_types (fs w2) x G2).
      apply (is_discovered_ext input_dir allowed_types (fs w) (fs w2) x Hsame).
      apply HIn. now left.
  - eexists. eexists. split; [reflexivity|]. cbn [fs].
    split; [reflexivity|]. split; [reflexivity|].
    split.
    { intros x. split; [intros []|].
      intros H. exact (no_root_no_file input_dir allowed_types (fs w) x G H). }
    split; [constructor|]. split; [constructor|].
    intros w2 Hw2 Hsame. unfold list_input_files.
    destruct (get input_dir (fs w2)) as [n2|] eqn:G2; cbn [fst]; f_equal.
    destruct (discovery_under_root input_dir allowed_types (fs w2) n2 Hw2 G2)
      as [HIn2 _].
    match goal with |- ?fl = [] => destruct fl as [|x l] eqn:El end;
      [reflexivity|].
    exfalso.
    apply (no_root_no_file input_dir allowed_types (fs w) x G).
    apply (is_discovered_ext input_dir allowed_types (fs w) (fs w2) x Hsame).
    apply HIn2. now left.
Qed.

Lemma discovery_exact_sorted_deterministic_witness :
  exists files w',
    list_input_files ["inputs_queue"] ["PDF"] sample_world = (Ret files, w')
    /\ fs w' = fs sample_world
    /\ (exists_ ["inputs_queue"] (fs sample_world) = false -> files = [])
    /\ (forall x, In x files
                  <-> is_discovered ["inputs_queue"] ["PDF"]
                        (fs sample_world) x)
    /\ NoDup files
    /\ StronglySorted (key_le rel_key) files
    /\ (forall w2,
          wf (fs w2) = true ->
          (forall p, is_file p (fs w2) = is_file p (fs sample_world)) ->
          fst (list_input_files ["inputs_queue"] ["PDF"] w2) = Ret files).
Proof.
  exact (discovery_exact_sorted_deterministic ["inputs_queue"] ["PDF"]
           sample_world eq_refl).
Defined.

(* ====================================================================== *)
(** * Further properties of the code *)
(* ====================================================================== *)

(** ** Validation of the configuration *)

Lemma forallb_false_In (A : Type) (f : A -> bool) (l : list A) :
  forallb f l = false -> exists x, In x l /\ f x = false.
Proof.
  induction l as [|y l IH]; cbn; [discriminate|].
  destruct (f y) eqn:E; cbn.
  - intros H. destruct (IH H) as [x [Hx Hf]]. eauto.
  - intros _. eauto.
Qed.

Lemma set_eqb_iff (l1 l2 : list string) :
  set_eqb l1 l2 = true <-> (forall x, In x l1 <-> In x l2).
Proof.
  unfold set_eqb. rewrite andb_true_iff, !forallb_forall. split.
  - intros [H1 H2] x. split; intros H.
    + apply mem_In. now apply H1.
    + apply mem_In. now apply H2.
  - intros H. split; intros x Hx; apply mem_In; now apply H.
Qed.

Lemma set_diff_nil (l1 l2 : list string) :
  set_diff l1 l2 = [] <-> (forall x, In x l1 -> In x l2).
Proof.
  unfold set_diff. induction l1 as [|y l1 IH]; cbn.
  - split; [intros _ x []|reflexivity].
  - destruct (PyStr.mem y l2) eqn:E; cbn.
    + rewrite IH. apply mem_In in E. split.
      * intros H x [<-|Hx]; auto.
      * intros H x Hx. apply H. now right.
    + split; [discriminate|]. intros H.
      assert (Hy : In y l2) by (apply H; now left).
      apply mem_In in Hy. congruence.
Qed.

(** What [validate_config] lets through. *)
Lemma validate_config_cases (cfg : config) (w : world) :
  (validate_config cfg w = (Ret tt, w)
   /\ input_types cfg <> [] /\ output_types cfg <> []
   /\ set_eqb (input_types cfg) (output_types cfg) = false
   /\ set_diff (input_types cfg) EXPORT_METHODS_keys = []
   /\ set_diff (output_types cfg) EXPORT_METHODS_keys = []
   /\ Qle_bool (max_file_size_mb cfg) 0 = false)
  \/ ((exists msg, validate_config cfg w = (Raise (Exn ValueError msg), w))
      /\ (input_types cfg = [] \/ output_types cfg = []
          \/ set_eqb (input_types cfg) (output_types cfg) = true
          \/ set_diff (input_types cfg) EXPORT_METHODS_keys <> []
          \/ set_diff (output_types cfg) EXPORT_METHODS_keys <> []
          \/ Qle_bool (max_file_size_mb cfg) 0 = true)).
Proof.
  unfold validate_config.
  destruct (input_types cfg) as [|i il] eqn:Ei.
  { right. split; [eexists; reflexivity|auto]. }
  destruct (output_types cfg) as [|o ol] eqn:Eo.
  { right. split; [eexists; reflexivity|auto]. }
  destruct (set_eqb (i :: il) (o :: ol)) eqn:Es.
  { right. split; [eexists; reflexivity|auto]. }
  destruct (set_diff (i :: il) EXPORT_METHODS_keys) as [|x xs] eqn:Edi.
  2:{ right. split; [eexists; reflexivity|].
      do 3 right. left. discriminate. }
  destruct (set_diff (o :: ol) EXPORT_METHODS_keys) as [|y ys] eqn:Edo.
  2:{ right. split; [eexists; reflexivity|].
      do 4 right. left. discriminate. }
  destruct (Qle_bool (max_file_size_mb cfg) 0) eqn:Em.
  { right. split; [eexists; reflexivity|]. do 5 right. reflexivity. }
  left. split; [reflexivity|]. repeat split; try discriminate; auto.
Qed.

(** X1: [validate_config] leaves the world as it is and either returns
    or raises a [ValueError].  It returns exactly when neither list of
    types is empty, the two lists are not the same set, every input and
    every output type is a key of the registry [EXPORT_METHODS], and
    [max_file_size_mb] is positive. *)
Theorem validate_config_accepts_iff (cfg : config) (w : world) :
  (exists r, validate_config cfg w = (r, w)
             /\ (r = Ret tt \/ exists msg, r = Raise (Exn ValueError msg)))
  /\ (validate_config cfg w = (Ret tt, w) <->
      input_types cfg <> [] /\ output_types cfg <> []
      /\ ~ (forall x, In x (input_types cfg) <-> In x (output_types cfg))
      /\ (forall x, In x (input_types cfg) -> In x EXPORT_METHODS_keys)
      /\ (forall x, In x (output_types cfg) -> In x EXPORT_METHODS_keys)
      /\ (0 < max_file_size_mb cfg)%Q).
Proof.
  destruct (validate_config_cases cfg w)
    as [[E [Hi [Ho [Hs [Hdi [Hdo Hm]]]]]]|[[msg E] H]].
  - split; [exists (Ret tt); auto|]. split; [intros _|intros _; exact E].
    split; [exact Hi|]. split; [exact Ho|]. split.
    { intros Hset. apply set_eqb_iff in Hset. congruence. }
    split; [now apply set_diff_nil|]. split; [now apply set_diff_nil|].
    apply Qnot_le_lt. intros Hle. apply Qle_bool_iff in Hle. congruence.
  - split; [exists (Raise (Exn ValueError msg)); eauto|].
    split; [intros E'; rewrite E in E'; discriminate|].
    intros [Hi [Ho [Hs [Hdi [Hdo Hm]]]]]. exfalso.
    destruct H as [H|[H|[H|[H|[H|H]]]]]; try contradiction.
    + apply Hs. now apply set_eqb_iff.
    + apply H. now apply set_diff_nil.
    + apply H. now apply set_diff_nil.
    + apply Qle_bool_iff in H. exact (Qlt_not_le _ _ Hm H).
Qed.

(** X2: a configuration that [validate_config] lets through has work to
    do and the means to do it: some input type differs from some output
    type, so that not every conversion is a same-type skip, and every
    output type has its export method in the registry, which is what
    [convert_document] looks up. *)
Theorem validated_config_has_conversion (cfg : config) (w w' : world) :
  validate_config cfg w = (Ret tt, w') ->
  (exists i o, In i (input_types cfg) /\ In o (output_types cfg) /\ i <> o)
  /\ (forall o, In o (output_types cfg) ->
        exists name, dict_get o EXPORT_METHODS = Some name).
Proof.
  intros E.
  destruct (validate_config_cases cfg w)
    as [[_ [Hi [Ho [Hs [_ [Hdo _]]]]]]|[[msg E'] _]];
    [|rewrite E in E'; discriminate].
  split.
  - unfold set_eqb in Hs. apply andb_false_iff in Hs.
    destruct Hs as [Hs|Hs]; apply forallb_false_In in Hs;
      destruct Hs as [x [Hx Hm]].
    + destruct (output_types cfg) as [|o ol]; [contradiction|].
      exists x, o. split; [exact Hx|]. split; [now left|].
      intros ->. assert (In o (o :: ol)) as H by now left.
      apply mem_In in H. congruence.
    + destruct (input_types cfg) as [|i il]; [contradiction|].
      exists i, x. split; [now left|]. split; [exact Hx|].
      intros <-. assert (In i (i :: il)) as H by now left.
      apply mem_In in H. congruence.
  - intros o Ho'. rewrite set_diff_nil in Hdo. specialize (Hdo o Ho').
    cbn in Hdo.
    destruct Hdo as [<-|[<-|[<-|[<-|[<-|[]]]]]]; eexists; vm_compute;
      reflexivity.
Qed.

Lemma validated_config_has_conversion_witness :
  (exists i o,
     In i (input_types DEFAULT_CONFIG) /\ In o (output_types DEFAULT_CONFIG)
     /\ i <> o)
  /\ (forall o, In o (output_types DEFAULT_CONFIG) ->
        exists name, dict_get o EXPORT_METHODS = Some name).
Proof.
  exact (validated_config_has_conversion DEFAULT_CONFIG sample_world
           sample_world eq_refl).
Defined.

(** ** Sizes and durations, as printed *)

Lemma Qfloor_bounds (x : Q) :
  inject_Z (Qfloor x) <= x /\ x < inject_Z (Qfloor x) + 1.
Proof.
  split; [apply Qfloor_le|].
  pose proof (Qlt_floor x) as U. rewrite inject_Z_plus in U. exact U.
Qed.

Lemma Zle_of_Qlt_succ (a b : Z) : inject_Z a < inject_Z b + 1 -> (a <= b)%Z.
Proof.
  intros H. change 1 with (inject_Z 1) in H.
  rewrite <- inject_Z_plus in H. rewrite <- Zlt_Qlt in H. lia.
Qed.

Lemma Qle_bool_false_lt (x y : Q) : Qle_bool x y = false <-> y < x.
Proof.
  split.
  - intros H. apply Qnot_le_lt. intros Hle. apply Qle_bool_iff in Hle.
    congruence.
  - intros H. destruct (Qle_bool x y) eqn:E; [|reflexivity].
    apply Qle_bool_iff in E. exfalso. exact (Qlt_not_le _ _ H E).
Qed.

(** X3: [format_bytes] prints a size in the largest unit in which it is
    at least one: in bytes below 1024 (a negative size too), then in KB,
    MB and GB, each up to 1024 of the unit, and in TB from 1024 GB on;
    the number printed is the size divided by 1024 once for each step up
    from bytes. *)
Theorem format_bytes_unit (O : oracle) (n : Z) :
  ((n < 1024)%Z
   /\ format_bytes O n = (fmt_1f O (inject_Z n) ++ "B")%string)
  \/ ((1024 <= n < 1024 ^ 2)%Z
      /\ format_bytes O n = (fmt_1f O (inject_Z n / 1024) ++ "KB")%string)
  \/ ((1024 ^ 2 <= n < 1024 ^ 3)%Z
      /\ format_bytes O n
         = (fmt_1f O (inject_Z n / 1024 / 1024) ++ "MB")%string)
  \/ ((1024 ^ 3 <= n < 1024 ^ 4)%Z
      /\ format_bytes O n
         = (fmt_1f O (inject_Z n / 1024 / 1024 / 1024) ++ "GB")%string)
  \/ ((1024 ^ 4 <= n)%Z
      /\ format_bytes O n
         = (fmt_1f O (inject_Z n / 1024 / 1024 / 1024 / 1024)
            ++ "TB")%string).
Proof.
  unfold format_bytes. cbn [format_bytes_loop].
  destruct (Qle_bool 1024 (inject_Z n)) eqn:E0; cbn [negb].
  2:{ left. split; [|reflexivity].
      apply Qle_bool_false_lt in E0.
      unfold Qlt, inject_Z in E0. cbn in E0. lia. }
  apply Qle_bool_iff in E0. unfold Qle, inject_Z in E0. cbn in E0.
  right.
  destruct (Qle_bool 1024 (inject_Z n / 1024)) eqn:E1; cbn [negb].
  2:{ left. split; [|reflexivity].
      apply Qle_bool_false_lt in E1.
      unfold Qlt, Qdiv, Qmult, Qinv, inject_Z in E1. cbn in E1. lia. }
  apply Qle_bool_iff in E1.
  unfold Qle, Qdiv, Qmult, Qinv, inject_Z in E1. cbn in E1.
  right.
  destruct (Qle_bool 1024 (inject_Z n / 1024 / 1024)) eqn:E2; cbn [negb].
  2:{ left. split; [|reflexivity].
      apply Qle_bool_false_lt in E2.
      unfold Qlt, Qdiv, Qmult, Qinv, inject_Z in E2. cbn in E2. lia. }
  apply Qle_bool_iff in E2.
  unfold Qle, Qdiv, Qmult, Qinv, inject_Z in E2. cbn in E2.
  right.
  destruct (Qle_bool 1024 (inject_Z n / 1024 / 1024 / 1024)) eqn:E3;
    cbn [negb].
  2:{ left. split; [|reflexivity].
      apply Qle_bool_false_lt in E3.
      unfold Qlt, Qdiv, Qmult, Qinv, inject_Z in E3. cbn in E3. lia. }
  apply Qle_bool_iff in E3.
  unfold Qle, Qdiv, Qmult, Qinv, inject_Z in E3. cbn in E3.
  right. split; [lia|reflexivity].
Qed.

(** X4: [format_duration] prints seconds below a minute, minutes and
    seconds below an hour, hours and minutes from an hour on; the parts
    it prints are in range and add up: the minutes are between 1 and 59
    and the seconds left are below 60 and make up the duration with them;
    from an hour on the hours are at least 1, the minutes between 0 and
    59, and the seconds cut off are less than a minute. *)
Theorem format_duration_parts (O : oracle) (seconds : Q) :
  (seconds < 60
   /\ format_duration O seconds = (fmt_1f O seconds ++ "s")%string)
  \/ (60 <= seconds /\ seconds < 3600
      /\ exists (minutes : Z) (secs : Q),
           format_duration O seconds
           = (str_int O minutes ++ "m " ++ fmt_1f O secs ++ "s")%string
           /\ (1 <= minutes <= 59)%Z
           /\ 0 <= secs /\ secs < 60
           /\ seconds == 60 * inject_Z minutes + secs)
  \/ (3600 <= seconds
      /\ exists hours minutes : Z,
           format_duration O seconds
           = (str_int O hours ++ "h " ++ str_int O minutes ++ "m")%string
           /\ (1 <= hours)%Z /\ (0 <= minutes <= 59)%Z
           /\ 3600 * inject_Z hours + 60 * inject_Z minutes <= seconds
           /\ seconds
              < 3600 * inject_Z hours + 60 * inject_Z minutes + 60).
Proof.
  unfold format_duration.
  destruct (Qle_bool 60 seconds) eqn:E1; cbn [negb].
  2:{ left. apply Qle_bool_false_lt in E1. now split. }
  apply Qle_bool_iff in E1. right.
  destruct (Qle_bool 3600 seconds) eqn:E2; cbn [negb].
  - apply Qle_bool_iff in E2. right. split; [exact E2|]. cbv zeta.
    set (hours := Qfloor (seconds / 3600)).
    set (minutes := Qfloor ((seconds - 3600 * inject_Z hours) / 60)).
    exists hours, minutes. split; [reflexivity|].
    destruct (Qfloor_bounds (seconds / 3600)) as [Lh Uh].
    fold hours in Lh, Uh.
    destruct (Qfloor_bounds ((seconds - 3600 * inject_Z hours) / 60))
      as [Lm Um].
    fold minutes in Lm, Um.
    unfold Qdiv in Lh, Uh, Lm, Um.
    change (/ 3600) with (1 # 3600) in Lh, Uh.
    change (/ 60) with (1 # 60) in Lm, Um.
    split; [|split; [split|split]].
    + apply (Zle_of_Qlt_succ 1 hours). change (inject_Z 1) with 1. lra.
    + apply (Zle_of_Qlt_succ 0 minutes). change (inject_Z 0) with 0. lra.
    + apply (Zle_of_Qlt_succ minutes 59). change (inject_Z 59) with 59. lra.
    + lra.
    + lra.
  - apply Qle_bool_false_lt in E2. left. split; [exact E1|].
    split; [exact E2|]. cbv zeta.
    set (minutes := Qfloor (seconds / 60)).
    exists minutes, (seconds - 60 * inject_Z minutes).
    split; [reflexivity|].
    destruct (Qfloor_bounds (seconds / 60)) as [L U]. fold minutes in L, U.
    unfold Qdiv in L, U. change (/ 60) with (1 # 60) in L, U.
    split; [split|split; [|split]].
    + apply (Zle_of_Qlt_succ 1 minutes). change (inject_Z 1) with 1. lra.
    + apply (Zle_of_Qlt_succ minutes 59). change (inject_Z 59) with 59. lra.
    + lra.
    + lra.
    + lra.
Qed.

(** ** The size check *)

Lemma exceeds_iff (size : Z) (max_size_mb : Q) :
  exceeds size max_size_mb = true
  <-> max_size_mb * 1048576 < inject_Z size.
Proof.
  unfold exceeds. rewrite negb_true_iff, Qle_bool_false_lt.
  unfold Qdiv. change (/ inject_Z (1024 * 1024)) with (1 # 1048576).
  split; intros H; lra.
Qed.

(** X5: for a file that is there and whose size can be read,
    [check_file_size] reads the tree and the clock only, and accepts the
    file exactly when its length in bytes is at most [max_size_mb] times
    1024 * 1024: a file of exactly the limit passes.  The message of a
    refusal gives the size and the limit, that of an acceptance the
    size. *)
Theorem check_file_size_limit (O : oracle) (filepath : path)
    (max_size_mb : Q) (data : string) (w : world) :
  get filepath (fs w) = Some (File data) ->
  fault O (clock w) (SysGetsize filepath) = None ->
  exists (is_valid : bool) (message : string) (w' : world),
    check_file_size O filepath max_size_mb w = (Ret (is_valid, message), w')
    /\ fs w' = fs w /\ events w' = events w
    /\ (is_valid = true
        <-> inject_Z (Z.of_nat (String.length data))
            <= max_size_mb * 1048576)
    /\ message
       = (if is_valid
          then "Size: " ++ format_bytes O (Z.of_nat (String.length data))
          else "File size "
               ++ format_bytes O (Z.of_nat (String.length data))
               ++ " exceeds limit of " ++ str_num O max_size_mb
               ++ "MB")%string.
Proof.
  intros G F.
  unfold check_file_size, get_file_size, try_except, sys, bind.
  rewrite F, G. cbv beta iota zeta.
  set (size := Z.of_nat (String.length data)).
  destruct (exceeds size max_size_mb) eqn:X; unfold ret;
    eexists; eexists; eexists; (split; [reflexivity|]);
    (split; [reflexivity|]); (split; [reflexivity|]);
    (split; [|reflexivity]).
  - apply exceeds_iff in X. split; [discriminate|].
    intros H. exfalso. exact (Qlt_not_le _ _ X H).
  - split; [intros _|reflexivity].
    apply Qnot_lt_le. intros H. apply exceeds_iff in H. congruence.
Qed.

Lemma check_file_size_limit_witness :
  exists (is_valid : bool) (message : string) (w' : world),
    check_file_size oracle_quiet ["inputs_queue"; "a.pdf"] (2 # 1048576)
      sample_world
    = (Ret (is_valid, message), w')
    /\ fs w' = fs sample_world /\ events w' = events sample_world
    /\ (is_valid = true
        <-> inject_Z (Z.of_nat (String.length "aa"))
            <= (2 # 1048576) * 1048576)
    /\ message
       = (if is_valid
          then "Size: "
               ++ format_bytes oracle_quiet (Z.of_nat (String.length "aa"))
          else "File size "
               ++ format_bytes oracle_quiet (Z.of_nat (String.length "aa"))
               ++ " exceeds limit of " ++ str_num oracle_quiet (2 # 1048576)
               ++ "MB")%string.
Proof.
  exact (check_file_size_limit oracle_quiet ["inputs_queue"; "a.pdf"]
           (2 # 1048576) "aa" sample_world eq_refl eq_refl).
Defined.

(** X6: a file whose size cannot be read, because it is not there or
    because the call fails, counts as empty: [get_file_size] logs a
    warning and gives 0, and [check_file_size] accepts the file under
    every limit that is not negative; the tree is left as it is. *)
Theorem check_file_size_unreadable (O : oracle) (filepath : path)
    (max_size_mb : Q) (w : world) :
  get filepath (fs w) = None
  \/ fault O (clock w) (SysGetsize filepath) <> None ->
  0 <= max_size_mb ->
  exists (reason : string) (w' : world),
    check_file_size O filepath max_size_mb w
    = (Ret (true, ("Size: " ++ format_bytes O 0)%string), w')
    /\ fs w' = fs w
    /\ events w'
       = EvLog WARNING ("Could not get size of " ++ path_str filepath
                        ++ ": " ++ reason) :: events w.
Proof.
  intros H Hmax.
  assert (X : exceeds 0 max_size_mb = false).
  { destruct (exceeds 0 max_size_mb) eqn:X; [|reflexivity].
    apply exceeds_iff in X. change (inject_Z 0) with 0 in X. lra. }
  unfold check_file_size, get_file_size, try_except, sys, bind.
  destruct (fault O (clock w) (SysGetsize filepath)) as [e|] eqn:F.
  - unfold logger, emit, ret. cbv beta iota zeta. rewrite X.
    exists (exn_str e). eexists. split; [reflexivity|].
    split; reflexivity.
  - destruct H as [G|H]; [|congruence]. rewrite G.
    unfold logger, emit, ret. cbv beta iota zeta. rewrite X.
    eexists. eexists. split; [reflexivity|]. split; reflexivity.
Qed.

Lemma check_file_size_unreadable_witness :
  exists (reason : string) (w' : world),
    check_file_size oracle_quiet ["inputs"; "gone.pdf"] 100 sample_world
    = (Ret (true, ("Size: " ++ format_bytes oracle_quiet 0)%string), w')
    /\ fs w' = fs sample_world
    /\ events w'
       = EvLog WARNING ("Could not get size of "
                        ++ path_str ["inputs"; "gone.pdf"]
                        ++ ": " ++ reason) :: events sample_world.
Proof.
  refine (check_file_size_unreadable oracle_quiet ["inputs"; "gone.pdf"] 100
            sample_world (or_introl eq_refl) _).
  discriminate.
Defined.

(** ** Moving the contents of a directory *)

Lemma returns_only_ret (A : Type) (P : A -> Prop) (a : A) :
  P a -> returns_only P (ret a).
Proof. intros H w b w' E. injection E as <- <-. exact H. Qed.

Lemma returns_only_bind (A B : Type) (P : B -> Prop) (c : M A)
    (k : A -> M B) :
  (forall a, returns_only P (k a)) -> returns_only P (bind c k).
Proof.
  intros Hk w b w' E. unfold bind in E.
  destruct (c w) as [[a|e] w1]; [exact (Hk a w1 b w' E)|discriminate].
Qed.

Lemma returns_only_if (A : Type) (P : A -> Prop) (b : bool) (c1 c2 : M A) :
  returns_only P c1 -> returns_only P c2 ->
  returns_only P (if b then c1 else c2).
Proof. now destruct b. Qed.

Lemma silent_os_path_isdir (p : path) : silent (os_path_isdir p).
Proof. intros w. reflexivity. Qed.

Lemma silent_os_path_islink (p : path) : silent (os_path_islink p).
Proof. intros w. reflexivity. Qed.

(** Steps through a computation that logs nothing. *)
Ltac silent_step :=
  first
    [ apply silent_ret | apply silent_raise | apply silent_sys
    | apply silent_file_write | apply silent_os_path_exists
    | apply silent_os_path_isdir | apply silent_os_path_islink
    | apply silent_atomic_write
    | apply silent_try_except; [|intros ?]
    | apply silent_bind; [|intros ?]
    | apply silent_if ].

Lemma try_except_cases (A : Type) (c : M A) (h : exn -> M A)
    (w w' : world) (r : outcome A) :
  try_except c h w = (r, w') ->
  (exists a, c w = (Ret a, w') /\ r = Ret a)
  \/ (exists e w1, c w = (Raise e, w1) /\ h e w1 = (r, w')).
Proof.
  unfold try_except. destruct (c w) as [[a|e] w1]; intros E.
  - injection E as <- <-. left. eauto.
  - right. eauto.
Qed.

(** With [overwrite], an entry is moved and counted, or its failure is
    logged. *)
Lemma move_entry_overwrite_outcome (O : oracle) (src dst : path)
    (pm : bool) (x : string) (w w' : world) (r : outcome bool) :
  move_entry O src dst true pm x w = (r, w') ->
  (r = Ret true /\ events w' = events w)
  \/ (exists msg, r = Ret false /\ events w' = EvLog ERROR msg :: events w).
Proof.
  unfold move_entry. intros E. apply try_except_cases in E.
  match type of E with
  | (exists a, ?c w = _ /\ _) \/ _ =>
      assert (Hs : silent c)
        by (unfold shutil_rmtree, os_remove, shutil_copytree, shutil_copy2,
              shutil_move; repeat silent_step);
      assert (Hr : returns_only (fun b => b = true) c)
        by (apply returns_only_bind; intros [|]; cbn [andb negb];
            repeat (apply returns_only_bind; intros ?);
            now apply returns_only_ret)
  end.
  destruct E as [[b [E ->]]|[e [w1 [E Eh]]]].
  - left. rewrite (Hr w b w' E). split; [reflexivity|].
    pose proof (Hs w) as H. now rewrite E in H.
  - right. pose proof (Hs w) as H. rewrite E in H. cbn [snd] in H.
    unfold bind, logger, emit, ret in Eh. injection Eh as <- <-.
    eexists. split; [reflexivity|]. cbn [events]. now rewrite H.
Qed.

(** The loop of [move_contents] returns; with [overwrite] its count and
    the errors it logs make up the entries. *)
Lemma move_entries_overwrite_counts (O : oracle) (src dst : path)
    (pm : bool) (l : list string) :
  forall (k : Z) (w : world),
  exists (k' : Z) (w' : world) (errs : list event),
    move_entries O src dst true pm l k w = (Ret k', w')
    /\ events w' = errs ++ events w
    /\ Forall (fun e => exists msg, e = EvLog ERROR msg) errs
    /\ (k' + Z.of_nat (List.length errs) = k + Z.of_nat (List.length l))%Z.
Proof.
  induction l as [|x l IH]; intros k w; cbn [move_entries].
  - exists k, w, []. unfold ret. split; [reflexivity|].
    split; [reflexivity|]. split; [constructor|cbn; lia].
  - unfold bind.
    destruct (move_entry O src dst true pm x w) as [r w1] eqn:E.
    destruct (move_entry_overwrite_outcome O src dst pm x w w1 r E)
      as [[-> Hev]|[msg [-> Hev]]].
    + destruct (IH (k + 1)%Z w1) as [k' [w' [errs [E' [Hev' [F Hk]]]]]].
      exists k', w', errs. split; [exact E'|]. split; [congruence|].
      split; [exact F|]. cbn [List.length]. lia.
    + destruct (IH k w1) as [k' [w' [errs [E' [Hev' [F Hk]]]]]].
      exists k', w', (errs ++ [EvLog ERROR msg]). split; [exact E'|].
      split; [rewrite Hev', Hev, <- app_assoc; reflexivity|].
      split; [apply Forall_app; split; [exact F|repeat constructor; eauto]|].
      rewrite length_app. cbn [List.length]. lia.
Qed.

(** X7: [move_contents] with [overwrite] drops no entry silently.  For a
    source directory apart from the destination, when it returns, the
    count it returns and the number of errors it has logged add up to
    the number of entries of the source, and the errors are all it has
    logged: every entry was moved and counted, or its failure was logged
    and the loop went on. *)
Theorem move_contents_counts_or_logs (O : oracle) (src dst : path)
    (pm : bool) (es : list (string * node)) (w w' : world) (k : Z) :
  get src (fs w) = Some (Dir es) ->
  unrelated src dst = true ->
  move_contents O src dst true pm w = (Ret k, w') ->
  exists errs : list event,
    events w' = errs ++ events w
    /\ Forall (fun e => exists msg, e = EvLog ERROR msg) errs
    /\ (0 <= k)%Z
    /\ (k + Z.of_nat (List.length errs) = Z.of_nat (List.length es))%Z.
Proof.
  intros G U E.
  unfold move_contents, bind, os_path_exists, exists_, ensure_dir in E.
  rewrite G in E. cbn [negb] in E.
  pose proof (keeps_os_makedirs O src dst) as K.
  rewrite unrelated_sym in U. specialize (K U w).
  pose proof (silent_sys O unit (SysMakedirs dst)) as S1.
  unfold os_makedirs in E, K.
  match type of E with
  | context [sys O (SysMakedirs dst) ?body w] =>
      specialize (S1 body w);
      destruct (sys O (SysMakedirs dst) body w) as [[[]|e] w1];
      [|discriminate]
  end.
  cbn [snd] in K, S1. rewrite G in K.
  unfold os_listdir, sys in E.
  destruct (fault O (clock w1) (SysListdir src)); [discriminate|].
  rewrite K in E.
  destruct (move_entries_overwrite_counts O src dst pm (names es) 0%Z
              (World (fs w1) (S (clock w1)) (events w1)))
    as [k' [w2 [errs [E' [Hev [F Hk]]]]]].
  rewrite E' in E. injection E as <- <-.
  exists errs. cbn [events] in Hev. split; [congruence|].
  split; [exact F|]. unfold names in Hk. rewrite length_map in Hk.
  split; [|lia].
  clear - E'. revert E'.
  generalize (World (fs w1) (S (clock w1)) (events w1)).
  assert (H : forall l k0 w0 k1 w3,
             (0 <= k0)%Z ->
             move_entries O src dst true pm l k0 w0 = (Ret k1, w3) ->
             (0 <= k1)%Z).
  { induction l as [|x l IH]; intros k0 w0 k1 w3 Hk0; cbn [move_entries].
    - intros E. injection E as <- <-. exact Hk0.
    - unfold bind.
      destruct (move_entry O src dst true pm x w0) as [[b|e] w4];
        [|discriminate].
      apply IH. destruct b; lia. }
  intros w0. apply H. lia.
Qed.

Lemma move_contents_counts_or_logs_witness :
  exists errs : list event,
    events (snd (move_contents oracle_quiet ["inputs_queue"]
                   ["inputs_staging"] true true sample_world))
    = errs ++ events sample_world
    /\ Forall (fun e => exists msg, e = EvLog ERROR msg) errs
    /\ (0 <= 2)%Z
    /\ (2 + Z.of_nat (List.length errs)
        = Z.of_nat (List.length
                      [("a.pdf", File "aa");
                       ("sub", Dir [("b.pdf", File "bbb")])]))%Z.
Proof.
  exact (move_contents_counts_or_logs oracle_quiet ["inputs_queue"]
           ["inputs_staging"] true
           [("a.pdf", File "aa"); ("sub", Dir [("b.pdf", File "bbb")])]
           sample_world
           (snd (move_contents oracle_quiet ["inputs_queue"]
                   ["inputs_staging"] true true sample_world))
           2%Z eq_refl eq_refl eq_refl).
Defined.

(** An entry is moved without a change at a path that lies neither in
    its source nor in its destination. *)
Lemma keeps_move_entry_at (O : oracle) (q src dst : path) (ov pm : bool)
    (x : string) :
  unrelated (src ++ [x]) q = true -> unrelated (dst ++ [x]) q = true ->
  keeps q (move_entry O src dst ov pm x).
Proof.
  intros Usx Udx.
  unfold move_entry, logger, os_path_exists, os_path_isdir, os_path_islink.
  repeat first
    [ apply keeps_ret | apply keeps_emit
    | apply keeps_os_remove; assumption
    | apply keeps_shutil_rmtree; assumption
    | apply keeps_shutil_copytree; assumption
    | apply keeps_shutil_copy2; assumption
    | apply keeps_shutil_move; assumption
    | apply keeps_try_except; [|intros ?]
    | apply keeps_bind; [|intros ?]
    | apply keeps_if
    | intros ?; reflexivity ].
Qed.

Lemma get_child_parent (d : path) (x : string) (t n : node) :
  get (d ++ [x]) t = Some n -> is_dir d t = true.
Proof.
  rewrite get_app. unfold is_dir.
  destruct (get d t) as [[data|es]|]; [|reflexivity|discriminate].
  cbn. discriminate.
Qed.

(** X8: [move_contents] without [overwrite] replaces nothing.  For a
    source directory apart from the destination, an entry that the
    destination holds when the call starts is held unchanged when the
    call ends, however it ends, and the entry of that name in the source,
    if there is one, stays where it is. *)
Theorem move_contents_no_overwrite (O : oracle) (src dst : path)
    (pm : bool) (x : string) (n : node) (w w' : world) (r : outcome Z) :
  unrelated src dst = true ->
  get (dst ++ [x]) (fs w) = Some n ->
  move_contents O src dst false pm w = (r, w') ->
  get (dst ++ [x]) (fs w') = Some n
  /\ get (src ++ [x]) (fs w') = get (src ++ [x]) (fs w).
Proof.
  intros U G E.
  assert (Step : forall y w0 w1 r0,
            get (dst ++ [x]) (fs w0) = Some n ->
            move_entry O src dst false pm y w0 = (r0, w1) ->
            get (dst ++ [x]) (fs w1) = Some n
            /\ get (src ++ [x]) (fs w1) = get (src ++ [x]) (fs w0)).
  { intros y w0 w1 r0 G0 E0. destruct (String.eqb_spec y x) as [->|Ne].
    - unfold move_entry, try_except, bind, os_path_exists, exists_ in E0.
      rewrite G0 in E0. cbn in E0. injection E0 as <- <-. now split.
    - assert (K1 : keeps (dst ++ [x]) (move_entry O src dst false pm y)).
      { apply keeps_move_entry_at.
        - apply unrelated_app_l, unrelated_app_r, U.
        - now apply unrelated_siblings. }
      assert (K2 : keeps (src ++ [x]) (move_entry O src dst false pm y)).
      { apply keeps_move_entry_at.
        - now apply unrelated_siblings.
        - apply unrelated_app_l, unrelated_app_r.
          now rewrite unrelated_sym. }
      specialize (K1 w0). specialize (K2 w0). rewrite E0 in K1, K2.
      cbn [snd] in K1, K2. split; congruence. }
  assert (Loop : forall l k w0 w1 r0,
            get (dst ++ [x]) (fs w0) = Some n ->
            move_entries O src dst false pm l k w0 = (r0, w1) ->
            get (dst ++ [x]) (fs w1) = Some n
            /\ get (src ++ [x]) (fs w1) = get (src ++ [x]) (fs w0)).
  { induction l as [|y l IH]; intros k w0 w1 r0 G0; cbn [move_entries].
    - intros E0. injection E0 as <- <-. now split.
    - unfold bind.
      destruct (move_entry O src dst false pm y w0) as [[b|e] w2] eqn:E1;
        intros E0.
      + destruct (Step y w0 w2 _ G0 E1) as [G2 S2].
        destruct (IH _ w2 w1 r0 G2 E0) as [G3 S3]. split; congruence.
      + injection E0 as <- <-. exact (Step y w0 w2 _ G0 E1). }
  unfold move_contents, bind, os_path_exists, ensure_dir in E.
  destruct (exists_ src (fs w)); cbn [negb] in E;
    [|injection E as <- <-; now split].
  unfold os_makedirs, sys in E.
  destruct (fault O (clock w) (SysMakedirs dst)).
  { injection E as <- <-. now split. }
  rewrite (get_child_parent dst x (fs w) n G) in E. cbv beta iota in E.
  unfold os_listdir, sys in E. cbn [clock fs] in E.
  destruct (fault O (S (clock w)) (SysListdir src)).
  { injection E as <- <-. now split. }
  destruct (get src (fs w)) as [[data|es]|];
    try (injection E as <- <-; now split).
  match type of E with
  | move_entries _ _ _ _ _ _ _ ?w0 = _ =>
      exact (Loop (names es) 0%Z w0 w' r G E)
  end.
Qed.

Lemma move_contents_no_overwrite_witness :
  let w := World (Dir [ ("inputs_queue", Dir [("a.pdf", File "new")]);
                        ("inputs_staging", Dir [("a.pdf", File "old")]) ])
             0 [] in
  let w' := snd (move_contents oracle_quiet ["inputs_queue"]
                   ["inputs_staging"] false true w) in
  get (["inputs_staging"] ++ ["a.pdf"]) (fs w') = Some (File "old")
  /\ get (["inputs_queue"] ++ ["a.pdf"]) (fs w')
     = get (["inputs_queue"] ++ ["a.pdf"]) (fs w).
Proof.
  intros w w'.
  exact (move_contents_no_overwrite oracle_quiet ["inputs_queue"]
           ["inputs_staging"] true "a.pdf" (File "old") w w'
           (fst (move_contents oracle_quiet ["inputs_queue"]
                   ["inputs_staging"] false true w))
           eq_refl eq_refl eq_refl).
Defined.

(** ** What the rotation and the snapshot leave alone *)

(** X9: the rotation touches nothing but its four directories.  What is
    at a path that lies neither in [inputs], nor in the queue, nor in
    the staging directory, nor in the archive [inputs_old_<stamp>] of
    this rotation, is the same after [rotate_inputs] as before, whether
    the rotation returns or raises and whatever fails on the way. *)
Theorem rotate_inputs_frame (O : oracle) (inputs queue staging q : path)
    (w w' : world) (r : outcome (string * Z * Z)) :
  unrelated inputs q = true ->
  unrelated queue q = true ->
  unrelated staging q = true ->
  unrelated (old_inputs_path_of (now_stamp_at O (clock w))) q = true ->
  rotate_inputs O inputs queue staging w = (r, w') ->
  get q (fs w') = get q (fs w).
Proof.
  intros Ui Uq Us Uo E.
  assert (K : keeps q
            (old_inputs_path <-
               rotate_step1 O inputs (now_stamp_at O (clock w)) ;;
             rotate_step2 O inputs ;;
             queue_count <- move_contents O queue staging true true ;;
             staging_count <- move_contents O staging inputs true true ;;
             ret (old_inputs_path, queue_count, staging_count))).
  { apply keeps_bind; [now apply keeps_rotate_step1|intros old].
    apply keeps_bind; [now apply keeps_rotate_step2|intros _].
    apply keeps_bind; [now apply keeps_move_contents|intros k1].
    apply keeps_bind; [now apply keeps_move_contents|intros k2].
    apply keeps_ret. }
  specialize (K (tick w)).
  unfold rotate_inputs, rotate_steps12, now_stamp in E.
  unfold bind in E, K. cbv beta iota in E.
  destruct (rotate_step1 O inputs (now_stamp_at O (clock w)) (tick w))
    as [[old|e] w1]; [|injection E as <- <-; exact K].
  destruct (rotate_step2 O inputs w1) as [[[]|e] w2];
    [|injection E as <- <-; exact K].
  unfold ret at 1 in E. cbv beta iota in E.
  destruct (move_contents O queue staging true true w2) as [[k1|e] w3];
    [|injection E as <- <-; exact K].
  destruct (move_contents O staging inputs true true w3) as [[k2|e] w4];
    injection E as <- <-; exact K.
Qed.

Lemma rotate_inputs_frame_witness :
  let w := World (Dir [ ("inputs", Dir [("old.pdf", File "old")]);
                        ("inputs_queue", Dir [("a.pdf", File "aa")]);
                        ("outputs", Dir [("kept.md", File "kept")]) ])
             0 [] in
  get ["outputs"; "kept.md"]
    (fs (snd (rotate_inputs oracle_no_rename_no_delete
                ["inputs"] ["inputs_queue"] ["inputs_staging"] w)))
  = get ["outputs"; "kept.md"] (fs w).
Proof.
  intros w.
  exact (rotate_inputs_frame oracle_no_rename_no_delete
           ["inputs"] ["inputs_queue"] ["inputs_staging"]
           ["outputs"; "kept.md"] w
           (snd (rotate_inputs oracle_no_rename_no_delete
                   ["inputs"] ["inputs_queue"] ["inputs_staging"] w))
           (fst (rotate_inputs oracle_no_rename_no_delete
                   ["inputs"] ["inputs_queue"] ["inputs_staging"] w))
           eq_refl eq_refl eq_refl eq_refl eq_refl).
Defined.

(** [shutil.copytree] either raises and changes nothing, or puts the
    entries of the source directory at the destination. *)
Lemma shutil_copytree_cases (O : oracle) (src dst : path) (w w' : world)
    (r : outcome unit) :
  shutil_copytree O src dst w = (r, w') ->
  events w' = events w
  /\ ((exists e, r = Raise e /\ fs w' = fs w)
      \/ (exists es, r = Ret tt /\ get src (fs w) = Some (Dir es)
                     /\ fs w' = put dst (Dir es) (fs w))).
Proof.
  unfold shutil_copytree, sys.
  destruct (fault O (clock w) (SysCopytree src dst)) as [e|].
  { intros E. injection E as <- <-. split; [reflexivity|]. left. eauto. }
  destruct (get src (fs w)) as [[data|es]|].
  - intros E. injection E as <- <-. split; [reflexivity|]. left. eauto.
  - destruct (exists_ dst (fs w)).
    { intros E. injection E as <- <-. split; [reflexivity|]. left. eauto. }
    destruct (no_file_on_way dst (fs w)); intros E; injection E as <- <-;
      (split; [reflexivity|]); [right; eauto|left; eauto].
  - intros E. injection E as <- <-. split; [reflexivity|]. left. eauto.
Qed.

(** X10: a snapshot is a copy and harms nothing.  When the source is a
    directory that lies apart from the two places a snapshot can go,
    [<prefix>_<stamp>] and, should that be taken, [<prefix>_<stamp>_1],
    and [snapshot_directory] returns, then the path it returns is one of
    the two, it holds the entries of the source, the source still holds
    them, and everything outside the returned path is as before. *)
Theorem snapshot_directory_copies (O : oracle) (src : path)
    (prefix : string) (es : list (string * node)) (w w' : world)
    (d : path) :
  get src (fs w) = Some (Dir es) ->
  unrelated src [(prefix ++ "_" ++ now_stamp_at O (clock w))%string]
  = true ->
  unrelated src [(prefix ++ "_" ++ now_stamp_at O (clock w) ++ "_1")%string]
  = true ->
  snapshot_directory O src prefix w = (Ret d, w') ->
  (d = [(prefix ++ "_" ++ now_stamp_at O (clock w))%string]
   \/ d = [(prefix ++ "_" ++ now_stamp_at O (clock w) ++ "_1")%string])
  /\ get d (fs w') = Some (Dir es)
  /\ get src (fs w') = Some (Dir es)
  /\ (forall q, unrelated d q = true -> get q (fs w') = get q (fs w)).
Proof.
  intros G U1 U2 E.
  unfold snapshot_directory, now_stamp in E. unfold bind at 1 in E.
  cbv beta iota in E.
  set (stamp := now_stamp_at O (clock w)) in *.
  apply try_except_cases in E.
  destruct E as [[a [E Ea]]|[e [w1 [E Eh]]]].
  - injection Ea as <-.
    unfold bind, os_path_exists, exists_ in E. cbn [fs tick] in E.
    rewrite G in E.
    destruct (shutil_copytree O src [(prefix ++ "_" ++ stamp)%string]
                (tick w)) as [r1 w1] eqn:E1.
    destruct (shutil_copytree_cases O _ _ _ _ _ E1)
      as [_ [[e [-> _]]|[es' [-> [G' Hfs]]]]]; [discriminate|].
    unfold ret in E. injection E as <- <-.
    cbn [fs tick] in G', Hfs. rewrite G in G'. injection G' as <-.
    split; [now left|]. rewrite Hfs.
    split; [apply get_put_same|]. split.
    + rewrite get_put_unrelated; [exact G|now rewrite unrelated_sym].
    + intros q Hq. now apply get_put_unrelated.
  - assert (Hw1 : fs w1 = fs w).
    { unfold bind, os_path_exists, exists_ in E. cbn [fs tick] in E.
      rewrite G in E.
      destruct (shutil_copytree O src [(prefix ++ "_" ++ stamp)%string]
                  (tick w)) as [r1 w2] eqn:E1.
      destruct (shutil_copytree_cases O _ _ _ _ _ E1)
        as [_ [[e' [-> Hfs]]|[es' [-> _]]]]; [|discriminate].
      injection E as <- <-. exact Hfs. }
    destruct (exn_kind_of e); try discriminate.
    unfold bind in Eh.
    destruct (shutil_copytree O src
                [(prefix ++ "_" ++ stamp ++ "_1")%string] w1)
      as [r2 w2] eqn:E2.
    destruct (shutil_copytree_cases O _ _ _ _ _ E2)
      as [_ [[e' [-> _]]|[es' [-> [G' Hfs]]]]]; [discriminate|].
    unfold logger, emit, ret in Eh. injection Eh as <- <-. cbn [fs].
    rewrite Hw1 in G', Hfs. rewrite G in G'. injection G' as <-.
    split; [now right|]. rewrite Hfs.
    split; [apply get_put_same|]. split.
    + rewrite get_put_unrelated; [exact G|now rewrite unrelated_sym].
    + intros q Hq. now apply get_put_unrelated.
Qed.

Lemma snapshot_directory_copies_witness :
  let w := World (Dir [("outputs", Dir [("a_from_pdf.md", File "# A")])])
             0 [] in
  let w' := snd (snapshot_directory oracle_quiet ["outputs"] "outputs" w) in
  let d := ["outputs_20240101_120000_000"] in
  (d = [("outputs" ++ "_" ++ now_stamp_at oracle_quiet (clock w))%string]
   \/ d = [("outputs" ++ "_" ++ now_stamp_at oracle_quiet (clock w)
            ++ "_1")%string])
  /\ get d (fs w') = Some (Dir [("a_from_pdf.md", File "# A")])
  /\ get ["outputs"] (fs w') = Some (Dir [("a_from_pdf.md", File "# A")])
  /\ (forall q, unrelated d q = true -> get q (fs w') = get q (fs w)).
Proof.
  intros w w' d.
  exact (snapshot_directory_copies oracle_quiet ["outputs"] "outputs"
           [("a_from_pdf.md", File "# A")] w w' d
           eq_refl eq_refl eq_refl eq_refl).
Defined.

(** ** Conversion with retries: what an attempt costs *)



Lemma costs_mono (nc ns nc' ns' : nat) (A : Type) (c : M A) :
  (nc <= nc')%nat -> (ns <= ns')%nat -> costs nc ns c -> costs nc' ns' c.
Proof.
  intros H1 H2 H w. destruct (H w) as [l [Hl [Hc Hs]]].
  exists l. split; [exact Hl|]. split; lia.
Qed.

Lemma costs_silent (A : Type) (c : M A) : silent c -> costs 0 0 c.
Proof. intros H w. exists []. split; [apply H|]. split; constructor. Qed.

Lemma costs_emit (e : event) :
  costs (if is_convert e then 1 else 0) (if is_sleep e then 1 else 0)
    (emit e).
Proof.
  intros w. exists [e]. split; [reflexivity|].
  unfold count_converts, count_sleeps. cbn.
  destruct (is_convert e), (is_sleep e); cbn; split; lia.
Qed.

Lemma costs_bind (nc ns nc' ns' : nat) (A B : Type) (c : M A)
    (k : A -> M B) :
  costs nc ns c -> (forall a, costs nc' ns' (k a)) ->
  costs (nc + nc') (ns + ns') (bind c k).
Proof.
  intros Hc Hk w. unfold bind.
  destruct (Hc w) as [l [Hl [H1 H2]]].
  destruct (c w) as [[a|e] w1]; cbn [snd] in Hl.
  - destruct (Hk a w1) as [l' [Hl' [H1' H2']]]. exists (l' ++ l).
    split; [now rewrite Hl', Hl, app_assoc|].
    rewrite count_converts_app, count_sleeps_app. split; lia.
  - exists l. split; [exact Hl|]. split; lia.
Qed.

Lemma costs_try_except (nc ns nc' ns' : nat) (A : Type) (c : M A)
    (h : exn -> M A) :
  costs nc ns c -> (forall e, costs nc' ns' (h e)) ->
  costs (nc + nc') (ns + ns') (try_except c h).
Proof.
  intros Hc Hh w. unfold try_except.
  destruct (Hc w) as [l [Hl [H1 H2]]].
  destruct (c w) as [[a|e] w1]; cbn [snd] in Hl.
  - exists l. split; [exact Hl|]. split; lia.
  - destruct (Hh e w1) as [l' [Hl' [H1' H2']]]. exists (l' ++ l).
    split; [now rewrite Hl', Hl, app_assoc|].
    rewrite count_converts_app, count_sleeps_app. split; lia.
Qed.

Lemma costs_if (nc ns : nat) (A : Type) (b : bool) (c1 c2 : M A) :
  costs nc ns c1 -> costs nc ns c2 -> costs nc ns (if b then c1 else c2).
Proof. now destruct b. Qed.

Lemma costs_converter_document (O : oracle) (input_path : path) :
  costs 1 0 (converter_document O input_path).
Proof.
  intros w. exists [EvConvert input_path]. unfold converter_document.
  split; [now destruct (converter_convert O (clock w) input_path)|].
  split; cbn; lia.
Qed.

(** What follows the conversion in an attempt: the export and the
    write. *)
Lemma costs_call_export (name : string) (res : export_result) :
  costs 0 0 (call_export name res).
Proof.
  unfold call_export.
  apply (costs_bind 0 0 0 0); [exact (costs_emit (EvExport name))|].
  intros _. destruct res; apply costs_silent;
    first [apply silent_raise | apply silent_ret].
Qed.

(** One attempt makes one conversion at most, and sleeps once at most,
    and not at all when it is the first. *)
Lemma costs_convert_try (O : oracle) (input_path output_path : path)
    (output_ext : string) (attempt retry_attempts : Z) (retry_delay : Q) :
  costs 1 (if (0 <? attempt)%Z then 1 else 0)
    (convert_try O input_path output_path output_ext attempt retry_attempts
       retry_delay).
Proof.
  unfold convert_try.
  apply (costs_mono (0 + 1) ((if (0 <? attempt)%Z then 1 else 0) + 0));
    [lia|lia|].
  apply costs_bind.
  { destruct (0 <? attempt)%Z; [|apply costs_silent, silent_ret].
    apply (costs_bind 0 0 0 1); [exact (costs_emit (EvLog INFO _))|].
    intros _. unfold time_sleep.
    apply costs_if; [apply (costs_mono 0 0)|];
      [lia|lia|apply costs_silent, silent_raise|].
    exact (costs_emit (EvSleep retry_delay)). }
  intros _.
  apply (costs_bind 1 0 0 0); [apply costs_converter_document|].
  intros [doc|]; [|apply costs_silent, silent_ret].
  destruct (dict_get output_ext EXPORT_METHODS) as [name|];
    [|apply costs_silent, silent_ret].
  destruct (doc_method doc name) as [res|];
    [|apply costs_silent, silent_ret].
  apply (costs_bind 0 0 0 0); [apply costs_call_export|].
  intros [c|]; [|apply costs_silent, silent_ret].
  apply costs_silent. unfold os_makedirs. repeat silent_step.
Qed.

Lemma costs_convert_loop (O : oracle) (n : nat)
    (input_path output_path : path) (output_ext : string)
    (retry_attempts : Z) (retry_delay : Q) :
  forall attempt : Z,
  (0 <= attempt)%Z ->
  costs n (if (0 <? attempt)%Z then n else Nat.pred n)
    (convert_loop O n input_path output_path output_ext attempt
       retry_attempts retry_delay).
Proof.
  induction n as [|n IH]; intros attempt Ha; cbn [convert_loop].
  - destruct (0 <? attempt)%Z; apply costs_silent, silent_ret.
  - apply (costs_mono (1 + n) ((if (0 <? attempt)%Z then 1 else 0) + n));
      [lia|destruct (0 <? attempt)%Z; cbn; lia|].
    apply costs_bind.
    + apply (costs_mono (1 + 0) ((if (0 <? attempt)%Z then 1 else 0) + 0));
        [lia|lia|].
      apply costs_try_except.
      * apply (costs_mono (1 + 0) ((if (0 <? attempt)%Z then 1 else 0) + 0));
          [lia|lia|].
        apply costs_bind; [apply costs_convert_try|].
        intros res. apply costs_silent, silent_ret.
      * intros e. unfold convert_except.
        destruct (attempt <? retry_attempts)%Z;
          (apply (costs_bind 0 0 0 0);
           [exact (costs_emit (EvLog _ _))
           |intros _; apply costs_silent, silent_ret]).
    + intros [res|]; [apply (costs_mono 0 0);
                        [lia|lia|apply costs_silent, silent_ret]|].
      specialize (IH (attempt + 1)%Z).
      replace (0 <? attempt + 1)%Z with true in IH
        by (symmetry; apply Z.ltb_lt; lia).
      apply IH. lia.
Qed.

(** X11: [convert_document] never raises and its retries are bounded:
    whatever the converter, the export and the file system do, it
    returns a result, having called the converter at most
    [retry_attempts + 1] times and slept at most [retry_attempts]
    times. *)
Theorem convert_document_bounded (O : oracle)
    (input_path output_path : path) (output_ext : string)
    (retry_attempts : Z) (retry_delay : Q) (w : world) :
  exists (success : bool) (message : string) (w' : world)
         (added : list event),
    convert_document O input_path output_path output_ext retry_attempts
      retry_delay w
    = (Ret (success, message), w')
    /\ events w' = added ++ events w
    /\ (count_converts added <= Z.to_nat (retry_attempts + 1))%nat
    /\ (count_sleeps added <= Z.to_nat retry_attempts)%nat.
Proof.
  unfold convert_document.
  destruct (convert_loop_returns O (Z.to_nat (retry_attempts + 1)) input_path
              output_path output_ext retry_attempts retry_delay 0%Z w)
    as [[success message] [w' E]].
  destruct (costs_convert_loop O (Z.to_nat (retry_attempts + 1)) input_path
              output_path output_ext retry_attempts retry_delay 0%Z
              (Z.le_refl 0) w)
    as [l [Hl [Hc Hs]]].
  rewrite E in Hl. cbn [snd] in Hl. cbn in Hs.
  exists success, message, w', l. split; [exact E|].
  split; [exact Hl|]. split; [exact Hc|]. lia.
Qed.

(** ** Conversion with retries: what a success means *)


(** An attempt that reports a success has written what the document of
    the conversion exported. *)
Lemma convert_try_success (O : oracle) (input_path output_path : path)
    (output_ext : string) (attempt retry_attempts : Z) (retry_delay : Q)
    (w w' : world) (message : string) :
  output_path <> [] ->
  convert_try O input_path output_path output_ext attempt retry_attempts
    retry_delay w
  = (Ret (true, message), w') ->
  message = "Success"
  /\ exists (k : nat) (doc : document) (name : string) (c : content)
            (data : string),
       converter_convert O k input_path = ConvertResult (Some doc)
       /\ dict_get output_ext EXPORT_METHODS = Some name
       /\ doc_method doc name = Some (ExportContent c)
       /\ payload (binary_mode None c) c = Some data
       /\ (data = "" -> c = ByteArray "")
       /\ get output_path (fs w') = Some (File data).
Proof.
  intros N E. unfold convert_try in E.
  apply bind_ret_inv in E. destruct E as [u [w0 [_ E]]].
  apply bind_ret_inv in E. destruct E as [doc [w1 [E1 E]]].
  destruct doc as [doc|]; [|discriminate].
  destruct (dict_get output_ext EXPORT_METHODS) as [name|] eqn:Ed;
    [|discriminate].
  destruct (doc_method doc name) as [res|] eqn:Em; [|discriminate].
  apply bind_ret_inv in E. destruct E as [content [w2 [E2 E]]].
  destruct content as [c|]; [|discriminate].
  destruct (empty_content c) eqn:Ec; [discriminate|].
  apply bind_ret_inv in E. destruct E as [[] [w3 [_ E]]].
  apply bind_ret_inv in E. destruct E as [[] [w4 [E4 E]]].
  unfold ret in E. injection E as <- <-. split; [reflexivity|].
  destruct (atomic_write_ret O output_path c None w3 w4 N E4)
    as [data [Hp Hg]].
  exists (clock w0), doc, name, c, data.
  split.
  { unfold converter_document in E1.
    destruct (converter_convert O (clock w0) input_path) as [e|d];
      [discriminate|].
    injection E1 as -> _. reflexivity. }
  split; [reflexivity|]. split.
  { unfold call_export, bind, emit in E2.
    destruct res as [e| |c']; try discriminate.
    unfold ret in E2. injection E2 as -> _. exact Em. }
  split; [exact Hp|]. split; [|exact Hg].
  intros ->. destruct c as [s|b|b|o]; cbn in Hp, Ec; try discriminate;
    injection Hp as ->; [discriminate|discriminate|reflexivity].
Qed.


